(** * grad_cam: the inference-to-visualisation pipeline

    A shallow embedding of [preprocessImage], [generateGradCAM] and the
    result-building part of [runInference] from [src/src/App.tsx], together
    with the properties the specification states about them.  The
    repository also holds a restructured copy of the component (the second
    document of [src/src/vite-env.d.ts]); where its formulas differ they
    are recorded in the module [Restructured].

    Numbers.  JavaScript numbers and tensor elements are modelled by [num]:
    a real number, one of the two infinities, or NaN.  Arithmetic on finite
    values is exact: the rounding of doubles, the rounding to float32 of
    what a tensor or a [tf.buffer] stores, and the sign of zero are not
    modelled; the special values follow IEEE 754, so that a division
    [0 / 0] yields [NaN] and [Math.max()] of nothing yields [-Infinity].
    Where a stored value or a byte is concerned, the properties below are
    those that rounding leaves as they are: which cells are 0 or 1,
    bounds, order, and a byte up to the integers next to the exact value.

    Spread calls.  [Math.max(...a)] and [Math.min(...a)] are modelled for
    every array [a], while an engine refuses a call above its limit of
    arguments.  Properties of whole runs are therefore stated for arrays
    of at most 224 x 224 elements, the size the component works with.

    Tensors.  A tensor is a shape together with its row-major values, as in
    TensorFlow.js.  The TensorFlow.js operations the source calls are
    modelled after their documented behaviour. *)

From Stdlib Require Import Reals Lra Lia ZArith String Sorted.
From stdpp Require Import base list strings pretty.

(** ** JavaScript numbers *)

Module JsNum.

Inductive num : Type :=
| Fin (r : R)
| PInf
| NInf
| NaN.

Definition isNaN (a : num) : bool :=
  match a with NaN => true | _ => false end.

Definition isFinite (a : num) : bool :=
  match a with Fin _ => true | _ => false end.

Definition neg (a : num) : num :=
  match a with
  | Fin r => Fin (- r)
  | PInf => NInf
  | NInf => PInf
  | NaN => NaN
  end.

Definition add (a b : num) : num :=
  match a, b with
  | NaN, _ | _, NaN => NaN
  | Fin x, Fin y => Fin (x + y)
  | PInf, NInf | NInf, PInf => NaN
  | PInf, _ | _, PInf => PInf
  | NInf, _ | _, NInf => NInf
  end.

Definition sub (a b : num) : num := add a (neg b).

(** The infinity carrying the sign of [r]; [NaN] when [r] is zero
    (this is [Infinity * r], and [r / 0]). *)
Definition inf_of_sign (r : R) : num :=
  if Rlt_dec 0 r then PInf else if Rlt_dec r 0 then NInf else NaN.

Definition mul (a b : num) : num :=
  match a, b with
  | NaN, _ | _, NaN => NaN
  | Fin x, Fin y => Fin (x * y)
  | Fin x, PInf | PInf, Fin x => inf_of_sign x
  | Fin x, NInf | NInf, Fin x => inf_of_sign (- x)
  | PInf, PInf | NInf, NInf => PInf
  | PInf, NInf | NInf, PInf => NInf
  end.

Definition div (a b : num) : num :=
  match a, b with
  | NaN, _ | _, NaN => NaN
  | Fin x, Fin y => if Req_dec_T y 0 then inf_of_sign x else Fin (x / y)
  | Fin _, PInf | Fin _, NInf => Fin 0
  | PInf, Fin y => if Rlt_dec y 0 then NInf else PInf
  | NInf, Fin y => if Rlt_dec y 0 then PInf else NInf
  | _, _ => NaN
  end.

(** [a < b]; false as soon as one side is [NaN]. *)
Definition ltb (a b : num) : bool :=
  match a, b with
  | NaN, _ | _, NaN => false
  | Fin x, Fin y => if Rlt_dec x y then true else false
  | NInf, Fin _ | NInf, PInf | Fin _, PInf => true
  | _, _ => false
  end.

(** [a === b] on numbers. *)
Definition strict_eq (a b : num) : bool :=
  match a, b with
  | Fin x, Fin y => if Req_dec_T x y then true else false
  | PInf, PInf | NInf, NInf => true
  | _, _ => false
  end.

(** [Math.max(a, b)] and [Math.min(a, b)]. *)
Definition max2 (a b : num) : num :=
  if isNaN a || isNaN b then NaN else if ltb a b then b else a.

Definition min2 (a b : num) : num :=
  if isNaN a || isNaN b then NaN else if ltb b a then b else a.

(** [Math.max(...l)] and [Math.min(...l)]: the fold starts from
    [-Infinity], respectively [+Infinity]. *)
Definition Math_max (l : list num) : num := foldl max2 NInf l.
Definition Math_min (l : list num) : num := foldl min2 PInf l.

Definition Math_sqrt (a : num) : num :=
  match a with
  | Fin x => if Rlt_dec x 0 then NaN else Fin (sqrt x)
  | PInf => PInf
  | NInf | NaN => NaN
  end.

Definition Math_floor (a : num) : num :=
  match a with
  | Fin x => Fin (IZR (Zfloor x))
  | _ => a
  end.

(** [Math.round]: the nearest integer, ties towards [+Infinity]. *)
Definition Math_round (a : num) : num :=
  match a with
  | Fin x => Fin (IZR (Zfloor (x + 1 / 2)))
  | _ => a
  end.

(** [a ** 2]. *)
Definition sq (a : num) : num := mul a a.

Definition of_nat (n : nat) : num := Fin (INR n).

End JsNum.

Export JsNum.

(** ** Tensors and the TensorFlow.js operations used by the source *)

Record Tensor : Type := mkTensor { shape : list nat; values : list num }.

(** [t.squeeze([0])]: removes dimension 0, and throws unless that
    dimension is 1. *)
Definition squeeze0 (t : Tensor) : option Tensor :=
  match shape t with
  | 1%nat :: s => Some (mkTensor s (values t))
  | _ => None
  end.

(** [t.squeeze([2])] on a rank 3 tensor. *)
Definition squeeze2 (t : Tensor) : option Tensor :=
  match shape t with
  | [h; w; 1%nat] => Some (mkTensor [h; w] (values t))
  | _ => None
  end.

(** [t.expandDims(0)] and [t.expandDims(2)] (the latter on rank 2). *)
Definition expandDims0 (t : Tensor) : Tensor :=
  mkTensor (1%nat :: shape t) (values t).

Definition expandDims2 (t : Tensor) : option Tensor :=
  match shape t with
  | [h; w] => Some (mkTensor [h; w; 1%nat] (values t))
  | _ => None
  end.

Definition sum (l : list num) : num := foldl add (Fin 0) l.

(** The means of [n] consecutive groups of [c] values. *)
Fixpoint chunkMeans (c n : nat) (l : list num) : list num :=
  match n with
  | O => []
  | S n' => div (sum (take c l)) (of_nat c) :: chunkMeans c n' (drop c l)
  end.

(** [tf.mean(t, 2)] on a rank 3 tensor: the mean over the last axis. *)
Definition tf_mean_axis2 (t : Tensor) : option Tensor :=
  match shape t with
  | [h; w; c] => Some (mkTensor [h; w] (chunkMeans c (h * w) (values t)))
  | _ => None
  end.

(** [tf.max(t)]: the maximum over all elements, NaN if one of them is. *)
Definition tf_max (t : Tensor) : num := Math_max (values t).

(** Element-wise operations with a scalar, and between equal shapes. *)
Definition tf_div (t : Tensor) (s : num) : Tensor :=
  mkTensor (shape t) (map (fun v => div v s) (values t)).

Definition tf_sub (t : Tensor) (s : num) : Tensor :=
  mkTensor (shape t) (map (fun v => sub v s) (values t)).

Definition tf_mul (a b : Tensor) : Tensor :=
  mkTensor (shape a) (zip_with mul (values a) (values b)).

(** [tf.clipByValue]: [v > hi ? hi : (v < lo ? lo : v)]. *)
Definition clipByValue (lo hi v : num) : num :=
  if ltb hi v then hi else if ltb v lo then lo else v.

(** [tf.stack([r, g, b], 2)] of three tensors of one shape: the values
    are interleaved. *)
Fixpoint stack3 (r g b : list num) : list num :=
  match r, g, b with
  | x :: r', y :: g', z :: b' => x :: y :: z :: stack3 r' g' b'
  | _, _, _ => []
  end.

(** [tf.buffer([h, w])] is filled with zeros; [buffer.set(v, y, x)]
    writes position [y * w + x]. *)
Definition tf_buffer (h w : nat) : list num := replicate (h * w) (Fin 0).

Definition buffer_set (w : nat) (v : num) (y x : nat) (buf : list num)
  : list num :=
  <[(y * w + x)%nat := v]> buf.

(** [tf.image.resizeBilinear(t, [newHeight, newWidth])] on a rank 3
    tensor, with the default [alignCorners = false].  Output row [r]
    samples the source at [r * oldHeight / newHeight], between the rows
    below and above that position, and likewise for columns. *)
Definition lerp (a b f : num) : num := add a (mul (sub b a) f).

Definition ceil_div (a b : nat) : nat :=
  (a / b + (if (a mod b =? 0)%nat then 0 else 1))%nat.

Definition resizeBilinear (t : Tensor) (newHeight newWidth : nat)
  : option Tensor :=
  match shape t with
  | [oldHeight; oldWidth; depth] =>
      let X r c d :=
        default NaN (values t !! ((r * oldWidth + c) * depth + d)%nat) in
      let pixel (idx : nat) : num :=
        let d := (idx mod depth)%nat in
        let c := ((idx / depth) mod newWidth)%nat in
        let r := (idx / depth / newWidth)%nat in
        let sourceRowFloor := (r * oldHeight / newHeight)%nat in
        let rowFrac :=
          Fin (INR ((r * oldHeight) mod newHeight) / INR newHeight) in
        let sourceRowCeil :=
          Nat.min (oldHeight - 1) (ceil_div (r * oldHeight) newHeight) in
        let sourceColFloor := (c * oldWidth / newWidth)%nat in
        let colFrac :=
          Fin (INR ((c * oldWidth) mod newWidth) / INR newWidth) in
        let sourceColCeil :=
          Nat.min (oldWidth - 1) (ceil_div (c * oldWidth) newWidth) in
        let top :=
          lerp (X sourceRowFloor sourceColFloor d)
               (X sourceRowFloor sourceColCeil d) colFrac in
        let bottom :=
          lerp (X sourceRowCeil sourceColFloor d)
               (X sourceRowCeil sourceColCeil d) colFrac in
        lerp top bottom rowFrac in
      Some (mkTensor [newHeight; newWidth; depth]
              (map pixel (seq 0 (newHeight * newWidth * depth))))
  | _ => None
  end.

(** ** [preprocessImage] (src/src/App.tsx, lines 262-276) *)

(** A decoded image: its size and its RGB bytes, row by row. *)
Record HTMLImage : Type :=
  mkImage { naturalHeight : nat; naturalWidth : nat; rgb : list Z }.

(** [tf.browser.fromPixels(img)]: shape [[H; W; 3]]. *)
Definition fromPixels (img : HTMLImage) : Tensor :=
  mkTensor [naturalHeight img; naturalWidth img; 3%nat]
           (map (fun z => Fin (IZR z)) (rgb img)).

Definition preprocessImage (img : HTMLImage) : option Tensor :=
  let tensor := fromPixels img in
  tensor ← resizeBilinear tensor 224 224;
  let tensor := tf_div tensor (Fin 255) in
  Some (expandDims0 tensor).

(** ** [generateGradCAM] (src/src/App.tsx, lines 279-416) *)

(** Lines 293-294.  The spread call [Math.max(...predictions)] is taken
    to succeed, as it does for a vector within the engine's limit of
    arguments. *)
Definition confidenceBoost (predictions : list num) : num :=
  let maxConfidence := Math_max predictions in
  max2 (Fin (3 / 10)) (mul maxConfidence (Fin 2)).

(** Lines 309-323: the centre mask, written into a buffer by two nested
    loops.  The buffer of the source stores float32 values; a cell is
    modelled by the exact product [weight * confidenceBoost]. *)
Definition maskWeight (height width : nat) (y x : nat) : num :=
  let centerY := Math_floor (div (of_nat height) (Fin 2)) in
  let centerX := Math_floor (div (of_nat width) (Fin 2)) in
  let radius := div (min2 (of_nat height) (of_nat width)) (Fin 3) in
  let distance :=
    Math_sqrt (add (sq (sub (of_nat y) centerY))
                   (sq (sub (of_nat x) centerX))) in
  max2 (Fin 0) (sub (Fin 1) (div distance radius)).

Definition centerMask (height width : nat) (boost : num) : list num :=
  foldl (fun buf y =>
           foldl (fun buf x =>
                    let weight := maskWeight height width y x in
                    buffer_set width (mul weight boost) y x buf)
                 buf (seq 0 width))
        (tf_buffer height width) (seq 0 height).

(** Lines 284-328: the raw heat map.  ([channelMeans] and
    [maxChannelWeight] of lines 289-290 are only logged.) *)
Definition heatmap (inputTensor : Tensor) (predictions : list num)
  : option Tensor :=
  squeezed ← squeeze0 inputTensor;
  let boost := confidenceBoost predictions in
  grayscale ← tf_mean_axis2 squeezed;
  let normalized := tf_div grayscale (tf_max grayscale) in
  match shape normalized with
  | [height; width] =>
      let centerWeights :=
        mkTensor [height; width] (centerMask height width boost) in
      Some (tf_mul normalized centerWeights)
  | _ => None
  end.

(** Lines 344-352: the fixed pattern used when the raw map has no
    range. *)
Definition fixedValue (y x : nat) : num :=
  let centerDist :=
    Math_sqrt (add (sq (sub (of_nat y) (Fin 112)))
                   (sq (sub (of_nat x) (Fin 112)))) in
  max2 (Fin 0) (sub (Fin 1) (div centerDist (Fin 80))).

Definition fixedPattern : list num :=
  foldl (fun buf y =>
           foldl (fun buf x => buffer_set 224 (fixedValue y x) y x buf)
                 buf (seq 0 224))
        (tf_buffer 224 224) (seq 0 224).

(** Lines 330-363: normalisation of the raw map.  The two spread calls
    of lines 332-333 are taken to succeed, as they do for a map within
    the engine's limit of arguments (a 224 x 224 map is); the
    subtraction and the division of line 357 are float32 in
    TensorFlow.js and exact here. *)
Definition normalizedHeatmap (hm : Tensor) : option Tensor :=
  let dataArray := values hm in
  let min := Math_min dataArray in
  let max := Math_max dataArray in
  let range := sub max min in
  if strict_eq range (Fin 0) then
    Some (mkTensor [224; 224]%nat fixedPattern)
  else
    expanded ← expandDims2 hm;
    resized ← resizeBilinear expanded 224 224;
    squeezedResized ← squeeze2 resized;
    Some (tf_div (tf_sub squeezedResized min) range).

(** The saliency map: the two stages above in sequence. *)
Definition saliencyMap (inputTensor : Tensor) (predictions : list num)
  : option Tensor :=
  hm ← heatmap inputTensor predictions;
  normalizedHeatmap hm.

(** Lines 366-380: the colour map, then [.mul(255)] of line 389.  These
    tensor operations are float32 in TensorFlow.js and exact here. *)
Definition redOf (v : num) : num :=
  clipByValue (Fin 0) (Fin 1) (mul (sub v (Fin (3 / 10))) (Fin (25 / 10))).

Definition greenOf (v : num) : num :=
  clipByValue (Fin 0) (Fin 1) (mul v (Fin (15 / 10))).

Definition blueOf (v : num) : num :=
  clipByValue (Fin 0) (Fin 1) (sub (Fin 1) (mul v (Fin 2))).

Definition coloredHeatmap (vs : list num) : list num :=
  stack3 (map redOf vs) (map greenOf vs) (map blueOf vs).

Definition colorArray (vs : list num) : list num :=
  map (fun c => mul c (Fin 255)) (coloredHeatmap vs).

(** Storing a number into a [Uint8ClampedArray]: clamped to [0, 255],
    rounded to the nearest integer with ties to even; [NaN] becomes 0. *)
Definition ToUint8Clamp (a : num) : Z :=
  match a with
  | Fin x =>
      if Rle_dec x 0 then 0%Z
      else if Rle_dec 255 x then 255%Z
      else
        let f := Zfloor x in
        if Rlt_dec (x - IZR f) (1 / 2) then f
        else if Rlt_dec (1 / 2) (x - IZR f) then (f + 1)%Z
        else if Z.even f then f else (f + 1)%Z
  | PInf => 255%Z
  | NInf | NaN => 0%Z
  end.

(** Lines 388-403: the RGBA buffer.  [element a i] is [a[i]]: an index
    outside the array reads [undefined], which arithmetic turns into
    [NaN].  A write outside the buffer is ignored. *)
Definition element (a : list num) (i : nat) : num := default NaN (a !! i).

Definition byteOf (x : num) : num :=
  Math_round (min2 (Fin 255) (max2 (Fin 0) x)).

Definition imageData (colors : list num) : list Z :=
  foldl (fun data i =>
           let r := byteOf (mul (element colors (i * 3)) (Fin (12 / 10))) in
           let g := byteOf (element colors (i * 3 + 1)) in
           let b := byteOf (mul (element colors (i * 3 + 2)) (Fin (8 / 10))) in
           <[(i * 4 + 3)%nat := 200%Z]>
             (<[(i * 4 + 2)%nat := ToUint8Clamp b]>
                (<[(i * 4 + 1)%nat := ToUint8Clamp g]>
                   (<[(i * 4)%nat := ToUint8Clamp r]> data))))
        (replicate (224 * 224 * 4) 0%Z)
        (seq 0 ((length colors + 2) / 3)).

(** The whole function; [None] is the [null] returned by the [catch]. *)
Definition generateGradCAM (inputTensor : Tensor) (predictions : list num)
  : option (list Z) :=
  hm ← heatmap inputTensor predictions;
  normalized ← normalizedHeatmap hm;
  Some (imageData (colorArray (values normalized))).

(** ** [runInference] (src/src/App.tsx, lines 436-447) *)

Record JankenPrediction : Type :=
  mkPrediction { label : string; confidence : num }.

Definition JANKEN_LABELS : list string := ["グー"; "チョキ"; "パー"]%string.

(** [Array.prototype.sort(comparefn)]: [x] is placed after [y] when
    [comparefn(x, y) > 0]; elements that compare equal keep their order.
    Modelled by a stable insertion sort. *)
Fixpoint sort_insert {A : Type} (comparefn : A -> A -> num) (x : A)
  (l : list A) : list A :=
  match l with
  | [] => [x]
  | y :: t =>
      if ltb (Fin 0) (comparefn x y) then y :: sort_insert comparefn x t
      else x :: y :: t
  end.

Definition Array_sort {A : Type} (comparefn : A -> A -> num) (l : list A)
  : list A :=
  foldr (sort_insert comparefn) [] l.

Definition byConfidenceDesc (a b : JankenPrediction) : num :=
  sub (confidence b) (confidence a).

(** Lines 436-442. *)
Definition results (predictionData : list num) : list JankenPrediction :=
  Array_sort byConfidenceDesc
    (imap (fun index c =>
             mkPrediction
               (default ("Class " +:+ pretty index) (JANKEN_LABELS !! index))
               c)
          (take 3 predictionData)).

(** What one inference publishes: the prediction list (line 444) and the
    heat map (lines 447-448), both computed from the classifier output
    [predictionData] as it is. *)
Definition runInference (img : HTMLImage) (predictionData : list num)
  : option (list JankenPrediction * option (list Z)) :=
  inputTensor ← preprocessImage img;
  Some (results predictionData, generateGradCAM inputTensor predictionData).

(** ** The formulas as the specification words them *)

Module Spec.

Local Open Scope R_scope.

Definition clamp (x lo hi : R) : R := Rmax lo (Rmin x hi).

(** "boost = clamp(max(probabilities) * 2, 0.3, 1.0)" *)
Definition boost (maxProbability : R) : R :=
  clamp (maxProbability * 2) (3 / 10) 1.

Definition distance (cy cx y x : R) : R :=
  sqrt ((y - cy) * (y - cy) + (x - cx) * (x - cx)).

(** "weight = exp(-distance² / (2·(r/2)²)) · boost", centred at
    [(floor(height/2), floor(width/2))], with [r = min(height,width)/3]. *)
Definition maskWeight (height width y x : nat) (b : R) : R :=
  let d :=
    distance (INR (height / 2)%nat) (INR (width / 2)%nat) (INR y) (INR x) in
  let r := INR (Nat.min height width) / 3 in
  exp (- (d * d) / (2 * ((r / 2) * (r / 2)))) * b.

(** "value = max(0, 1 - distance/falloff_radius)" with
    [falloff_radius = 80/224 * min(height,width)]. *)
Definition fallback (height width y x : nat) : R :=
  let d :=
    distance (INR (height / 2)%nat) (INR (width / 2)%nat) (INR y) (INR x) in
  Rmax 0 (1 - d / (80 / 224 * INR (Nat.min height width))).

Definition round (x : R) : Z := Zfloor (x + 1 / 2).

(** The Colorizer's transfer function and 8-bit conversion. *)
Definition red (v : R) : Z :=
  round (clamp (clamp ((v - 2 / 10) * 2) 0 1 * 255 * (13 / 10)) 0 255).
Definition green (v : R) : Z :=
  round (clamp (clamp (v * (18 / 10)) 0 1 * 255 * (11 / 10)) 0 255).
Definition blue (v : R) : Z :=
  round (clamp (clamp (12 / 10 - v * 2) 0 1 * 255 * (9 / 10)) 0 255).
Definition alpha (v : R) : Z :=
  round (200 * Rmin 1 (IZR (red v + green v + blue v) / 400)).

End Spec.

(** ** The second copy of the component

    The repository holds a later, restructured copy of the same component
    (the second document of [src/src/vite-env.d.ts], which uses the hooks
    of [src/src/hooks]).  Its versions of the formulas are recorded here,
    with the line numbers of that file. *)

Module Restructured.

Definition Math_exp (a : num) : num :=
  match a with
  | Fin x => Fin (exp x)
  | PInf => PInf
  | NInf => Fin 0
  | NaN => NaN
  end.

(** Lines 76-77. *)
Definition confidenceBoost (predictions : list num) : num :=
  let maxConfidence := Math_max predictions in
  max2 (Fin (3 / 10)) (min2 (mul maxConfidence (Fin 2)) (Fin 1)).

(** Lines 94-102. *)
Definition maskWeight (height width : nat) (boost : num) (y x : nat) : num :=
  let centerY := Math_floor (div (of_nat height) (Fin 2)) in
  let centerX := Math_floor (div (of_nat width) (Fin 2)) in
  let radius := div (min2 (of_nat height) (of_nat width)) (Fin 3) in
  let distance :=
    Math_sqrt (add (sq (sub (of_nat y) centerY))
                   (sq (sub (of_nat x) centerX))) in
  mul (Math_exp (div (neg (sq distance))
                     (mul (Fin 2) (sq (div radius (Fin 2))))))
      boost.

(** Lines 161-163 and 183-190: one pixel of the RGBA buffer. *)
Definition redOf (v : num) : num :=
  clipByValue (Fin 0) (Fin 1) (mul (sub v (Fin (2 / 10))) (Fin 2)).

Definition greenOf (v : num) : num :=
  clipByValue (Fin 0) (Fin 1) (mul v (Fin (18 / 10))).

Definition blueOf (v : num) : num :=
  clipByValue (Fin 0) (Fin 1) (sub (Fin (12 / 10)) (mul v (Fin 2))).

Definition gained (gain : num) (c : num) : num :=
  Math_round (min2 (Fin 255) (max2 (Fin 0) (mul (mul c (Fin 255)) gain))).

Definition pixel (v : num) : Z * Z * Z * Z :=
  let r := gained (Fin (13 / 10)) (redOf v) in
  let g := gained (Fin (11 / 10)) (greenOf v) in
  let b := gained (Fin (9 / 10)) (blueOf v) in
  let a :=
    Math_round
      (mul (Fin 200) (min2 (Fin 1) (div (add (add r g) b) (Fin 400)))) in
  (ToUint8Clamp r, ToUint8Clamp g, ToUint8Clamp b, ToUint8Clamp a).

(** Lines 290-299. *)
Definition results (predictionData : list num) : list JankenPrediction :=
  Array_sort byConfidenceDesc
    (imap (fun index c =>
             let normalizedConfidence := max2 (Fin 0) (min2 (Fin 1) c) in
             mkPrediction
               (default ("Unknown-" +:+ pretty index)
                        (JANKEN_LABELS !! index))
               normalizedConfidence)
          (take (length JANKEN_LABELS) predictionData)).

(** Lines 62-65: the parameter check at the head of [generateGradCAM];
    [false] is the [throw]. *)
Definition validInput (predictions : list num) : bool :=
  negb (length predictions =? 0)%nat.

End Restructured.

(** ** Closed forms and inputs used in the statements *)

(** The weight computed by [maskWeight], as a real number. *)
Definition linWeight (height width y x : nat) : R :=
  Rmax 0 (1 - Spec.distance (INR (height / 2)) (INR (width / 2))
                            (INR y) (INR x)
              / (INR (Nat.min height width) / 3)).

(** The value written by [fixedValue], as a real number. *)
Definition fixedWeight (y x : nat) : R :=
  Rmax 0 (1 - Spec.distance 112 112 (INR y) (INR x) / 80).

(** A [[1; h; w; 3]] tensor all of whose pixels have the colour
    [(r, g, b)]. *)
Definition uniformInput (h w : nat) (r g b : R) : Tensor :=
  mkTensor [1%nat; h; w; 3%nat]
           (concat (replicate (h * w) [Fin r; Fin g; Fin b])).

(** A decoded image all of whose bytes are [gray]. *)
Definition solidImage (h w : nat) (gray : Z) : HTMLImage :=
  mkImage h w (replicate (h * w * 3) gray).

(** [m] is the greatest element of [ps]. *)
Definition is_max (m : R) (ps : list R) : Prop :=
  m ∈ ps /\ Forall (fun p => (p <= m)%R) ps.

(** The four writes of lines 399-402 for pixel [i], given what is
    written to each channel. *)
Definition fourWrites (p0 p1 p2 p3 : nat -> Z) (data : list Z) (i : nat)
  : list Z :=
  <[(i * 4 + 3)%nat := p3 i]>
    (<[(i * 4 + 2)%nat := p2 i]>
       (<[(i * 4 + 1)%nat := p1 i]> (<[(i * 4)%nat := p0 i]> data))).

(** Finite values bounded from below, respectively from above. *)
Definition above (lo : R) (v : num) : Prop :=
  exists r, v = Fin r /\ (lo <= r)%R.

Definition below (hi : R) (v : num) : Prop :=
  exists r, v = Fin r /\ (r <= hi)%R.

(** Neither infinity. *)
Definition no_inf (v : num) : Prop := v <> PInf /\ v <> NInf.

(** The mean of the three channels. *)
Definition luminance (r g b : R) : R := ((r + g + b) / 3)%R.

(** The boost of lines 293-294 on finite scores, as a real number. *)
Definition boostOf (ps : list R) : R :=
  match ps with
  | [] => (3 / 10)%R
  | p :: l => Rmax (3 / 10) (foldl Rmax p l * 2)
  end.

(** The bytes lines 371-397 compute for a saliency value [v]. *)
Definition redByte (v : R) : Z :=
  Spec.round
    (Spec.clamp (Spec.clamp ((v - 3 / 10) * (25 / 10)) 0 1 * 255 * (12 / 10))
                0 255).

Definition greenByte (v : R) : Z :=
  Spec.round (Spec.clamp (Spec.clamp (v * (15 / 10)) 0 1 * 255) 0 255).

Definition blueByte (v : R) : Z :=
  Spec.round
    (Spec.clamp (Spec.clamp (1 - v * 2) 0 1 * 255 * (8 / 10)) 0 255).

(** [a] is reported with a finite confidence not below that of [b]. *)
Definition noLess (a b : JankenPrediction) : Prop :=
  exists x y, confidence a = Fin x /\ confidence b = Fin y /\ (y <= x)%R.

(** The scores with the labels of their positions. *)
Definition labelled (predictionData : list num) : list JankenPrediction :=
  zip_with mkPrediction JANKEN_LABELS predictionData.

(** The 224 x 224 map of the weights [linWeight]. *)
Definition linearMaskMap : list num :=
  map (fun i => Fin (linWeight 224 224 (i / 224) (i mod 224)))
      (seq 0 (224 * 224)).

(** The 224 x 224 fallback map as the specification words it. *)
Definition specFallbackMap : list num :=
  map (fun i => Fin (Spec.fallback 224 224 (i / 224) (i mod 224)))
      (seq 0 (224 * 224)).

(** Three scores with a confident first label, and the gray tensor used
    in the examples. *)
Definition confident : list R := [9 / 10; 5 / 100; 5 / 100]%R.

Definition grayInput : Tensor :=
  uniformInput 224 224 (1 / 2) (1 / 2) (1 / 2).

(** [m] is the least element of [ps]. *)
Definition is_min (m : R) (ps : list R) : Prop :=
  m ∈ ps /\ Forall (fun p => (m <= p)%R) ps.

(** A finite value between two bounds. *)
Definition between (lo hi : R) (v : num) : Prop :=
  exists r, v = Fin r /\ (lo <= r <= hi)%R.

(** A [[1; h; w; 3]] tensor whose pixel [i] (row by row) has the colour
    [px i]. *)
Definition pixelTensor (h w : nat) (px : nat -> R * R * R) : Tensor :=
  mkTensor [1%nat; h; w; 3%nat]
           (concat (map (fun i => [Fin (px i).1.1; Fin (px i).1.2;
                                   Fin (px i).2])
                        (seq 0 (h * w)))).

(** The luminance of pixel [i] of such a tensor. *)
Definition lum (px : nat -> R * R * R) (i : nat) : R :=
  luminance (px i).1.1 (px i).1.2 (px i).2.

(** An image that is white at its first pixel and black elsewhere. *)
Definition cornerLit (i : nat) : R * R * R :=
  if (i =? 0)%nat then (1, 1, 1)%R else (0, 0, 0)%R.

(** ** [TFLiteModelLoader] (src/src/App.tsx, lines 43-92; the same code
    in src/src/hooks/useModelManagement.ts, lines 9-66) *)

(** [s.includes(needle)] on the character codes of two strings. *)
Fixpoint startsWith (needle l : list Z) : bool :=
  match needle, l with
  | [], _ => true
  | _ :: _, [] => false
  | a :: needle', b :: l' => (a =? b)%Z && startsWith needle' l'
  end.

Fixpoint includes (needle l : list Z) : bool :=
  startsWith needle l
  || match l with
     | [] => false
     | _ :: l' => includes needle l'
     end.

(** The character codes of ['TFL']. *)
Definition TFL : list Z := [84; 70; 76]%Z.

(** Lines 49-54: the check of the first 8 bytes; [false] is the
    [throw]. *)
Definition acceptsHeader (uint8Array : list Z) : bool :=
  let header := take 8 uint8Array in
  includes TFL header.

(** Lines 62-77: the scores the substitute model returns.  [random k] is
    what [Math.random()] gives when it is called for position [k].  The
    quotients are exact here; [tf.tensor1d] stores them as float32. *)
Definition handLikeIndices : list nat := [414; 415; 759]%nat.

(** A number is truthy unless it is 0 or [NaN]. *)
Definition truthy (a : num) : bool :=
  match a with
  | Fin x => if Req_dec_T x 0 then false else true
  | NaN => false
  | PInf | NInf => true
  end.

(** [a || b], where [a] is an array element, [undefined] when absent. *)
Definition or_else (a : option num) (b : num) : num :=
  match a with
  | Some v => if truthy v then v else b
  | None => b
  end.

Definition jankenScores (data : list num) (random : nat -> num) : list num :=
  imap (fun k idx => or_else (data !! idx) (mul (random k) (Fin (1 / 10))))
       handLikeIndices.

Definition predictScores (data : list num) (random : nat -> num) : list num :=
  let scores := jankenScores data random in
  let total := sum scores in
  map (fun score => div score total) scores.

(** ** [useDebugInfo] (src/src/hooks/useModelManagement.ts, lines 74-93) *)

(** [l.slice(start)]: a negative [start] counts from the end. *)
Definition Array_slice {A : Type} (start : Z) (l : list A) : list A :=
  let len := Z.of_nat (length l) in
  let k := if (start <? 0)%Z then Z.max (len + start) 0 else Z.min start len in
  drop (Z.to_nat k) l.

Definition debugLine (timestamp message : string) : string :=
  timestamp +:+ ": " +:+ message.

(** Line 83, for the time stamp [timestamp]. *)
Definition addDebugInfo (maxItems : Z) (prev : list string)
  (timestamp message : string) : list string :=
  let debugMessage := debugLine timestamp message in
  Array_slice (- (maxItems - 1)) prev ++ [debugMessage].

(** The buffer after a sequence of calls, starting from the empty
    buffer of line 75. *)
Definition debugLog (maxItems : Z) (calls : list (string * string))
  : list string :=
  foldl (fun prev c => addDebugInfo maxItems prev c.1 c.2) [] calls.

(** A data entry the substitute model can use: absent, [NaN], or a
    finite number that is not negative. *)
Definition usable (o : option num) : Prop :=
  o = None \/ o = Some NaN \/ exists x, o = Some (Fin x) /\ (0 <= x)%R.

(** ** The pipeline of the restructured copy (second document of
    src/src/vite-env.d.ts) *)

Module RestructuredPipeline.

(** Lines 92-105: the Gaussian mask, written by two nested loops.  As
    in the first copy, the float32 storage of the buffer is not
    modelled. *)
Definition centerMask (height width : nat) (boost : num) : list num :=
  foldl (fun buf y =>
           foldl (fun buf x =>
                    let weight :=
                      Restructured.maskWeight height width boost y x in
                    buffer_set width weight y x buf)
                 buf (seq 0 width))
        (tf_buffer height width) (seq 0 height).

(** Lines 67-112: the raw heat map. *)
Definition heatmap (inputTensor : Tensor) (predictions : list num)
  : option Tensor :=
  squeezed ← squeeze0 inputTensor;
  let boost := Restructured.confidenceBoost predictions in
  grayscale ← tf_mean_axis2 squeezed;
  let normalized := tf_div grayscale (tf_max grayscale) in
  match shape normalized with
  | [height; width] =>
      let centerWeights :=
        mkTensor [height; width] (centerMask height width boost) in
      Some (tf_mul normalized centerWeights)
  | _ => None
  end.

(** Lines 67-154: the saliency map, the raw map normalised as in the
    first copy. *)
Definition saliencyMap (inputTensor : Tensor) (predictions : list num)
  : option Tensor :=
  hm ← heatmap inputTensor predictions;
  normalizedHeatmap hm.

(** Lines 157-166 and 179. *)
Definition colorArray (vs : list num) : list num :=
  map (fun c => mul c (Fin 255))
      (stack3 (map Restructured.redOf vs) (map Restructured.greenOf vs)
              (map Restructured.blueOf vs)).

(** Lines 178-191: the RGBA buffer with its alpha per pixel.  The
    arithmetic of the loop is that of doubles in the source and exact
    here. *)
Definition alphaOf (r g b : num) : num :=
  Math_round (mul (Fin 200) (min2 (Fin 1) (div (add (add r g) b) (Fin 400)))).

Definition imageData (colors : list num) : list Z :=
  foldl (fun data i =>
           let r := byteOf (mul (element colors (i * 3)) (Fin (13 / 10))) in
           let g :=
             byteOf (mul (element colors (i * 3 + 1)) (Fin (11 / 10))) in
           let b :=
             byteOf (mul (element colors (i * 3 + 2)) (Fin (9 / 10))) in
           <[(i * 4 + 3)%nat := ToUint8Clamp (alphaOf r g b)]>
             (<[(i * 4 + 2)%nat := ToUint8Clamp b]>
                (<[(i * 4 + 1)%nat := ToUint8Clamp g]>
                   (<[(i * 4)%nat := ToUint8Clamp r]> data))))
        (replicate (224 * 224 * 4) 0%Z)
        (seq 0 ((length colors + 2) / 3)).

(** Lines 203-226: the image returned when the generation throws.  The
    loop runs over [i = 0, 4, 8, ...] below the length of the buffer. *)
Definition markerDistance (i : nat) : num :=
  let pixelIndex := (i / 4)%nat in
  let y := (pixelIndex / 224)%nat in
  let x := (pixelIndex mod 224)%nat in
  Math_sqrt (add (sq (sub (of_nat x) (Fin 112)))
                 (sq (sub (of_nat y) (Fin 112)))).

Definition fallbackImageData : list Z :=
  foldl (fun data i =>
           if ltb (markerDistance i) (Fin 50) then
             <[(i + 3)%nat := 100%Z]>
               (<[(i + 2)%nat := 0%Z]>
                  (<[(i + 1)%nat := 0%Z]> (<[i := 255%Z]> data)))
           else data)
        (replicate (224 * 224 * 4) 0%Z)
        (map (fun k => (k * 4)%nat) (seq 0 (224 * 224))).

(** Lines 58-232: the whole function.  The check of lines 62-65 and
    every exception of the generation end in the [catch], which returns
    the marker image.  (A 2D canvas context is taken to exist; without
    one the function returns [null].) *)
Definition generateGradCAM (inputTensor : Tensor) (predictions : list num)
  : option (list Z) :=
  let attempt :=
    if Restructured.validInput predictions then
      hm ← heatmap inputTensor predictions;
      normalized ← normalizedHeatmap hm;
      Some (imageData (colorArray (values normalized)))
    else None in
  match attempt with
  | Some data => Some data
  | None => Some fallbackImageData
  end.

(** Lines 303 and 312: [results[0]?.confidence || 0], and the test of
    the low confidence warning. *)
Definition topConfidence (rs : list JankenPrediction) : num :=
  or_else (confidence <$> head rs) (Fin 0).

Definition lowConfidence (predictionData : list num) : bool :=
  ltb (topConfidence (Restructured.results predictionData)) (Fin (1 / 2)).

End RestructuredPipeline.

(** The Gaussian of the mask, without the boost. *)
Definition gauss (h w y x : nat) : R := Spec.maskWeight h w y x 1.

(** The disc of the marker image, in integers. *)
Definition insideMarker (y x : nat) : bool :=
  ((Z.of_nat x - 112) * (Z.of_nat x - 112)
   + (Z.of_nat y - 112) * (Z.of_nat y - 112) <? 2500)%Z.

(** Clamping a score to [0, 1]. *)
Definition unit_clamp (c : R) : R := Rmax 0 (Rmin 1 c).

(** * Properties *)

(** ** Arithmetic on [num] *)

(** Case analysis on the comparisons of reals a goal branches on,
    innermost first. *)
Ltac no_dec t :=
  lazymatch t with
  | context [Rle_dec _ _] => fail
  | context [Rlt_dec _ _] => fail
  | context [Req_dec_T _ _] => fail
  | _ => idtac
  end.

Ltac case_R :=
  repeat match goal with
         | |- context [Rlt_dec ?a ?b] =>
             no_dec a; no_dec b; destruct (Rlt_dec a b)
         | |- context [Rle_dec ?a ?b] =>
             no_dec a; no_dec b; destruct (Rle_dec a b)
         | |- context [Req_dec_T ?a ?b] =>
             no_dec a; no_dec b; destruct (Req_dec_T a b)
         end.

Section NumFacts.

Local Open Scope R_scope.

Lemma max2_Fin (a b : R) : max2 (Fin a) (Fin b) = Fin (Rmax a b).
Proof.
  unfold max2, Rmax; simpl.
  destruct (Rlt_dec a b), (Rle_dec a b); try reflexivity; f_equal; lra.
Qed.

Lemma min2_Fin (a b : R) : min2 (Fin a) (Fin b) = Fin (Rmin a b).
Proof.
  unfold min2, Rmin; simpl.
  destruct (Rlt_dec b a), (Rle_dec a b); try reflexivity; f_equal; lra.
Qed.

Lemma div_Fin (a b : R) : b <> 0 -> div (Fin a) (Fin b) = Fin (a / b).
Proof. intros Hb; simpl. destruct (Req_dec_T b 0); [contradiction | reflexivity]. Qed.

Lemma div_zero_zero : div (Fin 0) (Fin 0) = NaN.
Proof.
  simpl. destruct (Req_dec_T 0 0) as [_ | H]; [| lra].
  unfold inf_of_sign. destruct (Rlt_dec 0 0); [lra | reflexivity].
Qed.

Lemma sqrt_Fin (a : R) : 0 <= a -> Math_sqrt (Fin a) = Fin (sqrt a).
Proof. intros Ha; simpl. destruct (Rlt_dec a 0); [lra | reflexivity]. Qed.

Lemma strict_eq_Fin_false (a b : R) : a <> b -> strict_eq (Fin a) (Fin b) = false.
Proof. intros H; simpl. destruct (Req_dec_T a b); [contradiction | reflexivity]. Qed.

Lemma clip_Fin (v : R) :
  clipByValue (Fin 0) (Fin 1) (Fin v) = Fin (Spec.clamp v 0 1).
Proof.
  unfold clipByValue, Spec.clamp, Rmax, Rmin; simpl.
  destruct (Rlt_dec 1 v), (Rlt_dec v 0), (Rle_dec v 1);
    try lra; destruct (Rle_dec 0 1); try lra;
    try destruct (Rle_dec 0 v); try reflexivity; f_equal; lra.
Qed.

Lemma max2_NInf_l (a : num) : max2 NInf a = a.
Proof. destruct a; reflexivity. Qed.

Lemma min2_PInf_l (a : num) : min2 PInf a = a.
Proof. destruct a; reflexivity. Qed.

Lemma foldl_max2_Fin (a : R) (l : list R) :
  foldl max2 (Fin a) (Fin <$> l) = Fin (foldl Rmax a l).
Proof.
  revert a; induction l as [| p l IH]; intros a; simpl; [reflexivity |].
  rewrite max2_Fin. apply IH.
Qed.

Lemma foldl_Rmax_ge (a : R) (l : list R) :
  a <= foldl Rmax a l /\ Forall (fun p => p <= foldl Rmax a l) l.
Proof.
  revert a; induction l as [| p l IH]; intros a; simpl.
  - split; [lra | constructor].
  - destruct (IH (Rmax a p)) as [H1 H2].
    pose proof (Rmax_l a p). pose proof (Rmax_r a p).
    split; [lra |]. constructor; [lra | exact H2].
Qed.

Lemma foldl_Rmax_in (a : R) (l : list R) :
  foldl Rmax a l = a \/ foldl Rmax a l ∈ l.
Proof.
  revert a; induction l as [| p l IH]; intros a; simpl; [left; reflexivity |].
  destruct (IH (Rmax a p)) as [H | H].
  - rewrite H. unfold Rmax. destruct (Rle_dec a p).
    + right; left.
    + left; reflexivity.
  - right; right; exact H.
Qed.

(** [Math.max] of a non-empty vector of finite scores is its greatest
    element. *)
Lemma Math_max_is_max (m : R) (ps : list R) :
  is_max m ps -> Math_max (Fin <$> ps) = Fin m.
Proof.
  intros [Hin Hall]. destruct ps as [| p ps].
  - inversion Hin.
  - unfold Math_max; simpl. rewrite max2_NInf_l, foldl_max2_Fin. f_equal.
    destruct (foldl_Rmax_ge p ps) as [H1 H2].
    assert (Hle : foldl Rmax p ps <= m).
    { destruct (foldl_Rmax_in p ps) as [-> | H].
      - inversion Hall; assumption.
      - rewrite Forall_forall in Hall. apply Hall. right; exact H. }
    assert (Hge : m <= foldl Rmax p ps).
    { apply elem_of_cons in Hin as [-> | Hin]; [exact H1 |].
      rewrite Forall_forall in H2. apply H2; exact Hin. }
    lra.
Qed.

(** Every non-empty vector has a greatest element. *)
Lemma is_max_exists (ps : list R) : ps <> [] -> exists m, is_max m ps.
Proof.
  destruct ps as [| p ps]; [congruence | intros _].
  exists (foldl Rmax p ps).
  destruct (foldl_Rmax_ge p ps) as [H1 H2]. split.
  - destruct (foldl_Rmax_in p ps) as [-> | H]; [left | right; exact H].
  - constructor; assumption.
Qed.

(** The boost of lines 293-294 on finite scores. *)
Lemma confidenceBoost_Fin (m : R) (ps : list R) :
  is_max m ps -> confidenceBoost (Fin <$> ps) = Fin (Rmax (3 / 10) (m * 2)).
Proof.
  intros H. unfold confidenceBoost. rewrite (Math_max_is_max m ps H).
  simpl mul. apply max2_Fin.
Qed.

Lemma confidenceBoost_nil : confidenceBoost [] = Fin (3 / 10).
Proof.
  unfold confidenceBoost, Math_max; simpl.
  unfold inf_of_sign. case_R; try lra; reflexivity.
Qed.

(** Whatever the finite scores, the boost is a finite number not below
    the floor. *)
Lemma confidenceBoost_floor (ps : list R) :
  exists b, confidenceBoost (Fin <$> ps) = Fin b /\ 3 / 10 <= b.
Proof.
  destruct ps as [| p ps].
  - exists (3 / 10). split; [apply confidenceBoost_nil | lra].
  - destruct (is_max_exists (p :: ps)) as [m Hm]; [congruence |].
    exists (Rmax (3 / 10) (m * 2)). split.
    + apply confidenceBoost_Fin; exact Hm.
    + apply Rmax_l.
Qed.

End NumFacts.

(** ** Extremes of a list of numbers *)

Section Extremes.

Local Open Scope R_scope.

Lemma foldl_min2_above (lo : R) (l : list num) (acc : num) :
  acc = PInf \/ above lo acc ->
  Forall (above lo) l ->
  (foldl min2 acc l = PInf \/ above lo (foldl min2 acc l)) /\
  (acc = Fin lo \/ Fin lo ∈ l -> foldl min2 acc l = Fin lo).
Proof.
  revert acc; induction l as [| v l IH]; intros acc Hacc Hall; simpl.
  - split; [exact Hacc |]. intros [H | H]; [exact H | inversion H].
  - inversion Hall as [| ? ? [r [-> Hr]] Hl]; subst.
    assert (Hstep : above lo (min2 acc (Fin r))).
    { destruct Hacc as [-> | [a [-> Ha]]].
      - exists r; split; [reflexivity | exact Hr].
      - rewrite min2_Fin. exists (Rmin a r); split; [reflexivity |].
        apply Rmin_glb; assumption. }
    destruct (IH (min2 acc (Fin r)) (or_intror Hstep) Hl) as [H1 H2].
    split; [exact H1 |]. intros Hhit. apply H2.
    destruct Hhit as [-> | Hin].
    + left. rewrite min2_Fin. f_equal. apply Rmin_left; exact Hr.
    + apply elem_of_cons in Hin as [Heq | Hin]; [| right; exact Hin].
      left. inversion Heq; subst r.
      destruct Hacc as [-> | [a [-> Ha]]]; [reflexivity |].
      rewrite min2_Fin. f_equal. apply Rmin_right; exact Ha.
Qed.

Lemma Math_min_attained (lo : R) (l : list num) :
  Fin lo ∈ l -> Forall (above lo) l -> Math_min l = Fin lo.
Proof.
  intros Hin Hall. unfold Math_min.
  apply (foldl_min2_above lo l PInf); [left; reflexivity | exact Hall |].
  right; exact Hin.
Qed.

Lemma foldl_max2_below (hi : R) (l : list num) (acc : num) :
  acc = NInf \/ below hi acc ->
  Forall (below hi) l ->
  (foldl max2 acc l = NInf \/ below hi (foldl max2 acc l)) /\
  (acc = Fin hi \/ Fin hi ∈ l -> foldl max2 acc l = Fin hi).
Proof.
  revert acc; induction l as [| v l IH]; intros acc Hacc Hall; simpl.
  - split; [exact Hacc |]. intros [H | H]; [exact H | inversion H].
  - inversion Hall as [| ? ? [r [-> Hr]] Hl]; subst.
    assert (Hstep : below hi (max2 acc (Fin r))).
    { destruct Hacc as [-> | [a [-> Ha]]].
      - exists r; split; [reflexivity | exact Hr].
      - rewrite max2_Fin. exists (Rmax a r); split; [reflexivity |].
        apply Rmax_lub; assumption. }
    destruct (IH (max2 acc (Fin r)) (or_intror Hstep) Hl) as [H1 H2].
    split; [exact H1 |]. intros Hhit. apply H2.
    destruct Hhit as [-> | Hin].
    + left. rewrite max2_Fin. f_equal. apply Rmax_left; exact Hr.
    + apply elem_of_cons in Hin as [Heq | Hin]; [| right; exact Hin].
      left. inversion Heq; subst r.
      destruct Hacc as [-> | [a [-> Ha]]]; [reflexivity |].
      rewrite max2_Fin. f_equal. apply Rmax_right; exact Ha.
Qed.

Lemma Math_max_attained (hi : R) (l : list num) :
  Fin hi ∈ l -> Forall (below hi) l -> Math_max l = Fin hi.
Proof.
  intros Hin Hall. unfold Math_max.
  apply (foldl_max2_below hi l NInf); [left; reflexivity | exact Hall |].
  right; exact Hin.
Qed.

Lemma Math_min_NaN (n : nat) : Math_min (replicate (S n) NaN) = NaN.
Proof.
  unfold Math_min; simpl. induction n as [| n IH]; simpl; [reflexivity | exact IH].
Qed.

Lemma Math_max_NaN (n : nat) : Math_max (replicate (S n) NaN) = NaN.
Proof.
  unfold Math_max; simpl. induction n as [| n IH]; simpl; [reflexivity | exact IH].
Qed.

End Extremes.

(** ** Buffers filled by loops *)

Section Loops.

Context {A : Type}.

Lemma row_fill_length (g : nat -> A) (base a n : nat) (buf : list A) :
  length (foldl (fun buf x => <[(base + x)%nat := g x]> buf) buf (seq a n))
  = length buf.
Proof.
  revert a buf; induction n as [| n IH]; intros a buf; simpl; [reflexivity |].
  rewrite IH. apply length_insert.
Qed.

Lemma row_fill_lookup (g : nat -> A) (base a n : nat) (buf : list A) (i : nat) :
  foldl (fun buf x => <[(base + x)%nat := g x]> buf) buf (seq a n) !! i =
  if decide ((base + a <= i < base + a + n)%nat /\ (i < length buf)%nat)
  then Some (g (i - base)%nat) else buf !! i.
Proof.
  revert a buf; induction n as [| n IH]; intros a buf; simpl.
  - case_decide; [lia | reflexivity].
  - rewrite IH, length_insert, list_lookup_insert.
    repeat case_decide; try lia; try reflexivity.
    do 2 f_equal. lia.
Qed.

Lemma grid_fill_length (f : nat -> nat -> A) (w a n : nat) (buf : list A) :
  length (foldl (fun buf y =>
                   foldl (fun buf x => <[(y * w + x)%nat := f y x]> buf)
                         buf (seq 0 w))
                buf (seq a n))
  = length buf.
Proof.
  revert a buf; induction n as [| n IH]; intros a buf; simpl; [reflexivity |].
  rewrite IH. apply row_fill_length.
Qed.

Lemma grid_fill_lookup (f : nat -> nat -> A) (w a n : nat) (buf : list A)
  (i : nat) :
  foldl (fun buf y =>
           foldl (fun buf x => <[(y * w + x)%nat := f y x]> buf)
                 buf (seq 0 w))
        buf (seq a n) !! i =
  if decide ((a * w <= i < (a + n) * w)%nat /\ (i < length buf)%nat)
  then Some (f (i / w)%nat (i mod w)%nat) else buf !! i.
Proof.
  revert a buf; induction n as [| n IH]; intros a buf; simpl.
  - case_decide; [lia | reflexivity].
  - rewrite IH, row_fill_length, row_fill_lookup.
    repeat case_decide; try lia; try reflexivity.
    assert (Hw : (0 < w)%nat) by lia.
    assert (Hr : (i - a * w < w)%nat) by lia.
    assert (Hi : (i = w * a + (i - a * w))%nat) by lia.
    rewrite <- (Nat.div_unique i w a (i - a * w)%nat Hr Hi).
    rewrite <- (Nat.mod_unique i w a (i - a * w)%nat Hr Hi).
    reflexivity.
Qed.

End Loops.

Lemma cell_div (w y x : nat) : (x < w)%nat -> ((y * w + x) / w)%nat = y.
Proof. intros H. symmetry. apply (Nat.div_unique _ w y x); lia. Qed.

Lemma cell_mod (w y x : nat) : (x < w)%nat -> ((y * w + x) mod w)%nat = x.
Proof. intros H. symmetry. apply (Nat.mod_unique _ w y x); lia. Qed.

Lemma centerMask_length (h w : nat) (b : num) :
  length (centerMask h w b) = (h * w)%nat.
Proof.
  unfold centerMask, buffer_set, tf_buffer.
  rewrite (grid_fill_length (fun y x => mul (maskWeight h w y x) b)).
  apply length_replicate.
Qed.

Lemma centerMask_lookup (h w : nat) (b : num) (y x : nat) :
  (y < h)%nat -> (x < w)%nat ->
  centerMask h w b !! (y * w + x)%nat = Some (mul (maskWeight h w y x) b).
Proof.
  intros Hy Hx. unfold centerMask, buffer_set, tf_buffer.
  rewrite (grid_fill_lookup (fun y x => mul (maskWeight h w y x) b)).
  rewrite length_replicate. case_decide as Hc.
  - rewrite cell_div, cell_mod by exact Hx. reflexivity.
  - exfalso. apply Hc. nia.
Qed.

Lemma fixedPattern_length : length fixedPattern = (224 * 224)%nat.
Proof.
  unfold fixedPattern, buffer_set, tf_buffer.
  rewrite (grid_fill_length (fun y x => fixedValue y x)).
  apply length_replicate.
Qed.

Lemma fixedPattern_lookup (y x : nat) :
  (y < 224)%nat -> (x < 224)%nat ->
  fixedPattern !! (y * 224 + x)%nat = Some (fixedValue y x).
Proof.
  intros Hy Hx. unfold fixedPattern, buffer_set, tf_buffer.
  rewrite (grid_fill_lookup (fun y x => fixedValue y x)).
  rewrite length_replicate. case_decide as Hc.
  - rewrite cell_div, cell_mod by exact Hx. reflexivity.
  - exfalso. apply Hc. lia.
Qed.

(** ** The mask in closed form *)

Section MaskFacts.

Local Open Scope R_scope.

Lemma Zfloor_half (n : nat) : Zfloor (INR n / 2) = Z.of_nat (n / 2).
Proof.
  apply Zfloor_eq. rewrite <- INR_IZR_INZ.
  pose proof (Nat.div_mod_eq n 2) as Hn.
  pose proof (Nat.mod_upper_bound n 2 ltac:(lia)) as Hr.
  assert (HR : INR n = 2 * INR (n / 2) + INR (n mod 2)).
  { rewrite Hn at 1. rewrite plus_INR, mult_INR. simpl. lra. }
  pose proof (pos_INR (n mod 2)) as H0.
  assert (H1 : INR (n mod 2) <= 1).
  { change 1 with (INR 1). apply le_INR. lia. }
  lra.
Qed.

Lemma Rmin_INR (a b : nat) : Rmin (INR a) (INR b) = INR (Nat.min a b).
Proof.
  destruct (Nat.le_ge_cases a b) as [H | H].
  - rewrite Nat.min_l by exact H. apply Rmin_left, le_INR, H.
  - rewrite Nat.min_r by exact H. apply Rmin_right, le_INR, H.
Qed.

Lemma centre_Fin (n : nat) :
  Math_floor (div (of_nat n) (Fin 2)) = Fin (INR (n / 2)).
Proof.
  unfold of_nat. rewrite div_Fin by lra. simpl.
  rewrite Zfloor_half, INR_IZR_INZ. reflexivity.
Qed.

Lemma radius_Fin (h w : nat) :
  div (min2 (of_nat h) (of_nat w)) (Fin 3) = Fin (INR (Nat.min h w) / 3).
Proof.
  unfold of_nat. rewrite min2_Fin, div_Fin by lra. rewrite Rmin_INR.
  reflexivity.
Qed.

Lemma distance_Fin (cy cx : R) (y x : nat) :
  Math_sqrt (add (sq (sub (of_nat y) (Fin cy))) (sq (sub (of_nat x) (Fin cx))))
  = Fin (Spec.distance cy cx (INR y) (INR x)).
Proof.
  unfold of_nat, sq, sub; simpl neg; simpl add; simpl mul; simpl add.
  rewrite sqrt_Fin by (apply Rplus_le_le_0_compat; apply Rle_0_sqr).
  reflexivity.
Qed.

Lemma distance_nonneg (cy cx y x : R) : 0 <= Spec.distance cy cx y x.
Proof. apply sqrt_pos. Qed.

(** Lines 311-318 compute the linear falloff [linWeight]. *)
Lemma maskWeight_Fin (h w y x : nat) :
  (0 < h)%nat -> (0 < w)%nat ->
  maskWeight h w y x = Fin (linWeight h w y x).
Proof.
  intros Hh Hw. unfold maskWeight.
  rewrite !centre_Fin, radius_Fin, distance_Fin.
  assert (Hr : INR (Nat.min h w) / 3 <> 0).
  { assert (0 < INR (Nat.min h w)) by (apply lt_0_INR; lia). lra. }
  rewrite div_Fin by exact Hr.
  unfold sub; simpl neg; simpl add. rewrite max2_Fin. reflexivity.
Qed.

Lemma fixedValue_Fin (y x : nat) : fixedValue y x = Fin (fixedWeight y x).
Proof.
  unfold fixedValue. rewrite distance_Fin, div_Fin by lra.
  unfold sub; simpl neg; simpl add. rewrite max2_Fin. reflexivity.
Qed.

Lemma linWeight_bounds (h w y x : nat) : 0 <= linWeight h w y x <= 1.
Proof.
  unfold linWeight. split; [apply Rmax_l |].
  apply Rmax_lub; [lra |].
  pose proof (distance_nonneg (INR (h / 2)) (INR (w / 2)) (INR y) (INR x)).
  pose proof (pos_INR (Nat.min h w)) as Hm.
  assert (0 <= Spec.distance (INR (h / 2)) (INR (w / 2)) (INR y) (INR x)
               / (INR (Nat.min h w) / 3)).
  { destruct (Req_dec_T (INR (Nat.min h w)) 0) as [-> | Hne].
    - unfold Rdiv at 1. replace (0 / 3) with 0 by lra. rewrite Rinv_0. lra.
    - unfold Rdiv at 1. apply Rmult_le_pos; [assumption |].
      left. apply Rinv_0_lt_compat. lra. }
  lra.
Qed.

End MaskFacts.

(** ** Bilinear resizing *)

Section Resize.

Local Open Scope R_scope.

Lemma lerp_same (a : num) (f : R) : no_inf a -> lerp a a (Fin f) = a.
Proof.
  intros [H1 H2]. destruct a as [v | | |]; try congruence; [| reflexivity].
  unfold lerp, sub; simpl. f_equal. ring.
Qed.

Lemma Fin_no_inf (v : R) : no_inf (Fin v).
Proof. split; discriminate. Qed.

Lemma NaN_no_inf : no_inf NaN.
Proof. split; discriminate. Qed.

Lemma above_no_inf (lo : R) (v : num) : above lo v -> no_inf v.
Proof. intros [r [-> _]]. apply Fin_no_inf. Qed.

Lemma ceil_div_mul (r h : nat) : (0 < h)%nat -> ceil_div (r * h) h = r.
Proof.
  intros Hh. unfold ceil_div.
  rewrite Nat.div_mul by lia. rewrite Nat.Div0.mod_mul. simpl. lia.
Qed.

(** Cell [idx] of a [[h; w; d]] tensor: its row, column and channel. *)
Lemma cell_split (h w d idx : nat) :
  (idx < h * w * d)%nat ->
  (idx / d / w < h)%nat /\ ((idx / d) mod w < w)%nat /\ (idx mod d < d)%nat /\
  ((idx / d / w * w + (idx / d) mod w) * d + idx mod d = idx)%nat.
Proof.
  intros Hi.
  assert (Hd : (0 < d)%nat) by (destruct d; lia).
  assert (Hw : (0 < w)%nat) by (destruct w; lia).
  assert (H1 : (idx / d < h * w)%nat)
    by (apply Nat.Div0.div_lt_upper_bound; lia).
  assert (H2 : (idx / d / w < h)%nat)
    by (apply Nat.Div0.div_lt_upper_bound; lia).
  pose proof (Nat.mod_upper_bound (idx / d) w ltac:(lia)).
  pose proof (Nat.mod_upper_bound idx d ltac:(lia)).
  pose proof (Nat.div_mod_eq (idx / d) w).
  pose proof (Nat.div_mod_eq idx d).
  repeat split; try assumption. nia.
Qed.

(** Resizing to the size a map already has changes nothing, as long as
    the map holds no infinity. *)
Lemma resizeBilinear_same (h w d : nat) (vs : list num) :
  length vs = (h * w * d)%nat -> Forall no_inf vs ->
  resizeBilinear (mkTensor [h; w; d] vs) h w = Some (mkTensor [h; w; d] vs).
Proof.
  intros Hlen Hfin. unfold resizeBilinear; simpl. do 2 f_equal.
  apply list_eq; intros i. rewrite list_lookup_fmap.
  destruct (decide (i < h * w * d)%nat) as [Hi | Hi].
  - rewrite lookup_seq_lt by exact Hi. simpl.
    destruct (cell_split h w d i Hi) as (Hr & Hc & Hd & Hidx).
    assert (Hh : (0 < h)%nat) by lia. assert (Hw : (0 < w)%nat) by lia.
    rewrite !Nat.div_mul by lia. rewrite !ceil_div_mul by lia.
    rewrite !Nat.min_r by lia. rewrite Hidx.
    destruct (lookup_lt_is_Some_2 vs i ltac:(lia)) as [v Hv].
    rewrite Hv; simpl.
    assert (Hn : no_inf v).
    { rewrite Forall_lookup in Hfin. exact (Hfin i v Hv). }
    rewrite !(lerp_same v) by exact Hn. reflexivity.
  - rewrite (proj2 (lookup_ge_None (seq 0 (h * w * d)) i))
      by (rewrite length_seq; lia).
    symmetry. apply lookup_ge_None. lia.
Qed.

Lemma resizeBilinear_const (H W D h w : nat) (c : R) :
  (0 < H)%nat -> (0 < W)%nat ->
  resizeBilinear (mkTensor [H; W; D] (replicate (H * W * D) (Fin c))) h w
  = Some (mkTensor [h; w; D] (replicate (h * w * D) (Fin c))).
Proof.
  intros HH HW. unfold resizeBilinear; simpl. do 2 f_equal.
  apply list_eq; intros i. rewrite list_lookup_fmap.
  destruct (decide (i < h * w * D)%nat) as [Hi | Hi].
  - rewrite lookup_seq_lt by exact Hi. simpl.
    rewrite (lookup_replicate_2 (h * w * D) _ i Hi).
    destruct (cell_split h w D i Hi) as (Hr & Hc & Hd & _).
    assert (HX : forall rr cc,
               (rr < H)%nat -> (cc < W)%nat ->
               default NaN (replicate (H * W * D) (Fin c)
                              !! ((rr * W + cc) * D + i mod D)%nat) = Fin c).
    { intros rr cc Hrr Hcc. rewrite lookup_replicate_2; [reflexivity |].
      assert (Ha : (rr * W + cc + 1 <= H * W)%nat) by nia.
      pose proof (Nat.mul_le_mono_r _ _ D Ha). lia. }
    assert (Hrf : (i / D / w * H / h < H)%nat)
      by (apply Nat.Div0.div_lt_upper_bound; nia).
    assert (Hcf : ((i / D) mod w * W / w < W)%nat)
      by (apply Nat.Div0.div_lt_upper_bound; nia).
    rewrite !HX by lia. rewrite !(lerp_same (Fin c)) by apply Fin_no_inf. reflexivity.
  - rewrite (proj2 (lookup_ge_None (seq 0 (h * w * D)) i))
      by (rewrite length_seq; lia).
    symmetry. apply lookup_ge_None. rewrite length_replicate. lia.
Qed.

Lemma resizeBilinear_is_Some (t : Tensor) (h w : nat) :
  is_Some (resizeBilinear t h w) <-> exists H W D, shape t = [H; W; D].
Proof.
  unfold resizeBilinear. destruct (shape t) as [| H [| W [| D [| ? ?]]]];
    split; intros Hs; try (destruct Hs as [? Hs]; discriminate);
    try (destruct Hs as (? & ? & ? & Hs); discriminate).
  - exists H, W, D; reflexivity.
  - eexists; reflexivity.
Qed.

End Resize.

(** ** The luminance of a uniform image *)

Section Uniform.

Local Open Scope R_scope.

Lemma chunkMeans_uniform (n : nat) (px : list num) :
  chunkMeans (length px) n (concat (replicate n px))
  = replicate n (div (sum px) (of_nat (length px))).
Proof.
  induction n as [| n IH]; simpl; [reflexivity |].
  rewrite take_app_length, drop_app_length, IH. reflexivity.
Qed.

Lemma mean_rgb (r g b : R) :
  div (sum [Fin r; Fin g; Fin b]) (of_nat 3) = Fin (luminance r g b).
Proof.
  unfold sum, of_nat; simpl foldl. rewrite div_Fin by (simpl; lra).
  f_equal. unfold luminance. simpl. field.
Qed.

Lemma Math_max_replicate (n : nat) (v : R) :
  Math_max (replicate (S n) (Fin v)) = Fin v.
Proof.
  apply Math_max_attained.
  - left.
  - apply Forall_replicate. exists v; split; [reflexivity | lra].
Qed.

End Uniform.

Lemma map_fmap {A B : Type} (f : A -> B) (l : list A) : map f l = f <$> l.
Proof. reflexivity. Qed.

(** ** Shapes: when the pipeline returns a result *)

Section Shapes.

Lemma heatmap_shape (t hm : Tensor) (preds : list num) :
  heatmap t preds = Some hm ->
  exists h w c, shape t = [1%nat; h; w; c] /\ shape hm = [h; w].
Proof.
  unfold heatmap, squeeze0, tf_mean_axis2.
  destruct (shape t) as [| n s] eqn:Hs; [discriminate |].
  destruct n as [| [| n]]; try discriminate.
  cbn [mbind option_bind shape values].
  destruct s as [| h [| w [| c [| ? ?]]]]; try discriminate.
  cbn [mbind option_bind shape values tf_div tf_mul].
  intros [= <-]. exists h, w, c. split; reflexivity.
Qed.

Lemma heatmap_defined (h w c : nat) (vs preds : list num) :
  exists hv, heatmap (mkTensor [1%nat; h; w; c] vs) preds
             = Some (mkTensor [h; w] hv).
Proof.
  unfold heatmap, squeeze0, tf_mean_axis2.
  cbn [mbind option_bind shape values tf_div tf_mul].
  eexists; reflexivity.
Qed.

Lemma normalizedHeatmap_defined (h w : nat) (hv : list num) :
  exists vs, normalizedHeatmap (mkTensor [h; w] hv)
             = Some (mkTensor [224; 224]%nat vs).
Proof.
  unfold normalizedHeatmap, expandDims2, resizeBilinear, squeeze2.
  cbn [mbind option_bind shape values tf_div tf_sub].
  destruct (strict_eq _ _); eexists; reflexivity.
Qed.

(** The saliency map is produced for every input of shape
    [[1; h; w; c]], and always has shape [[224; 224]]. *)
Lemma saliencyMap_defined (h w c : nat) (vs preds : list num) :
  exists ms, saliencyMap (mkTensor [1%nat; h; w; c] vs) preds
             = Some (mkTensor [224; 224]%nat ms).
Proof.
  unfold saliencyMap.
  destruct (heatmap_defined h w c vs preds) as [hv ->].
  cbn [mbind option_bind]. apply normalizedHeatmap_defined.
Qed.

Lemma saliencyMap_shape (t m : Tensor) (preds : list num) :
  saliencyMap t preds = Some m ->
  (exists h w c, shape t = [1%nat; h; w; c]) /\ shape m = [224; 224]%nat.
Proof.
  unfold saliencyMap.
  destruct (heatmap t preds) as [hm |] eqn:Hh; [| discriminate].
  cbn [mbind option_bind]. intros Hn.
  destruct (heatmap_shape t hm preds Hh) as (h & w & c & Ht & Hm).
  split; [exists h, w, c; exact Ht |].
  destruct hm as [sh hv]; simpl in Hm; subst sh.
  destruct (normalizedHeatmap_defined h w hv) as [vs Hvs].
  rewrite Hvs in Hn. injection Hn as <-. reflexivity.
Qed.

End Shapes.

(** ** The pipeline on a uniform image *)

Section UniformPipeline.

Local Open Scope R_scope.

Lemma confidenceBoost_boostOf (ps : list R) :
  confidenceBoost (Fin <$> ps) = Fin (boostOf ps).
Proof.
  destruct ps as [| p l]; [apply confidenceBoost_nil |].
  unfold confidenceBoost, Math_max. simpl foldl.
  rewrite max2_NInf_l, foldl_max2_Fin. simpl mul. apply max2_Fin.
Qed.

Lemma boostOf_floor (ps : list R) : 3 / 10 <= boostOf ps.
Proof. destruct ps; simpl; [lra | apply Rmax_l]. Qed.

Lemma chunkMeans_rgb (n : nat) (r g b : R) :
  chunkMeans 3 n (concat (replicate n [Fin r; Fin g; Fin b]))
  = replicate n (Fin (luminance r g b)).
Proof.
  rewrite <- mean_rgb.
  exact (chunkMeans_uniform n [Fin r; Fin g; Fin b]).
Qed.

(** The raw map of a uniform image: every luminance is divided by the
    common maximum, then multiplied by the mask. *)
Lemma heatmap_uniform (h w : nat) (r g b : R) (preds : list num) :
  heatmap (uniformInput h w r g b) preds
  = Some (mkTensor [h; w]
            (zip_with mul
               (replicate (h * w)
                  (div (Fin (luminance r g b))
                       (Math_max (replicate (h * w)
                                    (Fin (luminance r g b))))))
               (centerMask h w (confidenceBoost preds)))).
Proof.
  unfold heatmap, uniformInput, squeeze0, tf_mean_axis2, tf_max.
  cbn [mbind option_bind shape values].
  unfold tf_mul, tf_div; cbn [shape values].
  rewrite chunkMeans_rgb, map_fmap, fmap_replicate. reflexivity.
Qed.

Lemma normalized_lit (n : nat) (L : R) :
  L <> 0 ->
  div (Fin L) (Math_max (replicate (S n) (Fin L))) = Fin 1.
Proof.
  intros HL. rewrite Math_max_replicate, div_Fin by exact HL.
  f_equal. field. exact HL.
Qed.

Lemma normalized_black (n : nat) :
  div (Fin 0) (Math_max (replicate (S n) (Fin 0))) = NaN.
Proof. rewrite Math_max_replicate. apply div_zero_zero. Qed.

(** Raw value of a lit uniform image at row [y], column [x]. *)
Lemma heatmap_lit (h w : nat) (r g b : R) (ps : list R) :
  luminance r g b <> 0 -> (0 < h)%nat -> (0 < w)%nat ->
  exists hv,
    heatmap (uniformInput h w r g b) (Fin <$> ps) = Some (mkTensor [h; w] hv)
    /\ length hv = (h * w)%nat
    /\ forall y x, (y < h)%nat -> (x < w)%nat ->
         hv !! (y * w + x)%nat = Some (Fin (linWeight h w y x * boostOf ps)).
Proof.
  intros HL Hh Hw. eexists. split; [apply heatmap_uniform |].
  destruct (h * w)%nat as [| n] eqn:Hn; [nia |].
  rewrite normalized_lit by exact HL. rewrite <- Hn. split.
  - rewrite length_zip_with, length_replicate, centerMask_length. lia.
  - intros y x Hy Hx. rewrite lookup_zip_with.
    rewrite lookup_replicate_2 by nia.
    rewrite centerMask_lookup by assumption.
    rewrite confidenceBoost_boostOf, maskWeight_Fin by assumption.
    simpl. do 2 f_equal. ring.
Qed.

(** The raw map of a black image is [NaN] everywhere. *)
Lemma heatmap_black (h w : nat) (preds : list num) :
  (0 < h)%nat -> (0 < w)%nat ->
  heatmap (uniformInput h w 0 0 0) preds
  = Some (mkTensor [h; w] (replicate (h * w) NaN)).
Proof.
  intros Hh Hw. rewrite heatmap_uniform. do 2 f_equal.
  replace (luminance 0 0 0) with 0 by (unfold luminance; lra).
  destruct (h * w)%nat as [| n] eqn:Hn; [nia |].
  rewrite normalized_black. rewrite <- Hn.
  apply list_eq; intros i. rewrite lookup_zip_with.
  destruct (decide (i < h * w)%nat) as [Hi | Hi].
  - rewrite !lookup_replicate_2 by exact Hi.
    destruct (lookup_lt_is_Some_2 (centerMask h w (confidenceBoost preds)) i)
      as [v ->]; [rewrite centerMask_length; exact Hi | reflexivity].
  - rewrite !(proj2 (lookup_ge_None (replicate (h * w) _) i))
      by (rewrite length_replicate; lia).
    reflexivity.
Qed.

End UniformPipeline.

(** ** Normalisation of a 224 x 224 raw map *)

Section Normalise.

Local Open Scope R_scope.

(** When the range is not zero the map is resized (to the size it
    already has) and rescaled. *)
Lemma normalizedHeatmap_rescaled (hv : list num) :
  length hv = (224 * 224)%nat -> Forall no_inf hv ->
  strict_eq (sub (Math_max hv) (Math_min hv)) (Fin 0) = false ->
  normalizedHeatmap (mkTensor [224; 224]%nat hv)
  = Some (mkTensor [224; 224]%nat
            (map (fun v => div v (sub (Math_max hv) (Math_min hv)))
                 (map (fun v => sub v (Math_min hv)) hv))).
Proof.
  intros Hlen Hfin Hrange. unfold normalizedHeatmap.
  cbn [values]. rewrite Hrange. unfold expandDims2.
  cbn [mbind option_bind shape values].
  rewrite resizeBilinear_same by (try assumption; rewrite Hlen; lia).
  reflexivity.
Qed.

Lemma INR_112 : INR 112 = 112.
Proof. rewrite INR_IZR_INZ. reflexivity. Qed.

Lemma INR_224 : INR 224 = 224.
Proof. rewrite INR_IZR_INZ. reflexivity. Qed.

Lemma distance_self (cy cx : R) : Spec.distance cy cx cy cx = 0.
Proof.
  unfold Spec.distance.
  replace ((cy - cy) * (cy - cy) + (cx - cx) * (cx - cx)) with 0 by ring.
  apply sqrt_0.
Qed.

(** The distance is at least the offset along one axis. *)
Lemma distance_ge_row (cy cx y x : R) : Rabs (y - cy) <= Spec.distance cy cx y x.
Proof.
  unfold Spec.distance. rewrite <- sqrt_Rsqr_abs.
  apply sqrt_le_1_alt. unfold Rsqr.
  pose proof (Rle_0_sqr (x - cx)) as H. unfold Rsqr in H. lra.
Qed.

Lemma linWeight_centre : linWeight 224 224 112 112 = 1.
Proof.
  unfold linWeight. change (224 / 2)%nat with 112%nat.
  rewrite distance_self. unfold Rdiv at 1. rewrite Rmult_0_l.
  rewrite Rmax_right by lra. lra.
Qed.

Lemma linWeight_corner : linWeight 224 224 0 0 = 0.
Proof.
  unfold linWeight. change (224 / 2)%nat with 112%nat.
  rewrite Nat.min_id, INR_112, INR_224. simpl INR.
  pose proof (distance_ge_row 112 112 0 0) as H.
  rewrite Rabs_left in H by lra.
  rewrite Rmax_left; [reflexivity |].
  assert (1 <= Spec.distance 112 112 0 0 / (224 / 3)); [| lra].
  apply (Rmult_le_reg_r (224 / 3)); [lra |]. field_simplify; lra.
Qed.

Lemma grid_index (w i : nat) :
  (0 < w)%nat -> (i = i / w * w + i mod w)%nat /\ (i mod w < w)%nat.
Proof.
  intros Hw. pose proof (Nat.div_mod_eq i w).
  pose proof (Nat.mod_upper_bound i w ltac:(lia)). split; lia.
Qed.

(** The saliency map of a lit uniform 224 x 224 image is the linear
    mask itself: the boost cancels in the rescaling. *)
Lemma saliencyMap_lit (r g b : R) (ps : list R) :
  luminance r g b <> 0 ->
  exists ms,
    saliencyMap (uniformInput 224 224 r g b) (Fin <$> ps)
    = Some (mkTensor [224; 224]%nat ms)
    /\ length ms = (224 * 224)%nat
    /\ forall y x, (y < 224)%nat -> (x < 224)%nat ->
         ms !! (y * 224 + x)%nat = Some (Fin (linWeight 224 224 y x)).
Proof.
  intros HL.
  destruct (heatmap_lit 224 224 r g b ps HL) as (hv & Hh & Hlen & Hlook);
    [lia | lia |].
  pose proof (boostOf_floor ps) as Hb. set (bb := boostOf ps) in *.
  assert (Hcell : forall i v, hv !! i = Some v ->
            exists y x, (y < 224)%nat /\ (x < 224)%nat /\
                        v = Fin (linWeight 224 224 y x * bb)).
  { intros i v Hv. pose proof (lookup_lt_Some _ _ _ Hv) as Hi.
    destruct (grid_index 224 i ltac:(lia)) as [Hidx Hx].
    assert (Hy : (i / 224 < 224)%nat)
      by (apply Nat.Div0.div_lt_upper_bound; lia).
    exists (i / 224)%nat, (i mod 224)%nat. repeat split; try assumption.
    rewrite Hidx, Hlook in Hv by assumption. congruence. }
  assert (Habove : Forall (above 0) hv).
  { apply Forall_lookup. intros i v Hv.
    destruct (Hcell i v Hv) as (y & x & _ & _ & ->).
    pose proof (linWeight_bounds 224 224 y x).
    eexists; split; [reflexivity | nra]. }
  assert (Hbelow : Forall (below bb) hv).
  { apply Forall_lookup. intros i v Hv.
    destruct (Hcell i v Hv) as (y & x & _ & _ & ->).
    pose proof (linWeight_bounds 224 224 y x).
    eexists; split; [reflexivity | nra]. }
  assert (Hmin : Math_min hv = Fin 0).
  { apply Math_min_attained; [| exact Habove].
    apply list_elem_of_lookup. exists (0 * 224 + 0)%nat.
    rewrite Hlook by lia. rewrite linWeight_corner, Rmult_0_l. reflexivity. }
  assert (Hmax : Math_max hv = Fin bb).
  { apply Math_max_attained; [| exact Hbelow].
    apply list_elem_of_lookup. exists (112 * 224 + 112)%nat.
    rewrite Hlook by lia. rewrite linWeight_centre, Rmult_1_l. reflexivity. }
  eexists. split; [| split].
  - unfold saliencyMap. rewrite Hh. cbn [mbind option_bind].
    apply normalizedHeatmap_rescaled; [exact Hlen | |].
    + eapply Forall_impl; [exact Habove | apply above_no_inf].
    + rewrite Hmin, Hmax. apply strict_eq_Fin_false. lra.
  - rewrite !length_map. exact Hlen.
  - intros y x Hy Hx. rewrite Hmin, Hmax, !map_fmap, !list_lookup_fmap.
    rewrite Hlook by assumption. cbn [fmap option_fmap option_map].
    unfold sub; simpl neg; simpl add.
    rewrite div_Fin by lra. do 2 f_equal. field. lra.
Qed.

Lemma Math_min_all_NaN (n : nat) :
  (0 < n)%nat -> Math_min (replicate n NaN) = NaN.
Proof. destruct n; [lia | intros _; apply Math_min_NaN]. Qed.

Lemma Math_max_all_NaN (n : nat) :
  (0 < n)%nat -> Math_max (replicate n NaN) = NaN.
Proof. destruct n; [lia | intros _; apply Math_max_NaN]. Qed.

(** The saliency map of a black 224 x 224 image is [NaN] everywhere:
    the division of line 304 is [0 / 0], and a range that is [NaN] is not
    [=== 0]. *)
Lemma saliencyMap_black (preds : list num) :
  saliencyMap (uniformInput 224 224 0 0 0) preds
  = Some (mkTensor [224; 224]%nat (replicate (224 * 224) NaN)).
Proof.
  unfold saliencyMap. rewrite heatmap_black by lia.
  cbn [mbind option_bind].
  rewrite normalizedHeatmap_rescaled.
  - rewrite Math_min_all_NaN, Math_max_all_NaN by lia.
    rewrite !map_fmap, !fmap_replicate. reflexivity.
  - apply length_replicate.
  - apply Forall_replicate, NaN_no_inf.
  - rewrite Math_min_all_NaN, Math_max_all_NaN by lia. reflexivity.
Qed.

End Normalise.

(** ** The preprocessor on a solid image *)

Section Preprocess.

Local Open Scope R_scope.

Lemma concat_replicate_3 (n : nat) (v : num) :
  concat (replicate n [v; v; v]) = replicate (n * 3) v.
Proof. induction n as [| n IH]; simpl; [reflexivity | rewrite IH; reflexivity]. Qed.

(** Lines 262-276 turn a solid image into a uniform tensor. *)
Lemma preprocessImage_solid (H W : nat) (gray : Z) :
  (0 < H)%nat -> (0 < W)%nat ->
  preprocessImage (solidImage H W gray)
  = Some (uniformInput 224 224 (IZR gray / 255) (IZR gray / 255)
                       (IZR gray / 255)).
Proof.
  intros HH HW. unfold preprocessImage, fromPixels, solidImage.
  cbn [naturalHeight naturalWidth rgb].
  rewrite map_fmap, fmap_replicate, resizeBilinear_const by assumption.
  cbn [mbind option_bind]. unfold tf_div, expandDims0, uniformInput.
  cbn [shape values]. rewrite map_fmap, fmap_replicate, concat_replicate_3.
  rewrite div_Fin by lra. reflexivity.
Qed.

End Preprocess.

(** ** The colour buffer *)

Section Colour.

Local Open Scope R_scope.

Lemma coloredHeatmap_length (vs : list num) :
  length (coloredHeatmap vs) = (length vs * 3)%nat.
Proof.
  unfold coloredHeatmap. induction vs as [| v vs IH]; simpl; [reflexivity |].
  rewrite IH. reflexivity.
Qed.

Lemma coloredHeatmap_lookup (vs : list num) (i : nat) (v : num) :
  vs !! i = Some v ->
  coloredHeatmap vs !! (i * 3)%nat = Some (redOf v) /\
  coloredHeatmap vs !! (i * 3 + 1)%nat = Some (greenOf v) /\
  coloredHeatmap vs !! (i * 3 + 2)%nat = Some (blueOf v).
Proof.
  unfold coloredHeatmap. revert i; induction vs as [| u vs IH]; intros i Hi.
  - discriminate.
  - destruct i as [| i]; simpl in Hi.
    + injection Hi as ->. repeat split; reflexivity.
    + destruct (IH i Hi) as (Hr & Hg & Hb). simpl. repeat split; assumption.
Qed.

Lemma colorArray_lookup (vs : list num) (i : nat) (v : num) :
  vs !! i = Some v ->
  colorArray vs !! (i * 3)%nat = Some (mul (redOf v) (Fin 255)) /\
  colorArray vs !! (i * 3 + 1)%nat = Some (mul (greenOf v) (Fin 255)) /\
  colorArray vs !! (i * 3 + 2)%nat = Some (mul (blueOf v) (Fin 255)).
Proof.
  intros Hi. destruct (coloredHeatmap_lookup vs i v Hi) as (Hr & Hg & Hb).
  unfold colorArray. rewrite map_fmap, !list_lookup_fmap, Hr, Hg, Hb.
  repeat split; reflexivity.
Qed.

Lemma colorArray_length (vs : list num) :
  length (colorArray vs) = (length vs * 3)%nat.
Proof. unfold colorArray. rewrite length_map. apply coloredHeatmap_length. Qed.

Lemma pixel_count (n : nat) : ((n * 3 + 2) / 3)%nat = n.
Proof. symmetry. apply (Nat.div_unique _ 3 n 2); lia. Qed.

Section PixelLoop.

Context (p0 p1 p2 p3 : nat -> Z).

Local Abbreviation step := (fourWrites p0 p1 p2 p3).

Lemma pixel_loop_length (a n : nat) (data : list Z) :
  length (foldl step data (seq a n)) = length data.
Proof.
  revert a data; induction n as [| n IH]; intros a data; simpl; [reflexivity |].
  rewrite IH. unfold fourWrites. rewrite !length_insert. reflexivity.
Qed.

Lemma pixel_loop_before (a n : nat) (data : list Z) (j : nat) :
  (j < a * 4)%nat -> foldl step data (seq a n) !! j = data !! j.
Proof.
  revert a data; induction n as [| n IH]; intros a data Hj; simpl;
    [reflexivity |].
  rewrite IH by lia. unfold fourWrites.
  rewrite !list_lookup_insert_ne by lia. reflexivity.
Qed.

Lemma pixel_loop_hit (a n : nat) (data : list Z) (i : nat) :
  (a <= i < a + n)%nat -> (i * 4 + 3 < length data)%nat ->
  foldl step data (seq a n) !! (i * 4)%nat = Some (p0 i) /\
  foldl step data (seq a n) !! (i * 4 + 1)%nat = Some (p1 i) /\
  foldl step data (seq a n) !! (i * 4 + 2)%nat = Some (p2 i) /\
  foldl step data (seq a n) !! (i * 4 + 3)%nat = Some (p3 i).
Proof.
  revert a data; induction n as [| n IH]; intros a data Hi Hlen; [lia |].
  simpl. destruct (decide (i = a)) as [-> | Hne].
  - rewrite !pixel_loop_before by lia. unfold fourWrites.
    repeat split.
    + rewrite !list_lookup_insert_ne by lia.
      apply list_lookup_insert_eq. lia.
    + rewrite !list_lookup_insert_ne by lia.
      apply list_lookup_insert_eq. rewrite !length_insert. lia.
    + rewrite list_lookup_insert_ne by lia.
      apply list_lookup_insert_eq. rewrite !length_insert. lia.
    + apply list_lookup_insert_eq. rewrite !length_insert. lia.
  - apply IH; [lia |]. unfold fourWrites. rewrite !length_insert. exact Hlen.
Qed.

End PixelLoop.

(** Pixel [i] of the RGBA buffer, for a map with value [v] there. *)
Lemma imageData_lookup (vs : list num) (i : nat) (v : num) :
  (i < 224 * 224)%nat -> vs !! i = Some v ->
  let data := imageData (colorArray vs) in
  data !! (i * 4)%nat
  = Some (ToUint8Clamp
            (byteOf (mul (mul (redOf v) (Fin 255)) (Fin (12 / 10))))) /\
  data !! (i * 4 + 1)%nat
  = Some (ToUint8Clamp (byteOf (mul (greenOf v) (Fin 255)))) /\
  data !! (i * 4 + 2)%nat
  = Some (ToUint8Clamp
            (byteOf (mul (mul (blueOf v) (Fin 255)) (Fin (8 / 10))))) /\
  data !! (i * 4 + 3)%nat = Some 200%Z.
Proof.
  intros Hi Hv. destruct (colorArray_lookup vs i v Hv) as (Hr & Hg & Hb).
  pose proof (lookup_lt_Some _ _ _ Hv) as Hlt.
  assert (Er : mul (redOf v) (Fin 255) = element (colorArray vs) (i * 3))
    by (unfold element; rewrite Hr; reflexivity).
  assert (Eg : mul (greenOf v) (Fin 255) = element (colorArray vs) (i * 3 + 1))
    by (unfold element; rewrite Hg; reflexivity).
  assert (Eb : mul (blueOf v) (Fin 255) = element (colorArray vs) (i * 3 + 2))
    by (unfold element; rewrite Hb; reflexivity).
  cbv zeta. unfold imageData.
  rewrite colorArray_length, pixel_count.
  rewrite Er, Eg, Eb.
  apply (pixel_loop_hit
           (fun i => ToUint8Clamp
                       (byteOf (mul (element (colorArray vs) (i * 3))
                                    (Fin (12 / 10)))))
           (fun i => ToUint8Clamp
                       (byteOf (element (colorArray vs) (i * 3 + 1))))
           (fun i => ToUint8Clamp
                       (byteOf (mul (element (colorArray vs) (i * 3 + 2))
                                    (Fin (8 / 10)))))
           (fun _ => 200%Z)).
  - lia.
  - rewrite length_replicate. lia.
Qed.

Lemma clamp_bounds (x lo hi : R) : lo <= hi -> lo <= Spec.clamp x lo hi <= hi.
Proof.
  intros H. unfold Spec.clamp. split; [apply Rmax_l |].
  apply Rmax_lub; [exact H | apply Rmin_r].
Qed.

Lemma clamp_min_max (x : R) : Rmin 255 (Rmax 0 x) = Spec.clamp x 0 255.
Proof.
  unfold Spec.clamp, Rmin, Rmax. case_R; lra.
Qed.

Lemma round_byte (x : R) :
  0 <= x <= 255 -> (0 <= Spec.round x <= 255)%Z.
Proof.
  intros Hx. unfold Spec.round. split.
  - apply Zfloor_lub. simpl. lra.
  - pose proof (Zfloor_bound (x + 1 / 2)) as [Hb _].
    assert (IZR (Zfloor (x + 1 / 2)) < IZR 256) by (simpl; lra).
    apply lt_IZR in H. lia.
Qed.

Lemma ToUint8Clamp_byte (z : Z) :
  (0 <= z <= 255)%Z -> ToUint8Clamp (Fin (IZR z)) = z.
Proof.
  intros [H0 H255]. unfold ToUint8Clamp.
  destruct (Rle_dec (IZR z) 0) as [Hle | Hgt].
  - apply le_IZR in Hle. lia.
  - destruct (Rle_dec 255 (IZR z)) as [Hge | Hlt].
    + apply le_IZR in Hge. lia.
    + rewrite ZfloorZ. destruct (Rlt_dec (IZR z - IZR z) (1 / 2)); [reflexivity | lra].
Qed.

(** One colour channel: the scaled value as a byte. *)
Lemma byteOf_Fin (x : R) :
  ToUint8Clamp (byteOf (Fin x)) = Spec.round (Spec.clamp x 0 255).
Proof.
  unfold byteOf. rewrite max2_Fin, min2_Fin, clamp_min_max.
  cbn [Math_round]. apply ToUint8Clamp_byte.
  apply round_byte, clamp_bounds. lra.
Qed.

Lemma redOf_Fin (v : R) :
  redOf (Fin v) = Fin (Spec.clamp ((v - 3 / 10) * (25 / 10)) 0 1).
Proof. unfold redOf, sub; cbn [neg add mul]. apply clip_Fin. Qed.

Lemma greenOf_Fin (v : R) :
  greenOf (Fin v) = Fin (Spec.clamp (v * (15 / 10)) 0 1).
Proof. unfold greenOf; cbn [mul]. apply clip_Fin. Qed.

Lemma blueOf_Fin (v : R) :
  blueOf (Fin v) = Fin (Spec.clamp (1 - v * 2) 0 1).
Proof.
  unfold blueOf, sub; cbn [neg add mul]. rewrite clip_Fin.
  reflexivity.
Qed.

(** Lines 366-403 on a finite saliency value. *)
Lemma imageData_pixel (vs : list num) (i : nat) (v : R) :
  (i < 224 * 224)%nat -> vs !! i = Some (Fin v) ->
  imageData (colorArray vs) !! (i * 4)%nat = Some (redByte v) /\
  imageData (colorArray vs) !! (i * 4 + 1)%nat = Some (greenByte v) /\
  imageData (colorArray vs) !! (i * 4 + 2)%nat = Some (blueByte v) /\
  imageData (colorArray vs) !! (i * 4 + 3)%nat = Some 200%Z.
Proof.
  intros Hi Hv.
  destruct (imageData_lookup vs i (Fin v) Hi Hv) as (Hr & Hg & Hb & Ha).
  rewrite redOf_Fin in Hr. rewrite greenOf_Fin in Hg. rewrite blueOf_Fin in Hb.
  cbn [mul] in Hr, Hg, Hb. rewrite byteOf_Fin in Hr, Hg, Hb.
  repeat split; assumption.
Qed.

End Colour.

(** ** Sorting the predictions *)

Section Sorting.

Local Open Scope R_scope.

Context {A : Type} (comparefn : A -> A -> num).

Lemma sort_insert_perm (x : A) (l : list A) :
  sort_insert comparefn x l ≡ₚ x :: l.
Proof.
  induction l as [| y t IH]; cbn [sort_insert]; [reflexivity |].
  destruct (ltb (Fin 0) (comparefn x y)); [| reflexivity].
  rewrite IH. apply Permutation_swap.
Qed.

Lemma Array_sort_perm (l : list A) : Array_sort comparefn l ≡ₚ l.
Proof.
  unfold Array_sort. induction l as [| x l IH]; simpl; [reflexivity |].
  rewrite sort_insert_perm, IH. reflexivity.
Qed.

Lemma Array_sort_length (l : list A) :
  length (Array_sort comparefn l) = length l.
Proof. apply Permutation_length, Array_sort_perm. Qed.

End Sorting.

Section Results.

Local Open Scope R_scope.

Lemma byConfidenceDesc_Fin (a b : JankenPrediction) (x y : R) :
  confidence a = Fin x -> confidence b = Fin y ->
  ltb (Fin 0) (byConfidenceDesc a b) = if Rlt_dec x y then true else false.
Proof.
  intros Ha Hb. unfold byConfidenceDesc. rewrite Ha, Hb.
  unfold sub; cbn [neg add ltb]. case_R; try reflexivity; lra.
Qed.

Lemma sort_insert_sorted (p : JankenPrediction) (l : list JankenPrediction) :
  (exists x, confidence p = Fin x) ->
  Forall (fun q => exists y, confidence q = Fin y) l ->
  StronglySorted noLess l ->
  StronglySorted noLess (sort_insert byConfidenceDesc p l).
Proof.
  intros [x Hx] Hfin Hs. induction l as [| q t IH]; cbn [sort_insert].
  - constructor; constructor.
  - inversion Hfin as [| ? ? [y Hy] Hfin']; subst.
    inversion Hs as [| ? ? Hs' Hq]; subst.
    rewrite (byConfidenceDesc_Fin p q x y Hx Hy).
    destruct (Rlt_dec x y) as [Hlt | Hge].
    + constructor; [apply IH; assumption |].
      rewrite sort_insert_perm. constructor; [| exact Hq].
      exists y, x. repeat split; try assumption. lra.
    + constructor; [exact Hs |].
      assert (Hpq : noLess p q)
        by (exists x, y; repeat split; try assumption; lra).
      constructor; [exact Hpq |].
      eapply Forall_impl; [exact Hq |].
      intros r (y' & z & Hy' & Hz & Hle). rewrite Hy in Hy'.
      injection Hy' as <-. exists x, z. repeat split; try assumption. lra.
Qed.

Lemma Array_sort_sorted (l : list JankenPrediction) :
  Forall (fun q => exists y, confidence q = Fin y) l ->
  StronglySorted noLess (Array_sort byConfidenceDesc l).
Proof.
  unfold Array_sort. induction l as [| p l IH]; intros Hfin; simpl.
  - constructor.
  - inversion Hfin as [| ? ? Hp Hl]; subst.
    apply sort_insert_sorted; [exact Hp | | apply IH; exact Hl].
    fold (Array_sort byConfidenceDesc l).
    rewrite (Array_sort_perm byConfidenceDesc l). exact Hl.
Qed.

(** Lines 437-441 pair each of the first three scores with the label of
    its position. *)
Lemma labelled_first_three (predictionData : list num) :
  imap (fun index c =>
          mkPrediction
            (default ("Class " +:+ pretty index) (JANKEN_LABELS !! index)) c)
       (take 3 predictionData)
  = labelled predictionData.
Proof.
  destruct predictionData as [| a [| b [| c rest]]]; reflexivity.
Qed.

Lemma results_perm (predictionData : list num) :
  results predictionData ≡ₚ labelled predictionData.
Proof.
  unfold results. rewrite labelled_first_three. apply Array_sort_perm.
Qed.

Lemma labelled_confidence (predictionData : list num) :
  confidence <$> labelled predictionData = take 3 predictionData.
Proof.
  destruct predictionData as [| a [| b [| c rest]]]; reflexivity.
Qed.

Lemma labelled_length (predictionData : list num) :
  (length (labelled predictionData) <= 3)%nat.
Proof.
  unfold labelled. rewrite length_zip_with. apply Nat.le_min_l.
Qed.

Lemma labelled_finite (ps : list R) :
  Forall (fun q => exists y, confidence q = Fin y) (labelled (Fin <$> ps)).
Proof.
  destruct ps as [| a [| b [| c rest]]]; repeat constructor; eexists; reflexivity.
Qed.

End Results.

(** ** The model on small inputs *)

Section Examples.

Local Open Scope R_scope.

(** Upsampling the row [0, 1] to four columns: the samples fall at the
    source positions 0, 1/2, 1 and 3/2, the last one clamped to the
    border. *)
Example resizeBilinear_row :
  resizeBilinear (mkTensor [1; 2; 1]%nat [Fin 0; Fin 1]) 1 4
  = Some (mkTensor [1; 4; 1]%nat [Fin 0; Fin (1 / 2); Fin 1; Fin 1]).
Proof.
  unfold resizeBilinear. cbn -[INR]. unfold lerp, sub. cbn -[INR].
  do 2 f_equal. repeat (f_equal; try (f_equal; simpl; lra)).
Qed.

(** Three scores come out in decreasing order, each with its label. *)
Example results_sorted :
  results (Fin <$> [1 / 10; 7 / 10; 2 / 10])
  = [mkPrediction "チョキ" (Fin (7 / 10)); mkPrediction "パー" (Fin (2 / 10));
     mkPrediction "グー" (Fin (1 / 10))].
Proof.
  unfold results. rewrite labelled_first_three.
  unfold labelled, Array_sort, byConfidenceDesc, sub. cbn.
  case_R; try lra. cbn. case_R; try lra. reflexivity.
Qed.

(** The boost at the three boundary cases of the specification. *)
Example confidenceBoost_boundaries :
  confidenceBoost [Fin 0] = Fin (3 / 10) /\
  confidenceBoost [Fin (6 / 10)] = Fin (12 / 10) /\
  confidenceBoost [Fin (9 / 10)] = Fin (18 / 10).
Proof.
  repeat split; unfold confidenceBoost, Math_max, max2; cbn;
    case_R; try lra; f_equal; lra.
Qed.

End Examples.

(** ** The second copy of the component

    The formulas of the restructured copy are those of the
    specification. *)

Section RestructuredFacts.

Local Open Scope R_scope.

(** The fixed pattern is what a raw map without range is replaced by. *)
Lemma normalizedHeatmap_fixed (hm : Tensor) :
  strict_eq (sub (Math_max (values hm)) (Math_min (values hm))) (Fin 0) = true ->
  normalizedHeatmap hm = Some (mkTensor [224; 224]%nat fixedPattern).
Proof. intros H. unfold normalizedHeatmap. rewrite H. reflexivity. Qed.

(** Lines 76-77 of the copy: the boost with its ceiling. *)
Lemma restructured_boost_clamped (ps : list R) (m : R) :
  is_max m ps ->
  Restructured.confidenceBoost (Fin <$> ps) = Fin (Spec.boost m).
Proof.
  intros Hm. unfold Restructured.confidenceBoost.
  rewrite (Math_max_is_max m ps Hm). cbn [mul].
  rewrite min2_Fin, max2_Fin. reflexivity.
Qed.

(** Lines 94-102 of the copy: the Gaussian mask. *)
Lemma restructured_mask_gaussian (h w y x : nat) (b : R) :
  (0 < h)%nat -> (0 < w)%nat ->
  Restructured.maskWeight h w (Fin b) y x = Fin (Spec.maskWeight h w y x b).
Proof.
  intros Hh Hw. unfold Restructured.maskWeight.
  rewrite !centre_Fin, radius_Fin, distance_Fin.
  assert (Hr : 0 < INR (Nat.min h w)) by (apply lt_0_INR; lia).
  rewrite (div_Fin (INR (Nat.min h w) / 3) 2) by lra.
  unfold sq. cbn [mul neg].
  rewrite div_Fin by nra.
  cbn [Restructured.Math_exp mul]. unfold Spec.maskWeight. reflexivity.
Qed.

Lemma gained_byte (gain c : R) :
  Restructured.gained (Fin gain) (Fin c)
  = Fin (IZR (Spec.round (Spec.clamp (c * 255 * gain) 0 255))).
Proof.
  unfold Restructured.gained. cbn [mul].
  rewrite max2_Fin, min2_Fin, clamp_min_max. reflexivity.
Qed.

Lemma restructured_redOf (v : R) :
  Restructured.redOf (Fin v) = Fin (Spec.clamp ((v - 2 / 10) * 2) 0 1).
Proof. unfold Restructured.redOf, sub; cbn [neg add mul]. apply clip_Fin. Qed.

Lemma restructured_greenOf (v : R) :
  Restructured.greenOf (Fin v) = Fin (Spec.clamp (v * (18 / 10)) 0 1).
Proof. unfold Restructured.greenOf; cbn [mul]. apply clip_Fin. Qed.

Lemma restructured_blueOf (v : R) :
  Restructured.blueOf (Fin v) = Fin (Spec.clamp (12 / 10 - v * 2) 0 1).
Proof.
  unfold Restructured.blueOf, sub; cbn [neg add mul]. rewrite clip_Fin.
  reflexivity.
Qed.

Lemma spec_channel_byte (x : R) :
  (0 <= Spec.round (Spec.clamp x 0 255) <= 255)%Z.
Proof. apply round_byte, clamp_bounds. lra. Qed.

(** Lines 161-163 and 183-190 of the copy: the colours and the alpha of
    the specification. *)
Lemma restructured_pixel (v : R) :
  Restructured.pixel (Fin v)
  = (Spec.red v, Spec.green v, Spec.blue v, Spec.alpha v).
Proof.
  unfold Restructured.pixel.
  rewrite restructured_redOf, restructured_greenOf, restructured_blueOf.
  rewrite !gained_byte.
  fold (Spec.red v) (Spec.green v) (Spec.blue v).
  pose proof (spec_channel_byte
                (Spec.clamp ((v - 2 / 10) * 2) 0 1 * 255 * (13 / 10))) as Hr.
  pose proof (spec_channel_byte
                (Spec.clamp (v * (18 / 10)) 0 1 * 255 * (11 / 10))) as Hg.
  pose proof (spec_channel_byte
                (Spec.clamp (12 / 10 - v * 2) 0 1 * 255 * (9 / 10))) as Hb.
  fold (Spec.red v) in Hr. fold (Spec.green v) in Hg.
  fold (Spec.blue v) in Hb.
  rewrite !ToUint8Clamp_byte by assumption.
  cbn [add]. rewrite <- !plus_IZR, div_Fin by lra.
  rewrite min2_Fin. cbn [mul Math_round]. fold (Spec.round
    (200 * Rmin 1 (IZR (Spec.red v + Spec.green v + Spec.blue v) / 400))).
  fold (Spec.alpha v).
  rewrite ToUint8Clamp_byte; [reflexivity |].
  unfold Spec.alpha.
  assert (Hs : 0 <= IZR (Spec.red v + Spec.green v + Spec.blue v) / 400).
  { assert (0 <= IZR (Spec.red v + Spec.green v + Spec.blue v))
      by (apply IZR_le; lia).
    lra. }
  assert (Hm : 0 <= Rmin 1 (IZR (Spec.red v + Spec.green v + Spec.blue v) / 400)
               <= 1).
  { split; [apply Rmin_glb; lra | apply Rmin_l]. }
  apply round_byte. nra.
Qed.

(** Lines 290-299 of the copy: the reported confidences are clamped. *)
Lemma restructured_results_clamped (predictionData : list R) :
  Forall (fun p => exists c, confidence p = Fin c /\ 0 <= c <= 1)
         (Restructured.results (Fin <$> predictionData)).
Proof.
  unfold Restructured.results.
  rewrite (Array_sort_perm byConfidenceDesc).
  apply Forall_lookup. intros i p. rewrite list_lookup_imap.
  destruct (take (length JANKEN_LABELS) (Fin <$> predictionData) !! i)
    as [c |] eqn:Hc; [| discriminate].
  apply lookup_take_Some in Hc as [Hc _].
  rewrite list_lookup_fmap in Hc.
  destruct (predictionData !! i) as [s |]; [| discriminate].
  injection Hc as <-. intros [= <-]. cbn [confidence].
  rewrite min2_Fin, max2_Fin. eexists; split; [reflexivity |].
  split; [apply Rmax_l |]. apply Rmax_lub; [lra | apply Rmin_l].
Qed.

(** Lines 62-65 of the copy: an empty vector is refused. *)
Lemma restructured_rejects_empty : Restructured.validInput [] = false.
Proof. reflexivity. Qed.

End RestructuredFacts.

(** * The claims of the specification *)

Section Claims.

Local Open Scope R_scope.

Lemma is_max_confident : is_max (9 / 10) confident.
Proof.
  split; [left | repeat constructor; lra].
Qed.

Lemma distance_same_row (cy cx x : R) :
  Spec.distance cy cx cy x = Rabs (x - cx).
Proof.
  unfold Spec.distance. rewrite <- sqrt_Rsqr_abs. f_equal. unfold Rsqr. ring.
Qed.

Lemma distance_same_col (cy cx y : R) :
  Spec.distance cy cx y cx = Rabs (y - cy).
Proof.
  unfold Spec.distance. rewrite <- sqrt_Rsqr_abs. f_equal. unfold Rsqr. ring.
Qed.

Lemma INR_190 : INR 190 = 190.
Proof. rewrite INR_IZR_INZ. reflexivity. Qed.

(** Row 0 of column 112 lies outside the radius of the mask. *)
Lemma linWeight_top : linWeight 224 224 0 112 = 0.
Proof.
  unfold linWeight. change (224 / 2)%nat with 112%nat.
  rewrite Nat.min_id, distance_same_col, INR_112, INR_224. simpl INR.
  rewrite Rabs_left by lra. apply Rmax_left. lra.
Qed.

(** Column 190 of row 112 lies outside the radius of the mask, and
    inside the 80 pixels of the fixed pattern. *)
Lemma linWeight_right : linWeight 224 224 112 190 = 0.
Proof.
  unfold linWeight. change (224 / 2)%nat with 112%nat.
  rewrite Nat.min_id, distance_same_row, INR_112, INR_190, INR_224.
  rewrite Rabs_right by lra. apply Rmax_left. lra.
Qed.

Lemma fallback_right : Spec.fallback 224 224 112 190 = 1 / 40.
Proof.
  unfold Spec.fallback. change (224 / 2)%nat with 112%nat.
  rewrite Nat.min_id, distance_same_row, INR_112, INR_190, INR_224.
  rewrite Rabs_right by lra. rewrite Rmax_right by lra. lra.
Qed.

Lemma fixedWeight_right : fixedWeight 112 190 = 1 / 40.
Proof.
  unfold fixedWeight. rewrite <- INR_112 at 1.
  rewrite distance_same_row, INR_190.
  rewrite Rabs_right by lra. rewrite Rmax_right by lra. lra.
Qed.

Lemma tabulate_lookup {A : Type} (f : nat -> A) (w y x h : nat) :
  (y < h)%nat -> (x < w)%nat ->
  map (fun i => f i) (seq 0 (h * w)) !! (y * w + x)%nat
  = Some (f (y * w + x)%nat).
Proof.
  intros Hy Hx. rewrite map_fmap, list_lookup_fmap, lookup_seq_lt by nia.
  reflexivity.
Qed.

(** The saliency map of a lit uniform image, as one list. *)
Lemma saliencyMap_lit_eq (r g b : R) (ps : list R) :
  luminance r g b <> 0 ->
  saliencyMap (uniformInput 224 224 r g b) (Fin <$> ps)
  = Some (mkTensor [224; 224]%nat linearMaskMap).
Proof.
  intros HL. destruct (saliencyMap_lit r g b ps HL) as (ms & -> & Hlen & Hlook).
  do 2 f_equal. apply list_eq; intros i. unfold linearMaskMap.
  rewrite map_fmap, list_lookup_fmap.
  destruct (decide (i < 224 * 224)%nat) as [Hi | Hi].
  - rewrite lookup_seq_lt by exact Hi.
    destruct (grid_index 224 i ltac:(lia)) as [Hidx Hx].
    assert (Hy : (i / 224 < 224)%nat)
      by (apply Nat.Div0.div_lt_upper_bound; lia).
    rewrite Hidx at 1. rewrite Hlook by assumption. reflexivity.
  - rewrite (proj2 (lookup_ge_None (seq 0 (224 * 224)) i))
      by (rewrite length_seq; lia).
    apply lookup_ge_None. lia.
Qed.

Lemma linearMaskMap_lookup (y x : nat) :
  (y < 224)%nat -> (x < 224)%nat ->
  linearMaskMap !! (y * 224 + x)%nat = Some (Fin (linWeight 224 224 y x)).
Proof.
  intros Hy Hx. unfold linearMaskMap.
  rewrite (tabulate_lookup
             (fun i => Fin (linWeight 224 224 (i / 224) (i mod 224)))
             224 y x 224 Hy Hx).
  rewrite cell_div, cell_mod by exact Hx. reflexivity.
Qed.

Lemma tensor_values_inj (s : list nat) (vs vs' : list num) :
  Some (mkTensor s vs) = Some (mkTensor s vs') -> vs = vs'.
Proof. intros [= H]. exact H. Qed.

Lemma luminance_gray (c : R) : luminance c c c = c.
Proof. unfold luminance. field. Qed.

(** ** C1 *)

(** C1, counterexample: with scores 0.9, 0.05, 0.05 the boost is 1.8,
    not the value 1.0 that [clamp(max * 2, 0.3, 1.0)] gives. *)
Lemma C1_boost_above_ceiling :
  confidenceBoost (Fin <$> confident) <> Fin (Spec.boost (9 / 10)).
Proof.
  rewrite (confidenceBoost_Fin _ _ is_max_confident).
  unfold Spec.boost, Spec.clamp.
  rewrite (Rmin_right (9 / 10 * 2) 1) by lra.
  rewrite (Rmax_right (3 / 10) 1) by lra.
  rewrite Rmax_right by lra. intros [= H]. lra.
Qed.

(** C1, as the code has it: for every non-empty vector of finite scores
    the boost is [max(0.3, 2 * max(probabilities))], with the floor 0.3
    and no ceiling.  It agrees with [clamp(max * 2, 0.3, 1.0)] as long as
    [2 * max <= 1]; a maximum of 0 gives 0.3, of 0.6 gives 1.2 and of 0.9
    gives 1.8. *)
Theorem C1_boost_floor_no_ceiling (ps : list R) (m : R) :
  is_max m ps ->
  confidenceBoost (Fin <$> ps) = Fin (Rmax (3 / 10) (m * 2)) /\
  (m * 2 <= 1 -> confidenceBoost (Fin <$> ps) = Fin (Spec.boost m)) /\
  (m = 0 -> confidenceBoost (Fin <$> ps) = Fin (3 / 10)) /\
  (m = 6 / 10 -> confidenceBoost (Fin <$> ps) = Fin (12 / 10)) /\
  (m = 9 / 10 -> confidenceBoost (Fin <$> ps) = Fin (18 / 10)).
Proof.
  intros Hm. rewrite (confidenceBoost_Fin m ps Hm).
  split; [reflexivity |]. repeat split.
  - intros H. unfold Spec.boost, Spec.clamp.
    rewrite (Rmin_left (m * 2) 1) by exact H. reflexivity.
  - intros ->. f_equal. apply Rmax_left. lra.
  - intros ->. f_equal. rewrite Rmax_right; lra.
  - intros ->. f_equal. rewrite Rmax_right; lra.
Qed.

Lemma C1_boost_floor_no_ceiling_witness :
  is_max (9 / 10) confident /\
  confidenceBoost (Fin <$> confident) = Fin (Rmax (3 / 10) (9 / 10 * 2)).
Proof.
  split; [exact is_max_confident |].
  exact (proj1 (C1_boost_floor_no_ceiling confident (9 / 10) is_max_confident)).
Defined.

(** ** C2 *)

(** C2, counterexample: at row 0, column 112 of the 224 x 224 mask the
    code writes 0, where the Gaussian of the specification is positive. *)
Lemma C2_mask_not_gaussian :
  centerMask 224 224 (Fin (3 / 10)) !! (0 * 224 + 112)%nat
  <> Some (Fin (Spec.maskWeight 224 224 0 112 (3 / 10))).
Proof.
  rewrite centerMask_lookup, maskWeight_Fin by lia.
  rewrite linWeight_top. cbn [mul]. intros [= H].
  unfold Spec.maskWeight in H.
  match type of H with
  | _ = exp ?e * _ => pose proof (exp_pos e)
  end.
  nra.
Qed.

(** C2, as the code has it: every cell [(y, x)] of the mask holds the
    linear falloff [max(0, 1 - distance / r) * boost], where [distance]
    is the Euclidean distance to the centre
    [(floor(height/2), floor(width/2))] and [r = min(height,width) / 3]. *)
Theorem C2_mask_linear_falloff (height width y x : nat) (boost : R) :
  (y < height)%nat -> (x < width)%nat ->
  centerMask height width (Fin boost) !! (y * width + x)%nat
  = Some (Fin (Rmax 0 (1 - Spec.distance (INR (height / 2)) (INR (width / 2))
                                         (INR y) (INR x)
                           / (INR (Nat.min height width) / 3))
               * boost)).
Proof.
  intros Hy Hx. rewrite centerMask_lookup, maskWeight_Fin by lia.
  reflexivity.
Qed.

Lemma C2_mask_linear_falloff_witness :
  centerMask 224 224 (Fin 1) !! (112 * 224 + 112)%nat
  = Some (Fin (Rmax 0 (1 - Spec.distance (INR (224 / 2)) (INR (224 / 2))
                                         (INR 112) (INR 112)
                           / (INR (Nat.min 224 224) / 3))
               * 1)).
Proof.
  apply (C2_mask_linear_falloff 224 224 112 112 1); lia.
Defined.

(** ** C3 *)

(** C3, counterexample: for a solid gray image the synthesizer does not
    return the fallback map, neither as the specification words it nor
    as lines 344-352 build it: at row 112, column 190 the output is 0
    while both fallbacks hold 1/40. *)
Lemma C3_gray_image_not_fallback :
  saliencyMap grayInput (Fin <$> confident)
  <> Some (mkTensor [224; 224]%nat specFallbackMap) /\
  saliencyMap grayInput (Fin <$> confident)
  <> Some (mkTensor [224; 224]%nat fixedPattern).
Proof.
  unfold grayInput.
  rewrite saliencyMap_lit_eq by (rewrite luminance_gray; lra).
  assert (Hout : linearMaskMap !! (112 * 224 + 190)%nat = Some (Fin 0)).
  { rewrite linearMaskMap_lookup by lia. rewrite linWeight_right. reflexivity. }
  split; intros Heq%tensor_values_inj; rewrite Heq in Hout.
  - unfold specFallbackMap in Hout.
    rewrite (tabulate_lookup
               (fun i => Fin (Spec.fallback 224 224 (i / 224) (i mod 224)))
               224 112 190 224) in Hout by lia.
    rewrite cell_div, cell_mod, fallback_right in Hout by lia.
    injection Hout as H. lra.
  - rewrite fixedPattern_lookup, fixedValue_Fin, fixedWeight_right in Hout
      by lia.
    injection Hout as H. lra.
Qed.

Lemma distance_zero_iff (cy cx y x : nat) :
  Spec.distance (INR cy) (INR cx) (INR y) (INR x) = 0 <-> y = cy /\ x = cx.
Proof.
  unfold Spec.distance. split.
  - intros H. apply sqrt_eq_0 in H;
      [| apply Rplus_le_le_0_compat; apply Rle_0_sqr].
    pose proof (Rle_0_sqr (INR y - INR cy)) as H1.
    pose proof (Rle_0_sqr (INR x - INR cx)) as H2.
    unfold Rsqr in H1, H2.
    assert (E1 : (INR y - INR cy) * (INR y - INR cy) = 0) by lra.
    assert (E2 : (INR x - INR cx) * (INR x - INR cx) = 0) by lra.
    apply Rmult_integral in E1. apply Rmult_integral in E2.
    split; apply INR_eq; lra.
  - intros [-> ->].
    replace ((INR cy - INR cy) * (INR cy - INR cy)
             + (INR cx - INR cx) * (INR cx - INR cx)) with 0 by ring.
    apply sqrt_0.
Qed.

Lemma linWeight_zero_iff (h w y x : nat) :
  (0 < h)%nat -> (0 < w)%nat ->
  (linWeight h w y x = 0 <->
   INR (Nat.min h w) / 3
   <= Spec.distance (INR (h / 2)) (INR (w / 2)) (INR y) (INR x)).
Proof.
  intros Hh Hw.
  assert (Hr : 0 < INR (Nat.min h w) / 3).
  { assert (0 < INR (Nat.min h w)) by (apply lt_0_INR; lia). lra. }
  unfold linWeight.
  set (d := Spec.distance (INR (h / 2)) (INR (w / 2)) (INR y) (INR x)).
  set (r := INR (Nat.min h w) / 3) in *.
  assert (Hq : d / r * r = d) by (field; lra).
  split.
  - intros Hz. pose proof (Rmax_r 0 (1 - d / r)) as Hm. rewrite Hz in Hm. nra.
  - intros Hd. apply Rmax_left.
    assert (1 <= d / r); [| lra].
    apply (Rmult_le_reg_r r); [exact Hr |]. rewrite Hq. lra.
Qed.

Lemma linWeight_one_iff (h w y x : nat) :
  (0 < h)%nat -> (0 < w)%nat ->
  (linWeight h w y x = 1 <-> y = (h / 2)%nat /\ x = (w / 2)%nat).
Proof.
  intros Hh Hw.
  assert (Hr : 0 < INR (Nat.min h w) / 3).
  { assert (0 < INR (Nat.min h w)) by (apply lt_0_INR; lia). lra. }
  rewrite <- (distance_zero_iff (h / 2) (w / 2) y x). unfold linWeight.
  set (d := Spec.distance (INR (h / 2)) (INR (w / 2)) (INR y) (INR x)).
  set (r := INR (Nat.min h w) / 3) in *.
  assert (Hd : 0 <= d) by apply distance_nonneg.
  assert (Hq : d / r * r = d) by (field; lra).
  split.
  - intros H1. unfold Rmax in H1.
    destruct (Rle_dec 0 (1 - d / r)); [| lra].
    assert (d / r = 0) by lra. nra.
  - intros Hd0. rewrite Hd0. unfold Rdiv.
    rewrite Rmult_0_l, Rminus_0_r. apply Rmax_right. lra.
Qed.

Lemma luminance_bytes (red green blue : Z) :
  (0 <= red)%Z -> (0 <= green)%Z -> (0 <= blue)%Z ->
  (0 < red + green + blue)%Z ->
  luminance (IZR red / 255) (IZR green / 255) (IZR blue / 255) <> 0.
Proof.
  intros Hr Hg Hb Hs. unfold luminance.
  apply IZR_lt in Hs. rewrite !plus_IZR in Hs.
  apply IZR_le in Hr, Hg, Hb. lra.
Qed.

Lemma fixedWeight_positive (y x : nat) :
  Spec.distance 112 112 (INR y) (INR x) < 80 -> 0 < fixedWeight y x.
Proof.
  intros Hd. unfold fixedWeight.
  apply Rlt_le_trans with (1 - Spec.distance 112 112 (INR y) (INR x) / 80);
    [lra | apply Rmax_r].
Qed.

(** C3, as the code has it: for every uniform 224 x 224 input whose
    colour, given by its three bytes, is not black, and every vector of
    probabilities (empty or not), the regular branch runs and not the
    fallback.  The map that comes out lies in [0, 1], is 1 at the centre
    (112, 112) and nowhere else, and is 0 exactly at the cells whose
    distance from the centre is at least 224/3; where such a cell is
    closer than 80 to the centre, the fallback pattern is positive and so
    differs from the map. *)
Theorem C3_uniform_image_regular_branch (red green blue : Z) (ps : list R)
  (y x : nat) :
  (0 <= red <= 255)%Z -> (0 <= green <= 255)%Z -> (0 <= blue <= 255)%Z ->
  (0 < red + green + blue)%Z ->
  Forall (fun p => 0 <= p <= 1) ps ->
  (y < 224)%nat -> (x < 224)%nat ->
  exists ms v,
    saliencyMap
      (uniformInput 224 224 (IZR red / 255) (IZR green / 255)
                    (IZR blue / 255))
      (Fin <$> ps)
    = Some (mkTensor [224; 224]%nat ms) /\
    ms !! (y * 224 + x)%nat = Some (Fin v) /\
    0 <= v <= 1 /\
    (v = 1 <-> y = 112%nat /\ x = 112%nat) /\
    (v = 0 <-> 224 / 3 <= Spec.distance 112 112 (INR y) (INR x)) /\
    (224 / 3 <= Spec.distance 112 112 (INR y) (INR x) < 80 ->
     exists f, fixedPattern !! (y * 224 + x)%nat = Some (Fin f) /\ v < f).
Proof.
  intros [Hr _] [Hg _] [Hb _] Hlit _ Hy Hx.
  exists linearMaskMap, (linWeight 224 224 y x).
  pose proof (linWeight_zero_iff 224 224 y x ltac:(lia) ltac:(lia)) as Hz.
  pose proof (linWeight_one_iff 224 224 y x ltac:(lia) ltac:(lia)) as Ho.
  change (224 / 2)%nat with 112%nat in Hz, Ho.
  rewrite Nat.min_id, INR_112, INR_224 in Hz.
  split; [apply saliencyMap_lit_eq, luminance_bytes; assumption |].
  split; [apply linearMaskMap_lookup; assumption |].
  split; [apply linWeight_bounds |].
  split; [exact Ho |]. split; [exact Hz |].
  intros [Hfar Hnear]. exists (fixedWeight y x).
  split; [rewrite fixedPattern_lookup, fixedValue_Fin by assumption;
          reflexivity |].
  rewrite (proj2 Hz Hfar). apply fixedWeight_positive, Hnear.
Qed.

Lemma C3_uniform_image_regular_branch_witness :
  exists ms v,
    saliencyMap
      (uniformInput 224 224 (IZR 128 / 255) (IZR 128 / 255) (IZR 128 / 255))
      (Fin <$> confident)
    = Some (mkTensor [224; 224]%nat ms) /\
    ms !! (112 * 224 + 190)%nat = Some (Fin v) /\
    0 <= v <= 1 /\
    (v = 1 <-> 112%nat = 112%nat /\ 190%nat = 112%nat) /\
    (v = 0 <-> 224 / 3 <= Spec.distance 112 112 (INR 112) (INR 190)) /\
    (224 / 3 <= Spec.distance 112 112 (INR 112) (INR 190) < 80 ->
     exists f, fixedPattern !! (112 * 224 + 190)%nat = Some (Fin f) /\ v < f).
Proof.
  apply (C3_uniform_image_regular_branch 128 128 128 confident 112 190);
    try lia.
  unfold confident. repeat constructor; lra.
Defined.

(** ** C4 *)

Lemma clamp_inside (x lo hi : R) : lo <= x <= hi -> Spec.clamp x lo hi = x.
Proof.
  intros [H1 H2]. unfold Spec.clamp.
  rewrite Rmin_left by exact H2. apply Rmax_right. exact H1.
Qed.

Lemma clamp_over (x lo hi : R) : lo <= hi <= x -> Spec.clamp x lo hi = hi.
Proof.
  intros [H1 H2]. unfold Spec.clamp.
  rewrite Rmin_right by exact H2. apply Rmax_right. exact H1.
Qed.

Lemma blueByte_0 : blueByte 0 = 204%Z.
Proof.
  unfold blueByte. rewrite (clamp_inside (1 - 0 * 2)) by lra.
  rewrite clamp_inside by lra. apply Zfloor_eq. simpl. lra.
Qed.

Lemma spec_blue_0 : Spec.blue 0 = 230%Z.
Proof.
  unfold Spec.blue. rewrite (clamp_over (12 / 10 - 0 * 2)) by lra.
  rewrite clamp_inside by lra. apply Zfloor_eq. simpl. lra.
Qed.

Lemma spec_red_0 : Spec.red 0 = 0%Z.
Proof.
  unfold Spec.red, Spec.clamp.
  rewrite (Rmin_left ((0 - 2 / 10) * 2) 1) by lra.
  rewrite (Rmax_left 0 ((0 - 2 / 10) * 2)) by lra.
  rewrite (Rmin_left (0 * 255 * (13 / 10)) 255) by lra.
  rewrite Rmax_left by lra. apply Zfloor_eq. simpl. lra.
Qed.

Lemma spec_green_0 : Spec.green 0 = 0%Z.
Proof.
  unfold Spec.green. rewrite (clamp_inside (0 * (18 / 10))) by lra.
  rewrite clamp_inside by lra. apply Zfloor_eq. simpl. lra.
Qed.

Lemma spec_alpha_0 : Spec.alpha 0 = 115%Z.
Proof.
  unfold Spec.alpha. rewrite spec_red_0, spec_green_0, spec_blue_0.
  change (0 + 0 + 230)%Z with 230%Z. rewrite Rmin_right by lra.
  apply Zfloor_eq. simpl. lra.
Qed.

(** C4, counterexample: the saliency map of the gray image is 0 at its
    first pixel; there the code writes blue 204 and alpha 200, where the
    specification's constants give blue 230 and alpha 115. *)
Lemma C4_colour_constants_differ :
  linearMaskMap !! (0 * 224 + 0)%nat = Some (Fin 0) /\
  imageData (colorArray linearMaskMap) !! (0 * 4 + 2)%nat
  <> Some (Spec.blue 0) /\
  imageData (colorArray linearMaskMap) !! (0 * 4 + 3)%nat
  <> Some (Spec.alpha 0).
Proof.
  assert (H0 : linearMaskMap !! (0 * 224 + 0)%nat = Some (Fin 0)).
  { rewrite linearMaskMap_lookup, linWeight_corner by lia. reflexivity. }
  split; [exact H0 |].
  destruct (imageData_pixel linearMaskMap 0 0) as (_ & _ & Hb & Ha);
    [lia | exact H0 |].
  rewrite Hb, Ha, blueByte_0, spec_blue_0, spec_alpha_0.
  split; discriminate.
Qed.

Lemma round_near (x : R) : Rabs (IZR (Spec.round x) - x) < 1.
Proof.
  unfold Spec.round. pose proof (Zfloor_bound (x + 1 / 2)) as [H1 H2].
  apply Rabs_def1; lra.
Qed.

Lemma redByte_range (v : R) : (0 <= redByte v <= 255)%Z.
Proof. apply round_byte, clamp_bounds. lra. Qed.

Lemma greenByte_range (v : R) : (0 <= greenByte v <= 255)%Z.
Proof. apply round_byte, clamp_bounds. lra. Qed.

Lemma blueByte_range (v : R) : (0 <= blueByte v <= 255)%Z.
Proof. apply round_byte, clamp_bounds. lra. Qed.

(** C4, as the code has it: for a finite saliency value [v] at pixel
    [i] the colour values are [clamp((v - 0.3) * 2.5, 0, 1)],
    [clamp(v * 1.5, 0, 1)] and [clamp(1 - v * 2, 0, 1)], each multiplied
    by 255, with the gains red x1.2 and blue x0.8 (green has none), and
    clamped to [0, 255].  The three bytes written are these values
    rounded to an integer: each is a byte that differs from its value by
    less than 1.  Alpha is the constant 200. *)
Theorem C4_colour_transfer (vs : list num) (i : nat) (v : R) :
  (i < 224 * 224)%nat -> vs !! i = Some (Fin v) ->
  exists r g b : Z,
    imageData (colorArray vs) !! (i * 4)%nat = Some r /\
    imageData (colorArray vs) !! (i * 4 + 1)%nat = Some g /\
    imageData (colorArray vs) !! (i * 4 + 2)%nat = Some b /\
    imageData (colorArray vs) !! (i * 4 + 3)%nat = Some 200%Z /\
    (0 <= r <= 255)%Z /\ (0 <= g <= 255)%Z /\ (0 <= b <= 255)%Z /\
    Rabs (IZR r
          - Spec.clamp
              (Spec.clamp ((v - 3 / 10) * (25 / 10)) 0 1 * 255 * (12 / 10))
              0 255) < 1 /\
    Rabs (IZR g - Spec.clamp (Spec.clamp (v * (15 / 10)) 0 1 * 255) 0 255)
    < 1 /\
    Rabs (IZR b
          - Spec.clamp (Spec.clamp (1 - v * 2) 0 1 * 255 * (8 / 10)) 0 255)
    < 1.
Proof.
  intros Hi Hv. exists (redByte v), (greenByte v), (blueByte v).
  destruct (imageData_pixel vs i v Hi Hv) as (Hr & Hg & Hb & Ha).
  split; [exact Hr |]. split; [exact Hg |]. split; [exact Hb |].
  split; [exact Ha |].
  split; [apply redByte_range |]. split; [apply greenByte_range |].
  split; [apply blueByte_range |].
  split; [apply round_near |]. split; apply round_near.
Qed.

Lemma C4_colour_transfer_witness :
  exists r g b : Z,
    imageData (colorArray [Fin 1]) !! (0 * 4)%nat = Some r /\
    imageData (colorArray [Fin 1]) !! (0 * 4 + 1)%nat = Some g /\
    imageData (colorArray [Fin 1]) !! (0 * 4 + 2)%nat = Some b /\
    imageData (colorArray [Fin 1]) !! (0 * 4 + 3)%nat = Some 200%Z /\
    (0 <= r <= 255)%Z /\ (0 <= g <= 255)%Z /\ (0 <= b <= 255)%Z /\
    Rabs (IZR r
          - Spec.clamp
              (Spec.clamp ((1 - 3 / 10) * (25 / 10)) 0 1 * 255 * (12 / 10))
              0 255) < 1 /\
    Rabs (IZR g - Spec.clamp (Spec.clamp (1 * (15 / 10)) 0 1 * 255) 0 255)
    < 1 /\
    Rabs (IZR b
          - Spec.clamp (Spec.clamp (1 - 1 * 2) 0 1 * 255 * (8 / 10)) 0 255)
    < 1.
Proof. apply (C4_colour_transfer [Fin 1] 0 1); [lia | reflexivity]. Defined.

(** ** C5 *)

(** The colour buffer is computed from the saliency map. *)
Lemma generateGradCAM_saliencyMap (t : Tensor) (preds : list num) :
  generateGradCAM t preds
  = (m ← saliencyMap t preds; Some (imageData (colorArray (values m)))).
Proof.
  unfold generateGradCAM, saliencyMap.
  destruct (heatmap t preds); reflexivity.
Qed.

(** C5, counterexample: with an empty vector the synthesizer raises no
    error; for the gray image it returns a saliency map, which is 1 at
    the centre, and a colour buffer. *)
Lemma C5_empty_vector_accepted :
  exists ms data,
    saliencyMap grayInput [] = Some (mkTensor [224; 224]%nat ms) /\
    ms !! (112 * 224 + 112)%nat = Some (Fin 1) /\
    generateGradCAM grayInput [] = Some data.
Proof.
  exists linearMaskMap, (imageData (colorArray linearMaskMap)).
  assert (Hs : saliencyMap grayInput []
               = Some (mkTensor [224; 224]%nat linearMaskMap)).
  { unfold grayInput.
    apply (saliencyMap_lit_eq (1 / 2) (1 / 2) (1 / 2) []).
    rewrite luminance_gray. lra. }
  split; [exact Hs |]. split.
  - rewrite linearMaskMap_lookup by lia.
    rewrite linWeight_centre. reflexivity.
  - rewrite generateGradCAM_saliencyMap, Hs.
    cbn [mbind option_bind values]. reflexivity.
Qed.

Lemma imageData_length (colors : list num) :
  length (imageData colors) = (224 * 224 * 4)%nat.
Proof.
  unfold imageData.
  rewrite (pixel_loop_length
             (fun i => ToUint8Clamp
                         (byteOf (mul (element colors (i * 3))
                                      (Fin (12 / 10)))))
             (fun i => ToUint8Clamp (byteOf (element colors (i * 3 + 1))))
             (fun i => ToUint8Clamp
                         (byteOf (mul (element colors (i * 3 + 2))
                                      (Fin (8 / 10)))))
             (fun _ => 200%Z)).
  apply length_replicate.
Qed.

(** [generateGradCAM] returns a 224 x 224 RGBA buffer for every input of
    shape [[1; h; w; c]]. *)
Lemma generateGradCAM_defined (h w c : nat) (vs preds : list num) :
  exists data,
    generateGradCAM (mkTensor [1%nat; h; w; c] vs) preds = Some data
    /\ length data = (224 * 224 * 4)%nat.
Proof.
  unfold generateGradCAM.
  destruct (heatmap_defined h w c vs preds) as [hv ->].
  cbn [mbind option_bind].
  destruct (normalizedHeatmap_defined h w hv) as [ms ->].
  cbn [mbind option_bind]. eexists. split; [reflexivity |].
  apply imageData_length.
Qed.

(** A batch dimension other than 1 makes [squeeze] throw. *)
Lemma heatmap_batch (n h w c : nat) (vs preds : list num) :
  n <> 1%nat -> heatmap (mkTensor [n; h; w; c] vs) preds = None.
Proof.
  intros Hn. unfold heatmap, squeeze0. cbn [shape].
  destruct n as [| [| n]]; [reflexivity | congruence | reflexivity].
Qed.

(** C5, as the code has it: an empty vector raises no error.
    [Math.max()] of nothing is [-Infinity], so the boost takes its floor
    0.3, and both the saliency map and the colour buffer are produced for
    every input of shape [[1; 224; 224; 3]]. *)
Theorem C5_empty_vector_uses_floor (vs : list num) :
  confidenceBoost [] = Fin (3 / 10) /\
  (exists ms, saliencyMap (mkTensor [1; 224; 224; 3]%nat vs) []
              = Some (mkTensor [224; 224]%nat ms)) /\
  (exists data, generateGradCAM (mkTensor [1; 224; 224; 3]%nat vs) []
                = Some data /\ length data = (224 * 224 * 4)%nat).
Proof.
  split; [apply confidenceBoost_nil |]. split.
  - apply saliencyMap_defined.
  - apply generateGradCAM_defined.
Qed.

(** ** C6 *)

(** C6, counterexample: a [[1; 100; 100; 3]] tensor is accepted, and the
    map that comes out is 224 x 224. *)
Lemma C6_other_size_accepted :
  exists ms,
    saliencyMap
      (mkTensor [1; 100; 100; 3]%nat (replicate (100 * 100 * 3) (Fin (1 / 2))))
      (Fin <$> confident)
    = Some (mkTensor [224; 224]%nat ms).
Proof. apply saliencyMap_defined. Qed.

(** C6, as the code has it: the synthesizer does not compare its input
    with [[1; 224; 224; 3]].  A tensor of shape [[1; h; w; c]] with at
    most 224 x 224 cells per channel is accepted, whatever [h], [w] and
    [c], with any vector of at most 224 x 224 scores: the mask is built
    at [h x w] and the result is brought to 224 x 224.  A batch dimension
    other than 1 makes [squeeze] throw; the exception is caught and
    reported as [null]. *)
Theorem C6_any_size_accepted (h w c : nat) (vs preds : list num) :
  (0 < h)%nat -> (0 < w)%nat -> (0 < c)%nat ->
  (h * w <= 224 * 224)%nat -> (length preds <= 224 * 224)%nat ->
  (exists ms, saliencyMap (mkTensor [1%nat; h; w; c] vs) preds
              = Some (mkTensor [224; 224]%nat ms)) /\
  (exists data, generateGradCAM (mkTensor [1%nat; h; w; c] vs) preds
                = Some data /\ length data = (224 * 224 * 4)%nat) /\
  (forall n, n <> 1%nat ->
             saliencyMap (mkTensor [n; h; w; c] vs) preds = None /\
             generateGradCAM (mkTensor [n; h; w; c] vs) preds = None).
Proof.
  intros _ _ _ _ _.
  split; [apply saliencyMap_defined |].
  split; [apply generateGradCAM_defined |].
  intros n Hn. unfold saliencyMap, generateGradCAM.
  rewrite heatmap_batch by exact Hn. split; reflexivity.
Qed.

Lemma C6_any_size_accepted_witness :
  exists data,
    generateGradCAM
      (mkTensor [1; 100; 100; 3]%nat (replicate (100 * 100 * 3) (Fin (1 / 2))))
      (Fin <$> confident) = Some data /\
    length data = (224 * 224 * 4)%nat.
Proof.
  apply (C6_any_size_accepted 100 100 3
           (replicate (100 * 100 * 3) (Fin (1 / 2))) (Fin <$> confident));
    try lia.
  change (length (Fin <$> confident)) with 3%nat. lia.
Defined.

(** ** C7 *)

(** C7, the code at the failing input: for the all-black 224 x 224
    image the division of line 304 is [0 / 0]; no element is treated as
    0, the raw map is [NaN] at every position, and so is the saliency
    map that comes out. *)
Theorem C7_black_image_yields_NaN (preds : list num) :
  heatmap (uniformInput 224 224 0 0 0) preds
  = Some (mkTensor [224; 224]%nat (replicate (224 * 224) NaN)) /\
  saliencyMap (uniformInput 224 224 0 0 0) preds
  = Some (mkTensor [224; 224]%nat (replicate (224 * 224) NaN)).
Proof.
  split; [apply heatmap_black; lia | apply saliencyMap_black].
Qed.

(** ** C8 *)

(** C8: a solid gray 300 x 300 image (any gray level from 1 to 255), fed
    through [preprocessImage] and the synthesizer with any vector of
    finite scores, gives a map whose value at (112, 112) is strictly
    greater than its value at (0, 0); the two values are 1 and 0. *)
Theorem C8_gray_image_centre_above_corner (gray : Z) (ps : list R) :
  (0 < gray <= 255)%Z ->
  exists t ms centre corner,
    preprocessImage (solidImage 300 300 gray) = Some t /\
    saliencyMap t (Fin <$> ps) = Some (mkTensor [224; 224]%nat ms) /\
    ms !! (112 * 224 + 112)%nat = Some (Fin centre) /\
    ms !! (0 * 224 + 0)%nat = Some (Fin corner) /\
    corner < centre.
Proof.
  intros [Hpos _].
  assert (Hg : IZR gray / 255 <> 0).
  { apply IZR_lt in Hpos. lra. }
  eexists _, linearMaskMap, 1, 0.
  split; [apply preprocessImage_solid; lia |].
  split; [apply saliencyMap_lit_eq; rewrite luminance_gray; exact Hg |].
  split; [rewrite linearMaskMap_lookup, linWeight_centre by lia; reflexivity |].
  split; [rewrite linearMaskMap_lookup, linWeight_corner by lia; reflexivity |].
  lra.
Qed.

Lemma C8_gray_image_centre_above_corner_witness :
  exists t ms centre corner,
    preprocessImage (solidImage 300 300 128) = Some t /\
    saliencyMap t (Fin <$> confident) = Some (mkTensor [224; 224]%nat ms) /\
    ms !! (112 * 224 + 112)%nat = Some (Fin centre) /\
    ms !! (0 * 224 + 0)%nat = Some (Fin corner) /\
    corner < centre.
Proof.
  apply (C8_gray_image_centre_above_corner 128 confident). lia.
Defined.

(** ** C9 *)

(** C9, counterexample: a score of 1.5 is reported as it is, and gives
    the boost 3, not the boost 2 of the clamped score 1. *)
Lemma C9_scores_not_clamped :
  mkPrediction "グー" (Fin (3 / 2))
    ∈ results (Fin <$> [3 / 2; 1 / 5; 1 / 10]) /\
  confidenceBoost (Fin <$> [3 / 2; 1 / 5; 1 / 10])
  <> confidenceBoost (Fin <$> [1; 1 / 5; 1 / 10]).
Proof.
  split.
  - rewrite results_perm. left.
  - rewrite !confidenceBoost_boostOf. simpl boostOf. intros [= H].
    revert H. unfold Rmax. case_R; lra.
Qed.

(** C9, as the code has it: the scores of the classifier are used as
    they are returned.  The reported confidences are the first three
    scores, unchanged; the heat map is generated from the same unchanged
    vector, and its boost is computed from the raw scores; nothing clamps
    a score to [0, 1]. *)
Theorem C9_scores_passed_unclamped :
  (forall predictionData : list num,
      confidence <$> results predictionData ≡ₚ take 3 predictionData) /\
  (forall img predictionData reported gradcam,
      runInference img predictionData = Some (reported, gradcam) ->
      reported = results predictionData /\
      exists inputTensor,
        preprocessImage img = Some inputTensor /\
        gradcam = generateGradCAM inputTensor predictionData) /\
  (forall ps : list R, confidenceBoost (Fin <$> ps) = Fin (boostOf ps)).
Proof.
  split; [| split].
  - intros pd. rewrite results_perm. rewrite labelled_confidence. reflexivity.
  - intros img pd reported gradcam. unfold runInference.
    destruct (preprocessImage img) as [t |]; [| discriminate].
    cbn [mbind option_bind]. intros [= <- <-].
    split; [reflexivity |]. exists t. split; reflexivity.
  - apply confidenceBoost_boostOf.
Qed.

(** ** C10 *)

(** C10: for every vector of finite scores, the reported list has at
    most 3 entries, holds the first 3 scores each with the label of its
    position, and is in non-increasing order of confidence. *)
Theorem C10_predictions_three_sorted (ps : list R) :
  (length (results (Fin <$> ps)) <= 3)%nat /\
  results (Fin <$> ps) ≡ₚ labelled (Fin <$> ps) /\
  StronglySorted noLess (results (Fin <$> ps)).
Proof.
  split; [| split].
  - rewrite (Permutation_length (results_perm (Fin <$> ps))).
    apply labelled_length.
  - apply results_perm.
  - unfold results. rewrite labelled_first_three.
    apply Array_sort_sorted, labelled_finite.
Qed.

End Claims.

(** * Further properties of [generateGradCAM] and [runInference] *)

Section MaskShape.

Local Open Scope R_scope.

Lemma linWeight_at_centre (h w : nat) :
  (0 < h)%nat -> (0 < w)%nat -> linWeight h w (h / 2) (w / 2) = 1.
Proof.
  intros Hh Hw. unfold linWeight. rewrite distance_self.
  unfold Rdiv at 1. rewrite Rmult_0_l. rewrite Rmax_right by lra. lra.
Qed.

Lemma centerMask_cell (h w : nat) (b : R) (y x : nat) :
  (y < h)%nat -> (x < w)%nat ->
  centerMask h w (Fin b) !! (y * w + x)%nat
  = Some (Fin (linWeight h w y x * b)).
Proof.
  intros Hy Hx. rewrite centerMask_lookup, maskWeight_Fin by lia.
  reflexivity.
Qed.

(** X1: whatever the size of the mask, its cells are finite, never
    negative and never above the cell at
    [(floor(height/2), floor(width/2))], where the boost is stored: the
    centre cell holds the greatest value of the mask. *)
Theorem mask_bounded_with_peak (h w : nat) (b : R) :
  (0 < h)%nat -> (0 < w)%nat -> 0 <= b <= 2 ->
  length (centerMask h w (Fin b)) = (h * w)%nat /\
  exists top,
    centerMask h w (Fin b) !! ((h / 2) * w + w / 2)%nat = Some (Fin top) /\
    Forall (between 0 top) (centerMask h w (Fin b)).
Proof.
  intros Hh Hw [Hb _]. split; [apply centerMask_length |]. exists b. split.
  - assert (Hy : (h / 2 < h)%nat) by (apply Nat.div_lt; lia).
    assert (Hx : (w / 2 < w)%nat) by (apply Nat.div_lt; lia).
    rewrite centerMask_cell by assumption.
    rewrite linWeight_at_centre by assumption. do 2 f_equal. lra.
  - apply Forall_lookup. intros i v Hv.
    pose proof (lookup_lt_Some _ _ _ Hv) as Hi.
    rewrite centerMask_length in Hi.
    destruct (grid_index w i Hw) as [Hidx Hx].
    assert (Hy : (i / w < h)%nat)
      by (apply Nat.Div0.div_lt_upper_bound; lia).
    rewrite Hidx, centerMask_cell in Hv by assumption.
    injection Hv as <-.
    pose proof (linWeight_bounds h w (i / w) (i mod w)).
    eexists; split; [reflexivity | nra].
Qed.

Lemma mask_bounded_with_peak_witness :
  length (centerMask 224 224 (Fin 1)) = (224 * 224)%nat /\
  exists top,
    centerMask 224 224 (Fin 1) !! ((224 / 2) * 224 + 224 / 2)%nat
    = Some (Fin top) /\
    Forall (between 0 top) (centerMask 224 224 (Fin 1)).
Proof.
  apply (mask_bounded_with_peak 224 224 1); [lia | lia | lra].
Defined.

(** X2: with a positive boost, a cell of the mask is 0 exactly when its
    distance to the centre is at least the radius [min(height,width)/3];
    inside the radius the cell is positive. *)
Theorem mask_support (h w : nat) (b : R) (y x : nat) :
  (y < h)%nat -> (x < w)%nat -> 0 < b ->
  exists c,
    centerMask h w (Fin b) !! (y * w + x)%nat = Some (Fin c) /\
    0 <= c /\
    (c = 0 <->
     INR (Nat.min h w) / 3
     <= Spec.distance (INR (h / 2)) (INR (w / 2)) (INR y) (INR x)).
Proof.
  intros Hy Hx Hb. exists (linWeight h w y x * b).
  split; [apply centerMask_cell; assumption |].
  pose proof (linWeight_bounds h w y x) as [H0 _].
  split; [nra |].
  assert (Hr : 0 < INR (Nat.min h w) / 3).
  { assert (0 < INR (Nat.min h w)) by (apply lt_0_INR; lia). lra. }
  unfold linWeight in *.
  set (d := Spec.distance (INR (h / 2)) (INR (w / 2)) (INR y) (INR x)) in *.
  set (r := INR (Nat.min h w) / 3) in *.
  assert (Hq : d / r * r = d) by (field; lra).
  split.
  - intros Hc.
    assert (Hz : Rmax 0 (1 - d / r) = 0) by nra.
    pose proof (Rmax_r 0 (1 - d / r)) as Hm. rewrite Hz in Hm.
    nra.
  - intros Hd. rewrite Rmax_left; [lra |].
    assert (1 <= d / r).
    { apply (Rmult_le_reg_r r); [exact Hr |]. rewrite Hq. lra. }
    lra.
Qed.

Lemma mask_support_witness :
  exists c,
    centerMask 224 224 (Fin 1) !! (0 * 224 + 0)%nat = Some (Fin c) /\
    0 <= c /\
    (c = 0 <->
     INR (Nat.min 224 224) / 3
     <= Spec.distance (INR (224 / 2)) (INR (224 / 2)) (INR 0) (INR 0)).
Proof.
  apply (mask_support 224 224 1 0 0); [lia | lia | lra].
Defined.

End MaskShape.

Section FixedPattern.

Local Open Scope R_scope.

Lemma fixedWeight_bounds (y x : nat) : 0 <= fixedWeight y x <= 1.
Proof.
  unfold fixedWeight. split; [apply Rmax_l |].
  apply Rmax_lub; [lra |].
  pose proof (distance_nonneg 112 112 (INR y) (INR x)). lra.
Qed.

(** X3: the fixed pattern of lines 344-352 holds, at every row [y] and
    column [x] of its 224 x 224 cells, the value
    [max(0, 1 - distance/80)] for the distance to (112, 112); the value
    is between 0 and 1, it is 1 at (112, 112), and 0 at 80 pixels or more
    from it. *)
Theorem fixedPattern_cells (y x : nat) :
  (y < 224)%nat -> (x < 224)%nat ->
  length fixedPattern = (224 * 224)%nat /\
  fixedPattern !! (y * 224 + x)%nat
  = Some (Fin (Rmax 0 (1 - Spec.distance 112 112 (INR y) (INR x) / 80))) /\
  0 <= Rmax 0 (1 - Spec.distance 112 112 (INR y) (INR x) / 80) <= 1 /\
  (80 <= Spec.distance 112 112 (INR y) (INR x) ->
   fixedPattern !! (y * 224 + x)%nat = Some (Fin 0)) /\
  fixedPattern !! (112 * 224 + 112)%nat = Some (Fin 1).
Proof.
  intros Hy Hx. split; [apply fixedPattern_length |].
  split; [rewrite fixedPattern_lookup, fixedValue_Fin by assumption;
          reflexivity |].
  split; [apply fixedWeight_bounds |]. split.
  - intros Hd. rewrite fixedPattern_lookup, fixedValue_Fin by assumption.
    unfold fixedWeight. rewrite Rmax_left by lra. reflexivity.
  - rewrite fixedPattern_lookup, fixedValue_Fin by lia.
    unfold fixedWeight. rewrite INR_112, distance_self.
    rewrite Rmax_right by lra. do 2 f_equal. lra.
Qed.

Lemma fixedPattern_cells_witness :
  fixedPattern !! (0 * 224 + 0)%nat
  = Some (Fin (Rmax 0 (1 - Spec.distance 112 112 (INR 0) (INR 0) / 80))).
Proof.
  apply (fixedPattern_cells 0 0); lia.
Defined.

End FixedPattern.

Section Normalisation.

Local Open Scope R_scope.

Lemma Math_min_replicate (n : nat) (v : R) :
  Math_min (replicate (S n) (Fin v)) = Fin v.
Proof.
  apply Math_min_attained.
  - left.
  - apply Forall_replicate. exists v; split; [reflexivity | lra].
Qed.

Lemma normalizedHeatmap_constant (h w n : nat) (c : R) :
  normalizedHeatmap (mkTensor [h; w] (replicate (S n) (Fin c)))
  = Some (mkTensor [224; 224]%nat fixedPattern).
Proof.
  apply normalizedHeatmap_fixed. cbn [values].
  rewrite Math_min_replicate, Math_max_replicate.
  unfold sub; cbn [neg add strict_eq].
  destruct (Req_dec_T (c + - c) 0) as [_ | H]; [reflexivity | lra].
Qed.

(** X4: a raw map of at most 224 x 224 cells, all of whose values are
    one finite number, is replaced by the fixed pattern, whatever that
    number and whatever the shape of the map: the replacement is always
    224 x 224. *)
Theorem constant_map_replaced (h w : nat) (c : R) :
  (0 < h * w <= 224 * 224)%nat ->
  normalizedHeatmap (mkTensor [h; w] (replicate (h * w) (Fin c)))
  = Some (mkTensor [224; 224]%nat fixedPattern).
Proof.
  intros [Hpos _]. destruct (h * w)%nat as [| n]; [lia |].
  apply normalizedHeatmap_constant.
Qed.

Lemma constant_map_replaced_witness :
  normalizedHeatmap (mkTensor [2; 3]%nat (replicate (2 * 3) (Fin 7)))
  = Some (mkTensor [224; 224]%nat fixedPattern).
Proof. apply (constant_map_replaced 2 3 7). lia. Defined.

Lemma Math_min_is_min (m : R) (rs : list R) :
  is_min m rs -> Math_min (Fin <$> rs) = Fin m.
Proof.
  intros [Hin Hall]. apply Math_min_attained.
  - apply list_elem_of_fmap. exists m. split; [reflexivity | exact Hin].
  - apply Forall_fmap. eapply Forall_impl; [exact Hall |].
    intros r Hr. exists r. split; [reflexivity | exact Hr].
Qed.

Lemma Fin_list_no_inf (rs : list R) : Forall no_inf (Fin <$> rs).
Proof. apply Forall_fmap, Forall_forall. intros r _. apply Fin_no_inf. Qed.

(** The rescaling of lines 355-359 on a finite 224 x 224 map. *)
Lemma normalizedHeatmap_finite (rs : list R) (lo hi : R) :
  length rs = (224 * 224)%nat -> is_min lo rs -> is_max hi rs -> lo <> hi ->
  normalizedHeatmap (mkTensor [224; 224]%nat (Fin <$> rs))
  = Some (mkTensor [224; 224]%nat
            (Fin <$> ((fun r => (r - lo) / (hi - lo)) <$> rs))).
Proof.
  intros Hlen Hlo Hhi Hne.
  rewrite normalizedHeatmap_rescaled.
  - rewrite (Math_min_is_min lo rs Hlo), (Math_max_is_max hi rs Hhi).
    do 2 f_equal. rewrite !map_fmap, <- !list_fmap_compose.
    apply list_fmap_ext. intros _ r _. cbn.
    destruct (Req_dec_T (hi + - lo) 0) as [H | _]; [lra | reflexivity].
  - rewrite length_fmap. exact Hlen.
  - apply Fin_list_no_inf.
  - rewrite (Math_min_is_min lo rs Hlo), (Math_max_is_max hi rs Hhi).
    unfold sub; cbn [neg add]. apply strict_eq_Fin_false. lra.
Qed.

(** X5: a finite 224 x 224 raw map that is not constant is rescaled to
    [(value - min) / (max - min)]: every value of the result lies in
    [0, 1], and both 0 and 1 occur in it. *)
Theorem normalised_map_in_unit_range (rs : list R) (lo hi : R) :
  length rs = (224 * 224)%nat -> is_min lo rs -> is_max hi rs -> lo <> hi ->
  exists out,
    normalizedHeatmap (mkTensor [224; 224]%nat (Fin <$> rs))
    = Some (mkTensor [224; 224]%nat (Fin <$> out)) /\
    out = (fun r => (r - lo) / (hi - lo)) <$> rs /\
    Forall (fun v => 0 <= v <= 1) out /\
    0 ∈ out /\ 1 ∈ out.
Proof.
  intros Hlen Hlo Hhi Hne. eexists. split; [| split; [reflexivity |]].
  - apply normalizedHeatmap_finite; assumption.
  - destruct Hlo as [Hlo_in Hlo_all], Hhi as [Hhi_in Hhi_all].
    assert (Hlt : lo < hi).
    { rewrite Forall_forall in Hlo_all. specialize (Hlo_all hi Hhi_in). lra. }
    split; [| split].
    + apply Forall_fmap, Forall_forall. intros r Hr.
      rewrite Forall_forall in Hlo_all, Hhi_all.
      specialize (Hlo_all r Hr). specialize (Hhi_all r Hr). cbn.
      split.
      * apply Rmult_le_pos; [lra |]. left. apply Rinv_0_lt_compat. lra.
      * apply (Rmult_le_reg_r (hi - lo)); [lra |].
        unfold Rdiv. rewrite Rmult_assoc, Rinv_l by lra. lra.
    + apply list_elem_of_fmap. exists lo. split; [| exact Hlo_in].
      unfold Rdiv. lra.
    + apply list_elem_of_fmap. exists hi. split; [| exact Hhi_in].
      field. lra.
Qed.

Lemma normalised_map_in_unit_range_witness :
  exists out,
    normalizedHeatmap
      (mkTensor [224; 224]%nat (Fin <$> (replicate (224 * 224 - 1) 0 ++ [1])))
    = Some (mkTensor [224; 224]%nat (Fin <$> out)) /\
    out = (fun r => (r - 0) / (1 - 0)) <$> (replicate (224 * 224 - 1) 0 ++ [1]) /\
    Forall (fun v => 0 <= v <= 1) out /\
    0 ∈ out /\ 1 ∈ out.
Proof.
  apply (normalised_map_in_unit_range (replicate (224 * 224 - 1) 0 ++ [1]) 0 1).
  - rewrite length_app, length_replicate. simpl length. lia.
  - split.
    + apply elem_of_app. left. apply elem_of_replicate. split; [reflexivity | lia].
    + apply Forall_app. split; [apply Forall_replicate; lra |].
      repeat constructor; lra.
  - split.
    + apply elem_of_app. right. left.
    + apply Forall_app. split; [apply Forall_replicate; lra |].
      repeat constructor; lra.
  - lra.
Defined.

End Normalisation.

Section DarkCentre.

Local Open Scope R_scope.

Lemma chunkMeans_pixels (px : nat -> R * R * R) (a n : nat) :
  chunkMeans 3 n
    (concat (map (fun i => [Fin (px i).1.1; Fin (px i).1.2; Fin (px i).2])
                 (seq a n)))
  = map (fun i => Fin (lum px i)) (seq a n).
Proof.
  revert a; induction n as [| n IH]; intros a; [reflexivity |].
  cbn [seq map concat chunkMeans].
  change (take 3 ([Fin (px a).1.1; Fin (px a).1.2; Fin (px a).2] ++ ?l))
    with [Fin (px a).1.1; Fin (px a).1.2; Fin (px a).2].
  change (drop 3 ([Fin (px a).1.1; Fin (px a).1.2; Fin (px a).2] ++ ?l))
    with l.
  rewrite IH, mean_rgb. reflexivity.
Qed.

(** The raw map of an image given pixel by pixel. *)
Lemma heatmap_pixels (h w : nat) (px : nat -> R * R * R) (ps : list R)
  (m : R) :
  (0 < h)%nat -> (0 < w)%nat ->
  is_max m (lum px <$> seq 0 (h * w)) -> m <> 0 ->
  exists hv,
    heatmap (pixelTensor h w px) (Fin <$> ps) = Some (mkTensor [h; w] hv) /\
    length hv = (h * w)%nat /\
    forall y x, (y < h)%nat -> (x < w)%nat ->
      hv !! (y * w + x)%nat
      = Some (Fin (lum px (y * w + x) / m * (linWeight h w y x * boostOf ps))).
Proof.
  intros Hh Hw Hm Hne.
  unfold heatmap, pixelTensor, squeeze0, tf_mean_axis2, tf_max.
  cbn [mbind option_bind shape values].
  unfold tf_mul, tf_div; cbn [shape values].
  rewrite chunkMeans_pixels, !map_fmap.
  rewrite (list_fmap_compose (lum px) Fin), (Math_max_is_max m _ Hm).
  eexists. split; [reflexivity |]. split.
  - rewrite length_zip_with, !length_fmap, length_seq, centerMask_length. lia.
  - intros y x Hy Hx. rewrite lookup_zip_with, !list_lookup_fmap.
    rewrite lookup_seq_lt by nia. cbn [fmap option_fmap option_map mbind option_bind].
    rewrite centerMask_lookup by assumption.
    rewrite confidenceBoost_boostOf, maskWeight_Fin by assumption.
    cbn [mbind option_bind]. rewrite div_Fin by exact Hne. reflexivity.
Qed.

(** X6: an image that is black wherever the mask is positive, but lit
    somewhere else, gets the fixed pattern: its raw map is 0 everywhere,
    so the range is 0.  This holds whatever the scores. *)
Theorem dark_centre_gets_fixed_pattern (px : nat -> R * R * R)
  (ps : list R) (j : nat) :
  (j < 224 * 224)%nat -> 0 < lum px j ->
  (forall y x, (y < 224)%nat -> (x < 224)%nat ->
               0 < linWeight 224 224 y x -> lum px (y * 224 + x) = 0) ->
  saliencyMap (pixelTensor 224 224 px) (Fin <$> ps)
  = Some (mkTensor [224; 224]%nat fixedPattern).
Proof.
  intros Hj Hlit Hdark.
  destruct (is_max_exists (lum px <$> seq 0 (224 * 224))) as [m Hm].
  { intros Hnil. apply (f_equal length) in Hnil.
    rewrite length_fmap, length_seq in Hnil. simpl length in Hnil. lia. }
  assert (Hpos : 0 < m).
  { destruct Hm as [_ Hall]. rewrite Forall_forall in Hall.
    assert (lum px j <= m); [| lra].
    apply Hall, list_elem_of_fmap. exists j. split; [reflexivity |].
    apply elem_of_seq. lia. }
  destruct (heatmap_pixels 224 224 px ps m) as (hv & Hh & Hlen & Hlook);
    [lia | lia | exact Hm | lra |].
  unfold saliencyMap. rewrite Hh. cbn [mbind option_bind].
  assert (Hzero : hv = replicate (S (224 * 224 - 1)) (Fin 0)).
  { apply list_eq. intros i.
    destruct (decide (i < 224 * 224)%nat) as [Hi | Hi].
    - rewrite lookup_replicate_2 by lia.
      destruct (grid_index 224 i ltac:(lia)) as [Hidx Hx].
      assert (Hy : (i / 224 < 224)%nat)
        by (apply Nat.Div0.div_lt_upper_bound; lia).
      rewrite Hidx at 1. rewrite Hlook by assumption. do 2 f_equal.
      pose proof (linWeight_bounds 224 224 (i / 224) (i mod 224)) as [H0 _].
      destruct (Rle_lt_or_eq_dec _ _ H0) as [Hgt | Heq].
      + rewrite (Hdark _ _ Hy Hx Hgt). unfold Rdiv. ring.
      + rewrite <- Heq. ring.
    - rewrite (proj2 (lookup_ge_None hv i)) by lia.
      symmetry. apply lookup_ge_None. rewrite length_replicate. lia. }
  rewrite Hzero. apply normalizedHeatmap_constant.
Qed.

Lemma lum_cornerLit_0 : lum cornerLit 0 = 1.
Proof. unfold lum, cornerLit, luminance. simpl. lra. Qed.

Lemma dark_centre_gets_fixed_pattern_witness :
  saliencyMap (pixelTensor 224 224 cornerLit) (Fin <$> confident)
  = Some (mkTensor [224; 224]%nat fixedPattern).
Proof.
  apply (dark_centre_gets_fixed_pattern cornerLit confident 0).
  - lia.
  - rewrite lum_cornerLit_0. lra.
  - intros y x Hy Hx Hw. unfold lum, cornerLit.
    destruct (y * 224 + x =? 0)%nat eqn:E.
    + apply Nat.eqb_eq in E.
      assert (y = 0%nat) by lia. assert (x = 0%nat) by lia. subst.
      rewrite linWeight_corner in Hw. lra.
    + unfold luminance. simpl. lra.
Defined.

End DarkCentre.

Section Overlay.

Local Open Scope R_scope.

(** X7: for the all-black image the colour buffer that comes out is
    opaque black: every pixel is (0, 0, 0) with alpha 200, whatever the
    scores.  (The saliency is NaN there, and NaN is stored as 0.) *)
Theorem black_image_overlay (preds : list num) (i : nat) :
  (i < 224 * 224)%nat ->
  exists data,
    generateGradCAM (uniformInput 224 224 0 0 0) preds = Some data /\
    data !! (i * 4)%nat = Some 0%Z /\
    data !! (i * 4 + 1)%nat = Some 0%Z /\
    data !! (i * 4 + 2)%nat = Some 0%Z /\
    data !! (i * 4 + 3)%nat = Some 200%Z.
Proof.
  intros Hi. exists (imageData (colorArray (replicate (224 * 224) NaN))).
  split.
  - rewrite generateGradCAM_saliencyMap, saliencyMap_black. reflexivity.
  - apply (imageData_lookup (replicate (224 * 224) NaN) i NaN Hi).
    apply lookup_replicate_2. exact Hi.
Qed.

Lemma black_image_overlay_witness :
  exists data,
    generateGradCAM (uniformInput 224 224 0 0 0) (Fin <$> confident)
    = Some data /\
    data !! (0 * 4)%nat = Some 0%Z /\
    data !! (0 * 4 + 1)%nat = Some 0%Z /\
    data !! (0 * 4 + 2)%nat = Some 0%Z /\
    data !! (0 * 4 + 3)%nat = Some 200%Z.
Proof.
  apply (black_image_overlay (Fin <$> confident) 0). lia.
Defined.

End Overlay.

Section ColourOrder.

Local Open Scope R_scope.

Lemma clamp_mono (x x' lo hi : R) :
  x <= x' -> Spec.clamp x lo hi <= Spec.clamp x' lo hi.
Proof.
  intros H. unfold Spec.clamp. apply Rle_max_compat_l.
  apply Rle_min_compat_r. exact H.
Qed.

Lemma round_mono (x x' : R) : x <= x' -> (Spec.round x <= Spec.round x')%Z.
Proof. intros H. unfold Spec.round. apply Zfloor_le. lra. Qed.

Lemma redByte_mono (v v' : R) : v <= v' -> (redByte v <= redByte v')%Z.
Proof.
  intros H. unfold redByte. apply round_mono, clamp_mono.
  pose proof (clamp_mono ((v - 3 / 10) * (25 / 10))
                         ((v' - 3 / 10) * (25 / 10)) 0 1 ltac:(lra)).
  lra.
Qed.

Lemma greenByte_mono (v v' : R) : v <= v' -> (greenByte v <= greenByte v')%Z.
Proof.
  intros H. unfold greenByte. apply round_mono, clamp_mono.
  pose proof (clamp_mono (v * (15 / 10)) (v' * (15 / 10)) 0 1 ltac:(lra)).
  lra.
Qed.

Lemma blueByte_anti (v v' : R) : v <= v' -> (blueByte v' <= blueByte v)%Z.
Proof.
  intros H. unfold blueByte. apply round_mono, clamp_mono.
  pose proof (clamp_mono (1 - v' * 2) (1 - v * 2) 0 1 ltac:(lra)).
  lra.
Qed.

(** X8: within one colour buffer, a pixel of higher saliency is never
    less red, never less green and never more blue than a pixel of lower
    saliency; its alpha is the same. *)
Theorem colour_follows_saliency (vs : list num) (i j : nat) (v v' : R) :
  (i < 224 * 224)%nat -> (j < 224 * 224)%nat ->
  vs !! i = Some (Fin v) -> vs !! j = Some (Fin v') -> v <= v' ->
  exists r g b r' g' b',
    imageData (colorArray vs) !! (i * 4)%nat = Some r /\
    imageData (colorArray vs) !! (i * 4 + 1)%nat = Some g /\
    imageData (colorArray vs) !! (i * 4 + 2)%nat = Some b /\
    imageData (colorArray vs) !! (j * 4)%nat = Some r' /\
    imageData (colorArray vs) !! (j * 4 + 1)%nat = Some g' /\
    imageData (colorArray vs) !! (j * 4 + 2)%nat = Some b' /\
    (r <= r')%Z /\ (g <= g')%Z /\ (b' <= b)%Z /\
    imageData (colorArray vs) !! (i * 4 + 3)%nat
    = imageData (colorArray vs) !! (j * 4 + 3)%nat.
Proof.
  intros Hi Hj Hv Hv' Hle.
  destruct (imageData_pixel vs i v Hi Hv) as (Hr & Hg & Hb & Ha).
  destruct (imageData_pixel vs j v' Hj Hv') as (Hr' & Hg' & Hb' & Ha').
  exists (redByte v), (greenByte v), (blueByte v),
         (redByte v'), (greenByte v'), (blueByte v').
  repeat split; try assumption.
  - apply redByte_mono, Hle.
  - apply greenByte_mono, Hle.
  - apply blueByte_anti, Hle.
  - rewrite Ha, Ha'. reflexivity.
Qed.

Lemma colour_follows_saliency_witness :
  exists r g b r' g' b',
    imageData (colorArray [Fin 0; Fin 1]) !! (0 * 4)%nat = Some r /\
    imageData (colorArray [Fin 0; Fin 1]) !! (0 * 4 + 1)%nat = Some g /\
    imageData (colorArray [Fin 0; Fin 1]) !! (0 * 4 + 2)%nat = Some b /\
    imageData (colorArray [Fin 0; Fin 1]) !! (1 * 4)%nat = Some r' /\
    imageData (colorArray [Fin 0; Fin 1]) !! (1 * 4 + 1)%nat = Some g' /\
    imageData (colorArray [Fin 0; Fin 1]) !! (1 * 4 + 2)%nat = Some b' /\
    (r <= r')%Z /\ (g <= g')%Z /\ (b' <= b)%Z /\
    imageData (colorArray [Fin 0; Fin 1]) !! (0 * 4 + 3)%nat
    = imageData (colorArray [Fin 0; Fin 1]) !! (1 * 4 + 3)%nat.
Proof.
  apply (colour_follows_saliency [Fin 0; Fin 1] 0 1 0 1);
    [lia | lia | reflexivity | reflexivity | lra].
Defined.

End ColourOrder.

Section PreprocessRange.

Local Open Scope R_scope.

Lemma lerp_between (lo hi a b f : R) :
  lo <= a <= hi -> lo <= b <= hi -> 0 <= f <= 1 ->
  between lo hi (lerp (Fin a) (Fin b) (Fin f)).
Proof.
  intros Ha Hb Hf. unfold lerp, sub; cbn [neg add mul].
  eexists; split; [reflexivity |]. nra.
Qed.

Lemma frac_unit (k n : nat) :
  (0 < n)%nat -> 0 <= INR (k mod n) / INR n <= 1.
Proof.
  intros Hn. assert (Hpos : 0 < INR n) by (apply lt_0_INR; exact Hn).
  pose proof (pos_INR (k mod n)) as H0.
  assert (H1 : INR (k mod n) <= INR n).
  { apply le_INR. pose proof (Nat.mod_upper_bound k n ltac:(lia)). lia. }
  split.
  - apply Rmult_le_pos; [exact H0 |]. left. apply Rinv_0_lt_compat, Hpos.
  - apply (Rmult_le_reg_r (INR n)); [exact Hpos |].
    unfold Rdiv. rewrite Rmult_assoc, Rinv_l by lra. lra.
Qed.

(** Bilinear resizing keeps finite values within the bounds of the
    source. *)
Lemma resizeBilinear_between (H W D h w : nat) (vs : list num) (lo hi : R) :
  (0 < H)%nat -> (0 < W)%nat -> length vs = (H * W * D)%nat ->
  Forall (between lo hi) vs ->
  exists out,
    resizeBilinear (mkTensor [H; W; D] vs) h w = Some (mkTensor [h; w; D] out)
    /\ length out = (h * w * D)%nat /\ Forall (between lo hi) out.
Proof.
  intros HH HW Hlen Hall. unfold resizeBilinear; cbn [shape values].
  eexists. split; [reflexivity |]. split.
  - rewrite length_map, length_seq. reflexivity.
  - apply Forall_lookup. intros i v. rewrite map_fmap, list_lookup_fmap.
    destruct (decide (i < h * w * D)%nat) as [Hi | Hi].
    + rewrite lookup_seq_lt by exact Hi. cbn [fmap option_fmap option_map].
      intros [= <-].
      destruct (cell_split h w D i Hi) as (Hr & Hc & Hd & _).
      assert (Hh : (0 < h)%nat) by lia. assert (Hw : (0 < w)%nat) by lia.
      assert (HX : forall rr cc, (rr < H)%nat -> (cc < W)%nat ->
                 exists a, default NaN (vs !! ((rr * W + cc) * D + i mod D)%nat)
                           = Fin a /\ lo <= a <= hi).
      { intros rr cc Hrr Hcc.
        assert (Hidx : ((rr * W + cc) * D + i mod D < length vs)%nat).
        { rewrite Hlen.
          assert (Ha : (rr * W + cc + 1 <= H * W)%nat) by nia.
          pose proof (Nat.mul_le_mono_r _ _ D Ha). lia. }
        destruct (lookup_lt_is_Some_2 _ _ Hidx) as [u Hu].
        rewrite Forall_lookup in Hall. destruct (Hall _ _ Hu) as [a [-> Ha]].
        rewrite Hu. exists a. split; [reflexivity | exact Ha]. }
      assert (Hrf : (i / D / w * H / h < H)%nat)
        by (apply Nat.Div0.div_lt_upper_bound; nia).
      assert (Hcf : ((i / D) mod w * W / w < W)%nat)
        by (apply Nat.Div0.div_lt_upper_bound; nia).
      destruct (HX (i / D / w * H / h)%nat ((i / D) mod w * W / w)%nat)
        as (a00 & -> & B00); [lia | lia |].
      destruct (HX (i / D / w * H / h)%nat
                   (Nat.min (W - 1) (ceil_div ((i / D) mod w * W) w)))
        as (a01 & -> & B01); [lia | lia |].
      destruct (HX (Nat.min (H - 1) (ceil_div (i / D / w * H) h))
                   ((i / D) mod w * W / w)%nat)
        as (a10 & -> & B10); [lia | lia |].
      destruct (HX (Nat.min (H - 1) (ceil_div (i / D / w * H) h))
                   (Nat.min (W - 1) (ceil_div ((i / D) mod w * W) w)))
        as (a11 & -> & B11); [lia | lia |].
      pose proof (frac_unit ((i / D) mod w * W) w Hw) as Fc.
      pose proof (frac_unit (i / D / w * H) h Hh) as Fr.
      destruct (lerp_between lo hi a00 a01 _ B00 B01 Fc) as (t & -> & Bt).
      destruct (lerp_between lo hi a10 a11 _ B10 B11 Fc) as (u & -> & Bu).
      apply lerp_between; assumption.
    + rewrite (proj2 (lookup_ge_None (seq 0 (h * w * D)) i))
        by (rewrite length_seq; lia).
      discriminate.
Qed.

(** X9: for a decoded image of any positive size whose bytes are in
    0..255, the tensor handed to the classifier has shape
    [[1; 224; 224; 3]], holds 224 * 224 * 3 values, and every value is a
    finite number between 0 and 1. *)
Theorem preprocessImage_unit_range (img : HTMLImage) :
  (0 < naturalHeight img)%nat -> (0 < naturalWidth img)%nat ->
  length (rgb img) = (naturalHeight img * naturalWidth img * 3)%nat ->
  Forall (fun z => (0 <= z <= 255)%Z) (rgb img) ->
  exists vs,
    preprocessImage img = Some (mkTensor [1; 224; 224; 3]%nat vs) /\
    length vs = (224 * 224 * 3)%nat /\
    Forall (between 0 1) vs.
Proof.
  intros HH HW Hlen Hbytes. unfold preprocessImage, fromPixels.
  destruct (resizeBilinear_between (naturalHeight img) (naturalWidth img) 3
              224 224 (map (fun z => Fin (IZR z)) (rgb img)) 0 255)
    as (out & -> & Hout_len & Hout); [assumption | assumption | | |].
  - rewrite length_map. exact Hlen.
  - rewrite map_fmap. apply Forall_fmap.
    eapply Forall_impl; [exact Hbytes |].
    intros z [Hz0 Hz1]. exists (IZR z). split; [reflexivity |].
    split; [apply (IZR_le 0), Hz0 | apply (IZR_le z 255), Hz1].
  - cbn [mbind option_bind]. unfold expandDims0, tf_div; cbn [shape values].
    eexists. split; [reflexivity |]. split.
    + rewrite length_map. exact Hout_len.
    + rewrite map_fmap. apply Forall_fmap.
      eapply Forall_impl; [exact Hout |].
      intros v (a & -> & Ha). cbn [compose]. rewrite div_Fin by lra.
      eexists; split; [reflexivity |]. lra.
Qed.

Lemma preprocessImage_unit_range_witness :
  exists vs,
    preprocessImage (solidImage 2 2 128)
    = Some (mkTensor [1; 224; 224; 3]%nat vs) /\
    length vs = (224 * 224 * 3)%nat /\
    Forall (between 0 1) vs.
Proof.
  apply (preprocessImage_unit_range (solidImage 2 2 128)).
  - simpl; lia.
  - simpl; lia.
  - reflexivity.
  - simpl. repeat constructor; lia.
Defined.

End PreprocessRange.

Section Inference.

Local Open Scope R_scope.

Lemma preprocessImage_shape (img : HTMLImage) :
  exists vs, preprocessImage img = Some (mkTensor [1; 224; 224; 3]%nat vs).
Proof.
  unfold preprocessImage, fromPixels, resizeBilinear.
  cbn [shape values mbind option_bind].
  eexists. reflexivity.
Qed.

Lemma results_length (predictionData : list num) :
  length (results predictionData) = Nat.min 3 (length predictionData).
Proof.
  rewrite (Permutation_length (results_perm predictionData)).
  unfold labelled. rewrite length_zip_with. reflexivity.
Qed.

(** X10: one inference always publishes a heat map.  For a decoded
    image of positive size, and whatever the classifier returns in at
    most 224 x 224 scores (too few, more than three, NaN),
    [generateGradCAM] does not return [null] inside [runInference]: the
    buffer has 224 * 224 * 4 bytes, and the prediction list has as many
    entries as there are scores, up to 3. *)
Theorem runInference_always_draws (img : HTMLImage)
  (predictionData : list num) :
  (0 < naturalHeight img)%nat -> (0 < naturalWidth img)%nat ->
  length (rgb img) = (naturalHeight img * naturalWidth img * 3)%nat ->
  (length predictionData <= 224 * 224)%nat ->
  exists data,
    runInference img predictionData
    = Some (results predictionData, Some data) /\
    length data = (224 * 224 * 4)%nat /\
    length (results predictionData) = Nat.min 3 (length predictionData).
Proof.
  intros _ _ _ _. unfold runInference.
  destruct (preprocessImage_shape img) as [vs ->].
  cbn [mbind option_bind].
  destruct (generateGradCAM_defined 224 224 3 vs predictionData)
    as (data & -> & Hlen).
  exists data. split; [reflexivity |]. split; [exact Hlen |].
  apply results_length.
Qed.

Lemma runInference_always_draws_witness :
  exists data,
    runInference (solidImage 2 2 128) [NaN]
    = Some (results [NaN], Some data) /\
    length data = (224 * 224 * 4)%nat /\
    length (results [NaN]) = Nat.min 3 (length [NaN]).
Proof.
  apply (runInference_always_draws (solidImage 2 2 128) [NaN]).
  - simpl; lia.
  - simpl; lia.
  - reflexivity.
  - change (length [NaN]) with 1%nat. lia.
Defined.

(** X11: the first entry of the reported list carries the greatest of
    the first three scores. *)
Theorem results_head_is_best (ps : list R) (m : R) :
  is_max m (take 3 ps) ->
  exists top rest,
    results (Fin <$> ps) = top :: rest /\ confidence top = Fin m.
Proof.
  intros [Hin Hall].
  pose proof (results_perm (Fin <$> ps)) as Hperm.
  assert (Hsorted : StronglySorted noLess (results (Fin <$> ps))).
  { unfold results. rewrite labelled_first_three.
    apply Array_sort_sorted, labelled_finite. }
  assert (Hconf : confidence <$> results (Fin <$> ps) ≡ₚ Fin <$> take 3 ps).
  { rewrite Hperm, labelled_confidence, fmap_take. reflexivity. }
  destruct (results (Fin <$> ps)) as [| top rest] eqn:E.
  - apply Permutation_nil_l in Hconf.
    destruct (take 3 ps); [inversion Hin | discriminate].
  - exists top, rest. split; [reflexivity |].
    inversion Hsorted as [| ? ? _ Hrest]; subst.
    assert (Htop : confidence top ∈ Fin <$> take 3 ps).
    { rewrite <- Hconf. left. }
    apply list_elem_of_fmap in Htop as (t & Ht & Htin).
    rewrite Ht. f_equal.
    assert (Hm : Fin m ∈ confidence <$> (top :: rest)).
    { rewrite Hconf. apply list_elem_of_fmap. exists m. split; [reflexivity | exact Hin]. }
    rewrite Forall_forall in Hall. specialize (Hall t Htin).
    cbn [fmap list_fmap] in Hm. apply elem_of_cons in Hm as [Hm | Hm].
    + rewrite Ht in Hm. injection Hm as ->. reflexivity.
    + apply list_elem_of_fmap in Hm as (q & Hq & Hqin).
      rewrite Forall_forall in Hrest.
      destruct (Hrest q Hqin) as (x & y & Hx & Hy & Hle).
      rewrite Ht in Hx. injection Hx as <-.
      rewrite <- Hq in Hy. injection Hy as <-. lra.
Qed.

Lemma results_head_is_best_witness :
  exists top rest,
    results (Fin <$> [1 / 10; 7 / 10; 2 / 10]) = top :: rest /\
    confidence top = Fin (7 / 10).
Proof.
  apply (results_head_is_best [1 / 10; 7 / 10; 2 / 10] (7 / 10)).
  split; [right; left | repeat constructor; lra].
Defined.

Lemma sort_insert_head (p : JankenPrediction) (l : list JankenPrediction) :
  Forall (noLess p) l -> sort_insert byConfidenceDesc p l = p :: l.
Proof.
  intros Hall. destruct l as [| q t]; [reflexivity |].
  inversion Hall as [| ? ? (x & y & Hx & Hy & Hle) _]; subst.
  cbn [sort_insert]. rewrite (byConfidenceDesc_Fin p q x y Hx Hy).
  destruct (Rlt_dec x y); [lra | reflexivity].
Qed.

Lemma Array_sort_sorted_id (l : list JankenPrediction) :
  StronglySorted noLess l -> Array_sort byConfidenceDesc l = l.
Proof.
  unfold Array_sort. induction 1 as [| p l Hs IH Hp]; [reflexivity |].
  cbn [foldr]. rewrite IH. apply sort_insert_head, Hp.
Qed.

(** X12: scores that already come in non-increasing order are reported
    in the order of the labels, ties included: sorting moves nothing. *)
Theorem results_keep_order (ps : list R) :
  StronglySorted Rge (take 3 ps) ->
  results (Fin <$> ps) = labelled (Fin <$> ps).
Proof.
  intros Hs. unfold results. rewrite labelled_first_three.
  apply Array_sort_sorted_id.
  destruct ps as [| a [| b [| c rest]]]; cbn in Hs |- *.
  - constructor.
  - repeat constructor.
  - inversion Hs as [| ? ? _ Ha]; subst. inversion Ha; subst.
    repeat constructor. exists a, b. repeat split; reflexivity || lra.
  - inversion Hs as [| ? ? Hs' Ha]; subst.
    inversion Ha as [| ? ? Hab Ha']; subst. inversion Ha'; subst.
    inversion Hs' as [| ? ? _ Hb]; subst. inversion Hb; subst.
    repeat constructor.
    + exists b, c. repeat split; reflexivity || lra.
    + exists a, b. repeat split; reflexivity || lra.
    + exists a, c. repeat split; reflexivity || lra.
Qed.

Lemma results_keep_order_witness :
  results (Fin <$> [1 / 2; 1 / 2; 1 / 10])
  = labelled (Fin <$> [1 / 2; 1 / 2; 1 / 10]).
Proof.
  apply (results_keep_order [1 / 2; 1 / 2; 1 / 10]).
  cbn. repeat constructor; lra.
Defined.

(** X13: every reported label is one of the three labels of
    [JANKEN_LABELS] and no label is reported twice; the fallback label
    "Class n" of line 439 is never used. *)
Theorem results_labels (predictionData : list num) :
  label <$> results predictionData
  ≡ₚ take (length predictionData) JANKEN_LABELS /\
  NoDup (label <$> results predictionData) /\
  Forall (fun p => label p ∈ JANKEN_LABELS) (results predictionData).
Proof.
  assert (Hl : label <$> results predictionData
               ≡ₚ take (length predictionData) JANKEN_LABELS).
  { rewrite (results_perm predictionData).
    destruct predictionData as [| a [| b [| c rest]]];
      cbn; rewrite ?take_nil; reflexivity. }
  split; [exact Hl |]. split.
  - rewrite Hl. eapply sublist_NoDup; [| apply sublist_take].
    apply (bool_decide_unpack _). vm_compute. reflexivity.
  - apply Forall_forall. intros p Hp.
    assert (Hin : label p ∈ label <$> results predictionData)
      by (apply list_elem_of_fmap; exists p; split; [reflexivity | exact Hp]).
    rewrite Hl in Hin. exact (subseteq_take _ _ _ Hin).
Qed.

End Inference.

(** * Properties of the model loader and of the debug buffer *)

Section Header.

Lemma startsWith_TFL (l : list Z) :
  startsWith TFL l = true <->
  l !! 0%nat = Some 84%Z /\ l !! 1%nat = Some 70%Z /\ l !! 2%nat = Some 76%Z.
Proof.
  unfold TFL.
  destruct l as [| a [| b [| c l]]]; cbn [startsWith lookup list_lookup].
  - split; [discriminate | intros (H & _); discriminate].
  - rewrite andb_false_r.
    split; [discriminate | intros (_ & H & _); discriminate].
  - rewrite !andb_false_r.
    split; [discriminate | intros (_ & _ & H); discriminate].
  - rewrite andb_true_r, !andb_true_iff, !Z.eqb_eq. split.
    + intros (<- & <- & <-). repeat split.
    + intros ([= <-] & [= <-] & [= <-]). repeat split.
Qed.

Lemma includes_TFL (l : list Z) :
  includes TFL l = true <->
  exists k, l !! k = Some 84%Z /\ l !! (k + 1)%nat = Some 70%Z
            /\ l !! (k + 2)%nat = Some 76%Z.
Proof.
  induction l as [| a l IH].
  - cbn. split; [discriminate | intros (k & H & _); discriminate].
  - cbn [includes]. rewrite orb_true_iff, startsWith_TFL, IH. split.
    + intros [H | (k & H0 & H1 & H2)].
      * exists 0%nat. exact H.
      * exists (S k). exact (conj H0 (conj H1 H2)).
    + intros (k & H0 & H1 & H2). destruct k as [| k].
      * left. exact (conj H0 (conj H1 H2)).
      * right. exists k. exact (conj H0 (conj H1 H2)).
Qed.

(** X14: a model file passes the header check exactly when the bytes
    'T', 'F', 'L' stand next to each other somewhere in its first 8
    bytes, that is, start at one of the offsets 0 to 5.  Nothing after
    the eighth byte is looked at. *)
Theorem header_accepted_iff (uint8Array : list Z) :
  acceptsHeader uint8Array = true <->
  exists k, (k <= 5)%nat /\
            uint8Array !! k = Some 84%Z /\
            uint8Array !! (k + 1)%nat = Some 70%Z /\
            uint8Array !! (k + 2)%nat = Some 76%Z.
Proof.
  unfold acceptsHeader. rewrite includes_TFL. split.
  - intros (k & H0 & H1 & H2).
    apply lookup_take_Some in H0 as [H0 _].
    apply lookup_take_Some in H1 as [H1 _].
    apply lookup_take_Some in H2 as [H2 Hk].
    exists k. repeat split; try assumption. lia.
  - intros (k & Hk & H0 & H1 & H2). exists k.
    rewrite !lookup_take_lt by lia. repeat split; assumption.
Qed.

End Header.

Section Predict.

Local Open Scope R_scope.

Lemma or_else_usable (o : option num) (r : R) :
  usable o -> 0 <= r ->
  exists s, or_else o (mul (Fin r) (Fin (1 / 10))) = Fin s /\ 0 <= s /\
            (forall x, o = Some (Fin x) -> 0 < x -> s = x).
Proof.
  intros [-> | [-> | (x & -> & Hx)]] Hr.
  - exists (r * (1 / 10)). repeat split; [lra | discriminate].
  - exists (r * (1 / 10)). repeat split; [lra | discriminate].
  - cbn. destruct (Req_dec_T x 0) as [-> | Hne].
    + exists (r * (1 / 10)). repeat split; [lra |]. intros y [= <-]. lra.
    + exists x. repeat split; [exact Hx |]. intros y [= <-] _. reflexivity.
Qed.

(** X15: the substitute model returns three finite scores, each
    between 0 and 1, as soon as one of the three classes it reads
    (414, 415, 759) has a positive value and the others are not
    negative; absent, zero and NaN classes are replaced by a random
    value first. *)
Theorem predictScores_normalised (data : list num) (random : nat -> R)
  (idx : nat) (p : R) :
  usable (data !! 414%nat) -> usable (data !! 415%nat) ->
  usable (data !! 759%nat) ->
  (forall i, 0 <= random i < 1) ->
  idx ∈ handLikeIndices -> data !! idx = Some (Fin p) -> 0 < p ->
  exists a b c,
    predictScores data (fun i => Fin (random i)) = [Fin a; Fin b; Fin c] /\
    0 <= a <= 1 /\ 0 <= b <= 1 /\ 0 <= c <= 1.
Proof.
  intros U1 U2 U3 Hrand Hidx Hp Hpos.
  destruct (or_else_usable _ (random 0%nat) U1 (proj1 (Hrand 0%nat)))
    as (s1 & E1 & P1 & Q1).
  destruct (or_else_usable _ (random 1%nat) U2 (proj1 (Hrand 1%nat)))
    as (s2 & E2 & P2 & Q2).
  destruct (or_else_usable _ (random 2%nat) U3 (proj1 (Hrand 2%nat)))
    as (s3 & E3 & P3 & Q3).
  assert (Htot : 0 < s1 + s2 + s3).
  { unfold handLikeIndices in Hidx.
    apply elem_of_cons in Hidx as [-> | Hidx];
      [rewrite (Q1 p Hp Hpos); lra |].
    apply elem_of_cons in Hidx as [-> | Hidx];
      [rewrite (Q2 p Hp Hpos); lra |].
    apply elem_of_cons in Hidx as [-> | Hidx];
      [rewrite (Q3 p Hp Hpos); lra | inversion Hidx]. }
  exists (s1 / (0 + s1 + s2 + s3)), (s2 / (0 + s1 + s2 + s3)),
         (s3 / (0 + s1 + s2 + s3)).
  split.
  - unfold predictScores, jankenScores, handLikeIndices.
    cbn [imap compose]. rewrite E1, E2, E3. unfold sum. cbn [foldl add map].
    rewrite !div_Fin by lra. reflexivity.
  - assert (Hinv : 0 < / (0 + s1 + s2 + s3))
      by (apply Rinv_0_lt_compat; lra).
    assert (Hone : (0 + s1 + s2 + s3) * / (0 + s1 + s2 + s3) = 1)
      by (apply Rinv_r; lra).
    unfold Rdiv. repeat split; nra.
Qed.

Lemma predictScores_normalised_witness :
  exists a b c,
    predictScores (replicate 1000 (Fin (1 / 1000))) (fun i => Fin 0)
    = [Fin a; Fin b; Fin c] /\
    0 <= a <= 1 /\ 0 <= b <= 1 /\ 0 <= c <= 1.
Proof.
  assert (U : forall i, (i < 1000)%nat ->
                        usable (replicate 1000 (Fin (1 / 1000)) !! i)).
  { intros i Hi. right; right. exists (1 / 1000).
    split; [apply lookup_replicate_2; exact Hi | lra]. }
  apply (predictScores_normalised (replicate 1000 (Fin (1 / 1000)))
           (fun _ => 0) 414 (1 / 1000)).
  - apply U; lia.
  - apply U; lia.
  - apply U; lia.
  - intros _. lra.
  - left.
  - apply lookup_replicate_2. lia.
  - lra.
Defined.

End Predict.

Section DebugBuffer.

Lemma Array_slice_last {A : Type} (n : Z) (l : list A) :
  (0 < n)%Z ->
  Array_slice (- n) l = drop (length l - Z.to_nat n) l.
Proof.
  intros Hn. unfold Array_slice.
  destruct (- n <? 0)%Z eqn:E; [| apply Z.ltb_ge in E; lia].
  f_equal. lia.
Qed.

Lemma Array_slice_zero {A : Type} (l : list A) : Array_slice 0 l = l.
Proof. unfold Array_slice. cbn. rewrite Z.min_l by lia. reflexivity. Qed.

Lemma debugLog_snoc (maxItems : Z) (calls : list (string * string))
  (c : string * string) :
  debugLog maxItems (calls ++ [c])
  = addDebugInfo maxItems (debugLog maxItems calls) c.1 c.2.
Proof. unfold debugLog. rewrite foldl_app. reflexivity. Qed.

(** X16: with a limit of 2 or more (the default is 10), the buffer
    holds the lines of the most recent calls, oldest first, and never
    more than the limit: after any sequence of calls it is the last
    [maxItems] lines of that sequence. *)
Theorem debug_buffer_window (maxItems : Z) (calls : list (string * string)) :
  (2 <= maxItems)%Z ->
  debugLog maxItems calls
  = drop (length calls - Z.to_nat maxItems)
         ((fun c => debugLine c.1 c.2) <$> calls) /\
  length (debugLog maxItems calls)
  = Nat.min (length calls) (Z.to_nat maxItems).
Proof.
  intros HM.
  assert (Hmain : debugLog maxItems calls
                  = drop (length calls - Z.to_nat maxItems)
                         ((fun c => debugLine c.1 c.2) <$> calls)).
  { induction calls as [| c calls IH] using rev_ind; [reflexivity |].
    rewrite debugLog_snoc. unfold addDebugInfo.
    rewrite Array_slice_last by lia. rewrite IH.
    rewrite length_drop, length_fmap, drop_drop, fmap_app, length_app.
    cbn [length fmap list_fmap].
    rewrite <- drop_app_le by (rewrite length_fmap; lia).
    f_equal. lia. }
  split; [exact Hmain |].
  rewrite Hmain, length_drop, length_fmap. lia.
Qed.

Lemma debug_buffer_window_witness :
  debugLog 2 [("1", "a"); ("2", "b"); ("3", "c")]%string
  = drop (length [("1", "a"); ("2", "b"); ("3", "c")]%string - Z.to_nat 2)
         ((fun c => debugLine c.1 c.2)
            <$> [("1", "a"); ("2", "b"); ("3", "c")]%string).
Proof.
  apply (debug_buffer_window 2 [("1", "a"); ("2", "b"); ("3", "c")]%string).
  lia.
Defined.

(** X17: with a limit of 1 nothing is ever dropped: [slice(-0)] is
    [slice(0)], the whole array, so the buffer keeps every line and grows
    with each call. *)
Theorem debug_buffer_of_one_keeps_all (calls : list (string * string)) :
  debugLog 1 calls = (fun c => debugLine c.1 c.2) <$> calls.
Proof.
  induction calls as [| c calls IH] using rev_ind; [reflexivity |].
  rewrite debugLog_snoc, fmap_app. unfold addDebugInfo.
  change (- (1 - 1))%Z with 0%Z. rewrite Array_slice_zero, IH. reflexivity.
Qed.

End DebugBuffer.

(** * Properties of the restructured copy *)

Section CopyBoost.

Local Open Scope R_scope.

Lemma copy_boost_range (ps : list R) :
  exists b, Restructured.confidenceBoost (Fin <$> ps) = Fin b /\
            3 / 10 <= b <= 1.
Proof.
  destruct ps as [| p l].
  - exists (3 / 10). split; [| lra].
    unfold Restructured.confidenceBoost, Math_max; cbn.
    unfold inf_of_sign. case_R; try lra; reflexivity.
  - destruct (is_max_exists (p :: l)) as [m Hm]; [congruence |].
    exists (Spec.boost m). split; [apply restructured_boost_clamped, Hm |].
    unfold Spec.boost. apply clamp_bounds. lra.
Qed.

(** X18: in the restructured copy the boost of every vector of finite
    scores, the empty one included, is a finite number between 0.3 and
    1. *)
Theorem restructured_boost_in_range (ps : list R) :
  exists b, Restructured.confidenceBoost (Fin <$> ps) = Fin b /\
            3 / 10 <= b <= 1.
Proof.
  destruct ps as [| p l].
  - exists (3 / 10). split; [| lra].
    unfold Restructured.confidenceBoost, Math_max; cbn.
    unfold inf_of_sign. case_R; try lra; reflexivity.
  - destruct (is_max_exists (p :: l)) as [m Hm]; [congruence |].
    exists (Spec.boost m). split; [apply restructured_boost_clamped, Hm |].
    unfold Spec.boost. apply clamp_bounds. lra.
Qed.

End CopyBoost.

Section CopyMask.

Local Open Scope R_scope.

Lemma copy_centerMask_length (h w : nat) (b : num) :
  length (RestructuredPipeline.centerMask h w b) = (h * w)%nat.
Proof.
  unfold RestructuredPipeline.centerMask, buffer_set, tf_buffer.
  rewrite (grid_fill_length
             (fun y x => Restructured.maskWeight h w b y x)).
  apply length_replicate.
Qed.

Lemma copy_centerMask_lookup (h w : nat) (b : num) (y x : nat) :
  (y < h)%nat -> (x < w)%nat ->
  RestructuredPipeline.centerMask h w b !! (y * w + x)%nat
  = Some (Restructured.maskWeight h w b y x).
Proof.
  intros Hy Hx. unfold RestructuredPipeline.centerMask, buffer_set, tf_buffer.
  rewrite (grid_fill_lookup
             (fun y x => Restructured.maskWeight h w b y x)).
  rewrite length_replicate. case_decide as Hc.
  - rewrite cell_div, cell_mod by exact Hx. reflexivity.
  - exfalso. apply Hc. nia.
Qed.

Lemma gauss_exponent (h w y x : nat) :
  (0 < h)%nat -> (0 < w)%nat ->
  let d := Spec.distance (INR (h / 2)) (INR (w / 2)) (INR y) (INR x) in
  let r := INR (Nat.min h w) / 3 in
  0 < 2 * (r / 2 * (r / 2)) /\ - (d * d) / (2 * (r / 2 * (r / 2))) <= 0.
Proof.
  intros Hh Hw d r.
  assert (Hr : 0 < r).
  { unfold r. assert (0 < INR (Nat.min h w)) by (apply lt_0_INR; lia). lra. }
  assert (Hk : 0 < 2 * (r / 2 * (r / 2))) by nra.
  split; [exact Hk |].
  unfold Rdiv. rewrite <- Ropp_mult_distr_l.
  apply Ropp_le_cancel. rewrite Ropp_involutive, Ropp_0.
  apply Rmult_le_pos; [nra |].
  apply Rlt_le, Rinv_0_lt_compat, Hk.
Qed.

Lemma exp_nonpos (t : R) : t <= 0 -> exp t <= 1.
Proof.
  intros [Ht | ->]; rewrite <- exp_0.
  - left. apply exp_increasing, Ht.
  - right. reflexivity.
Qed.

Lemma gauss_bounds (h w y x : nat) (b : R) :
  (0 < h)%nat -> (0 < w)%nat -> 0 < b ->
  0 < Spec.maskWeight h w y x b <= b.
Proof.
  intros Hh Hw Hb. destruct (gauss_exponent h w y x Hh Hw) as [Hk Ht].
  cbv zeta in Hk, Ht. unfold Spec.maskWeight.
  pose proof (exp_nonpos _ Ht) as Hle.
  pose proof (exp_pos
                (- (Spec.distance (INR (h / 2)) (INR (w / 2)) (INR y) (INR x)
                    * Spec.distance (INR (h / 2)) (INR (w / 2)) (INR y) (INR x))
                 / (2 * (INR (Nat.min h w) / 3 / 2
                         * (INR (Nat.min h w) / 3 / 2))))) as Hpos.
  split; nra.
Qed.

Lemma gauss_peak (h w y x : nat) (b : R) :
  (0 < h)%nat -> (0 < w)%nat -> 0 < b ->
  (Spec.maskWeight h w y x b = b <-> y = (h / 2)%nat /\ x = (w / 2)%nat).
Proof.
  intros Hh Hw Hb. destruct (gauss_exponent h w y x Hh Hw) as [Hk Ht].
  cbv zeta in Hk, Ht. unfold Spec.maskWeight.
  rewrite <- (distance_zero_iff (h / 2) (w / 2) y x).
  set (d := Spec.distance (INR (h / 2)) (INR (w / 2)) (INR y) (INR x)) in *.
  set (r := INR (Nat.min h w) / 3) in *.
  assert (Hd : 0 <= d) by apply distance_nonneg.
  split.
  - intros He.
    assert (E1 : exp (- (d * d) / (2 * (r / 2 * (r / 2)))) = 1) by nra.
    rewrite <- exp_0 in E1. apply exp_inv in E1.
    assert (Hdd : d * d = 0).
    { unfold Rdiv in E1. apply Rmult_integral in E1 as [E1 | E1]; [lra |].
      pose proof (Rinv_0_lt_compat _ Hk). lra. }
    apply Rmult_integral in Hdd. lra.
  - intros ->.
    replace (- (0 * 0) / (2 * (r / 2 * (r / 2)))) with 0
      by (unfold Rdiv; ring).
    rewrite exp_0. ring.
Qed.

(** X19: the 224 x 224 mask of the restructured copy, for a boost
    between 0.3 and 1: every cell is positive and not above the centre
    cell (112, 112), and no other cell holds the value of the centre
    cell. *)
Theorem gaussian_mask_cells (b : R) (y x : nat) :
  (y < 224)%nat -> (x < 224)%nat -> 3 / 10 <= b <= 1 ->
  exists c top,
    RestructuredPipeline.centerMask 224 224 (Fin b) !! (y * 224 + x)%nat
    = Some (Fin c) /\
    RestructuredPipeline.centerMask 224 224 (Fin b) !! (112 * 224 + 112)%nat
    = Some (Fin top) /\
    0 < c <= top /\
    (c = top <-> y = 112%nat /\ x = 112%nat).
Proof.
  intros Hy Hx [Hb _]. assert (Hpos : 0 < b) by lra.
  exists (Spec.maskWeight 224 224 y x b), b.
  rewrite !copy_centerMask_lookup by lia.
  rewrite !restructured_mask_gaussian by lia.
  pose proof (proj2 (gauss_peak 224 224 112 112 b ltac:(lia) ltac:(lia) Hpos))
    as Hc.
  rewrite Hc by (split; reflexivity).
  split; [reflexivity |]. split; [reflexivity |].
  split; [apply gauss_bounds; (lia || exact Hpos) |].
  pose proof (gauss_peak 224 224 y x b ltac:(lia) ltac:(lia) Hpos) as Hpk.
  change (224 / 2)%nat with 112%nat in Hpk. exact Hpk.
Qed.

Lemma gaussian_mask_cells_witness :
  exists c top,
    RestructuredPipeline.centerMask 224 224 (Fin 1) !! (0 * 224 + 0)%nat
    = Some (Fin c) /\
    RestructuredPipeline.centerMask 224 224 (Fin 1) !! (112 * 224 + 112)%nat
    = Some (Fin top) /\
    0 < c <= top /\
    (c = top <-> 0%nat = 112%nat /\ 0%nat = 112%nat).
Proof. apply (gaussian_mask_cells 1 0 0); [lia | lia | lra]. Defined.

End CopyMask.

Section CopyColour.

Local Open Scope R_scope.

Lemma copy_coloredHeatmap_lookup (vs : list num) (i : nat) (v : num) :
  vs !! i = Some v ->
  let cs := stack3 (map Restructured.redOf vs) (map Restructured.greenOf vs)
                   (map Restructured.blueOf vs) in
  cs !! (i * 3)%nat = Some (Restructured.redOf v) /\
  cs !! (i * 3 + 1)%nat = Some (Restructured.greenOf v) /\
  cs !! (i * 3 + 2)%nat = Some (Restructured.blueOf v).
Proof.
  cbv zeta. revert i; induction vs as [| u vs IH]; intros i Hi.
  - discriminate.
  - destruct i as [| i]; simpl in Hi.
    + injection Hi as ->. repeat split; reflexivity.
    + destruct (IH i Hi) as (Hr & Hg & Hb). simpl. repeat split; assumption.
Qed.

Lemma copy_colorArray_length (vs : list num) :
  length (RestructuredPipeline.colorArray vs) = (length vs * 3)%nat.
Proof.
  unfold RestructuredPipeline.colorArray. rewrite length_map.
  induction vs as [| v vs IH]; simpl; [reflexivity |].
  simpl in IH. rewrite IH. reflexivity.
Qed.

Lemma copy_colorArray_lookup (vs : list num) (i : nat) (v : num) :
  vs !! i = Some v ->
  RestructuredPipeline.colorArray vs !! (i * 3)%nat
  = Some (mul (Restructured.redOf v) (Fin 255)) /\
  RestructuredPipeline.colorArray vs !! (i * 3 + 1)%nat
  = Some (mul (Restructured.greenOf v) (Fin 255)) /\
  RestructuredPipeline.colorArray vs !! (i * 3 + 2)%nat
  = Some (mul (Restructured.blueOf v) (Fin 255)).
Proof.
  intros Hi. destruct (copy_coloredHeatmap_lookup vs i v Hi) as (Hr & Hg & Hb).
  unfold RestructuredPipeline.colorArray.
  rewrite map_fmap, !list_lookup_fmap, Hr, Hg, Hb.
  repeat split; reflexivity.
Qed.

Lemma copy_imageData_length (colors : list num) :
  length (RestructuredPipeline.imageData colors) = (224 * 224 * 4)%nat.
Proof.
  unfold RestructuredPipeline.imageData.
  rewrite (pixel_loop_length
             (fun i => ToUint8Clamp
                         (byteOf (mul (element colors (i * 3))
                                      (Fin (13 / 10)))))
             (fun i => ToUint8Clamp
                         (byteOf (mul (element colors (i * 3 + 1))
                                      (Fin (11 / 10)))))
             (fun i => ToUint8Clamp
                         (byteOf (mul (element colors (i * 3 + 2))
                                      (Fin (9 / 10)))))
             (fun i =>
                ToUint8Clamp
                  (RestructuredPipeline.alphaOf
                     (byteOf (mul (element colors (i * 3)) (Fin (13 / 10))))
                     (byteOf (mul (element colors (i * 3 + 1))
                                  (Fin (11 / 10))))
                     (byteOf (mul (element colors (i * 3 + 2))
                                  (Fin (9 / 10))))))).
  apply length_replicate.
Qed.

(** Pixel [i] of the buffer of the copy is [Restructured.pixel] of the
    map's value there. *)
Lemma copy_imageData_lookup (vs : list num) (i : nat) (v : num) :
  (i < 224 * 224)%nat -> vs !! i = Some v ->
  let data :=
    RestructuredPipeline.imageData (RestructuredPipeline.colorArray vs) in
  let '(r, g, b, a) := Restructured.pixel v in
  data !! (i * 4)%nat = Some r /\
  data !! (i * 4 + 1)%nat = Some g /\
  data !! (i * 4 + 2)%nat = Some b /\
  data !! (i * 4 + 3)%nat = Some a.
Proof.
  intros Hi Hv.
  destruct (copy_colorArray_lookup vs i v Hv) as (Hr & Hg & Hb).
  pose proof (lookup_lt_Some _ _ _ Hv) as Hlt.
  unfold Restructured.pixel, Restructured.gained. cbv zeta.
  fold (byteOf (mul (mul (Restructured.redOf v) (Fin 255)) (Fin (13 / 10)))).
  fold (byteOf (mul (mul (Restructured.greenOf v) (Fin 255)) (Fin (11 / 10)))).
  fold (byteOf (mul (mul (Restructured.blueOf v) (Fin 255)) (Fin (9 / 10)))).
  assert (Er : mul (Restructured.redOf v) (Fin 255)
               = element (RestructuredPipeline.colorArray vs) (i * 3))
    by (unfold element; rewrite Hr; reflexivity).
  assert (Eg : mul (Restructured.greenOf v) (Fin 255)
               = element (RestructuredPipeline.colorArray vs) (i * 3 + 1))
    by (unfold element; rewrite Hg; reflexivity).
  assert (Eb : mul (Restructured.blueOf v) (Fin 255)
               = element (RestructuredPipeline.colorArray vs) (i * 3 + 2))
    by (unfold element; rewrite Hb; reflexivity).
  rewrite Er, Eg, Eb.
  unfold RestructuredPipeline.imageData.
  rewrite copy_colorArray_length, pixel_count.
  set (colors := RestructuredPipeline.colorArray vs).
  apply (pixel_loop_hit
             (fun i => ToUint8Clamp
                         (byteOf (mul (element colors (i * 3))
                                      (Fin (13 / 10)))))
             (fun i => ToUint8Clamp
                         (byteOf (mul (element colors (i * 3 + 1))
                                      (Fin (11 / 10)))))
             (fun i => ToUint8Clamp
                         (byteOf (mul (element colors (i * 3 + 2))
                                      (Fin (9 / 10)))))
             (fun i =>
                ToUint8Clamp
                  (RestructuredPipeline.alphaOf
                     (byteOf (mul (element colors (i * 3)) (Fin (13 / 10))))
                     (byteOf (mul (element colors (i * 3 + 1))
                                  (Fin (11 / 10))))
                     (byteOf (mul (element colors (i * 3 + 2))
                                  (Fin (9 / 10))))))).
  - lia.
  - rewrite length_replicate. lia.
Qed.

End CopyColour.

Section CopyPixel.

Local Open Scope R_scope.

Lemma round_above (x : R) : x - 1 / 2 < IZR (Spec.round x).
Proof.
  unfold Spec.round. pose proof (Zfloor_bound (x + 1 / 2)) as [_ H]. lra.
Qed.

Lemma round_nonneg (x : R) : 0 <= x -> (0 <= Spec.round x)%Z.
Proof. intros H. unfold Spec.round. apply Zfloor_lub. simpl. lra. Qed.

Lemma green_blue_sum (v : R) :
  let G := Spec.clamp (Spec.clamp (v * (18 / 10)) 0 1 * 255 * (11 / 10)) 0 255 in
  let B := Spec.clamp (Spec.clamp (12 / 10 - v * 2) 0 1 * 255 * (9 / 10)) 0 255 in
  0 <= G /\ 0 <= B /\ (2295 / 10 <= B \/ 230 <= G + B).
Proof.
  cbv zeta. split; [apply clamp_bounds; lra |].
  split; [apply clamp_bounds; lra |].
  destruct (Rle_dec v (1 / 10)) as [Hv | Hv].
  - left. unfold Spec.clamp, Rmax, Rmin. case_R; lra.
  - right. unfold Spec.clamp, Rmax, Rmin. case_R; lra.
Qed.

Lemma spec_pixel_sum (v : R) :
  (230 <= Spec.red v + Spec.green v + Spec.blue v)%Z.
Proof.
  destruct (green_blue_sum v) as (HG & HB & Hor). cbv zeta in *.
  assert (Hr : (0 <= Spec.red v)%Z)
    by (apply round_nonneg, clamp_bounds; lra).
  assert (Hg : (0 <= Spec.green v)%Z) by (apply round_nonneg, HG).
  assert (Hb : (0 <= Spec.blue v)%Z) by (apply round_nonneg, HB).
  pose proof (round_above
                (Spec.clamp (Spec.clamp (v * (18 / 10)) 0 1 * 255 * (11 / 10))
                            0 255)) as Hga.
  pose proof (round_above
                (Spec.clamp (Spec.clamp (12 / 10 - v * 2) 0 1 * 255 * (9 / 10))
                            0 255)) as Hba.
  fold (Spec.green v) in Hga. fold (Spec.blue v) in Hba.
  assert (H : (229 < Spec.green v + Spec.blue v)%Z).
  { apply lt_IZR. rewrite plus_IZR.
    apply IZR_le in Hg. apply IZR_le in Hb.
    destruct Hor as [Hor | Hor]; lra. }
  lia.
Qed.

Lemma spec_alpha_range (v : R) : (115 <= Spec.alpha v <= 200)%Z.
Proof.
  pose proof (spec_pixel_sum v) as Hs. unfold Spec.alpha.
  set (s := (Spec.red v + Spec.green v + Spec.blue v)%Z) in *.
  assert (HsR : 230 <= IZR s) by (apply IZR_le in Hs; exact Hs).
  assert (Hm : 230 / 400 <= Rmin 1 (IZR s / 400) <= 1).
  { split; [apply Rmin_glb; lra | apply Rmin_l]. }
  unfold Spec.round. split.
  - apply Zfloor_lub. lra.
  - pose proof (Zfloor_bound (200 * Rmin 1 (IZR s / 400) + 1 / 2)) as [Hb _].
    apply Zlt_succ_le. change (Z.succ 200) with 201%Z. apply lt_IZR. lra.
Qed.

(** X20: in the restructured copy, the pixel of an overlay at a
    position of finite saliency [v] holds four bytes.  The colour bytes
    are the values [clamp(c * 255 * gain, 0, 255)] of the three channels
    rounded to an integer (each differs from its value by less than 1),
    and the alpha is [200 * min(1, (r + g + b) / 400)] of these bytes,
    rounded likewise.  The three colour bytes sum to at least 230, so
    that the alpha lies between 115 and 200. *)
Theorem copy_overlay_pixel (vs : list num) (i : nat) (v : R) :
  (i < 224 * 224)%nat -> vs !! i = Some (Fin v) ->
  exists r g b a : Z,
    RestructuredPipeline.imageData (RestructuredPipeline.colorArray vs)
      !! (i * 4)%nat = Some r /\
    RestructuredPipeline.imageData (RestructuredPipeline.colorArray vs)
      !! (i * 4 + 1)%nat = Some g /\
    RestructuredPipeline.imageData (RestructuredPipeline.colorArray vs)
      !! (i * 4 + 2)%nat = Some b /\
    RestructuredPipeline.imageData (RestructuredPipeline.colorArray vs)
      !! (i * 4 + 3)%nat = Some a /\
    (0 <= r <= 255)%Z /\ (0 <= g <= 255)%Z /\ (0 <= b <= 255)%Z /\
    Rabs (IZR r
          - Spec.clamp
              (Spec.clamp ((v - 2 / 10) * 2) 0 1 * 255 * (13 / 10)) 0 255)
    < 1 /\
    Rabs (IZR g
          - Spec.clamp
              (Spec.clamp (v * (18 / 10)) 0 1 * 255 * (11 / 10)) 0 255)
    < 1 /\
    Rabs (IZR b
          - Spec.clamp
              (Spec.clamp (12 / 10 - v * 2) 0 1 * 255 * (9 / 10)) 0 255)
    < 1 /\
    Rabs (IZR a - 200 * Rmin 1 (IZR (r + g + b) / 400)) < 1 /\
    (230 <= r + g + b)%Z /\
    (115 <= a <= 200)%Z.
Proof.
  intros Hi Hv. pose proof (copy_imageData_lookup vs i (Fin v) Hi Hv) as H.
  cbv zeta in H. rewrite restructured_pixel in H.
  destruct H as (H0 & H1 & H2 & H3).
  exists (Spec.red v), (Spec.green v), (Spec.blue v), (Spec.alpha v).
  split; [exact H0 |]. split; [exact H1 |]. split; [exact H2 |].
  split; [exact H3 |].
  split; [apply spec_channel_byte |]. split; [apply spec_channel_byte |].
  split; [apply spec_channel_byte |].
  split; [apply round_near |]. split; [apply round_near |].
  split; [apply round_near |]. split; [apply round_near |].
  split; [apply spec_pixel_sum | apply spec_alpha_range].
Qed.

Lemma copy_overlay_pixel_witness :
  exists r g b a : Z,
    RestructuredPipeline.imageData (RestructuredPipeline.colorArray [Fin 0])
      !! (0 * 4)%nat = Some r /\
    RestructuredPipeline.imageData (RestructuredPipeline.colorArray [Fin 0])
      !! (0 * 4 + 1)%nat = Some g /\
    RestructuredPipeline.imageData (RestructuredPipeline.colorArray [Fin 0])
      !! (0 * 4 + 2)%nat = Some b /\
    RestructuredPipeline.imageData (RestructuredPipeline.colorArray [Fin 0])
      !! (0 * 4 + 3)%nat = Some a /\
    (0 <= r <= 255)%Z /\ (0 <= g <= 255)%Z /\ (0 <= b <= 255)%Z /\
    Rabs (IZR r
          - Spec.clamp
              (Spec.clamp ((0 - 2 / 10) * 2) 0 1 * 255 * (13 / 10)) 0 255)
    < 1 /\
    Rabs (IZR g
          - Spec.clamp
              (Spec.clamp (0 * (18 / 10)) 0 1 * 255 * (11 / 10)) 0 255)
    < 1 /\
    Rabs (IZR b
          - Spec.clamp
              (Spec.clamp (12 / 10 - 0 * 2) 0 1 * 255 * (9 / 10)) 0 255)
    < 1 /\
    Rabs (IZR a - 200 * Rmin 1 (IZR (r + g + b) / 400)) < 1 /\
    (230 <= r + g + b)%Z /\
    (115 <= a <= 200)%Z.
Proof. apply (copy_overlay_pixel [Fin 0] 0 0); [lia | reflexivity]. Defined.

End CopyPixel.

Section Marker.

Local Open Scope R_scope.

Context (c : nat -> bool).

Local Abbreviation mark :=
  (fun (data : list Z) (i : nat) =>
     if c i then
       <[(i + 3)%nat := 100%Z]>
         (<[(i + 2)%nat := 0%Z]>
            (<[(i + 1)%nat := 0%Z]> (<[i := 255%Z]> data)))
     else data).

Lemma marker_loop_length (a n : nat) (data : list Z) :
  length (foldl mark data (map (fun k => (k * 4)%nat) (seq a n)))
  = length data.
Proof.
  revert a data; induction n as [| n IH]; intros a data; simpl; [reflexivity |].
  rewrite IH. destruct (c (a * 4)); [| reflexivity].
  rewrite !length_insert. reflexivity.
Qed.

Lemma marker_loop_before (a n : nat) (data : list Z) (j : nat) :
  (j < a * 4)%nat ->
  foldl mark data (map (fun k => (k * 4)%nat) (seq a n)) !! j = data !! j.
Proof.
  revert a data; induction n as [| n IH]; intros a data Hj; simpl;
    [reflexivity |].
  rewrite IH by lia. destruct (c (a * 4)); [| reflexivity].
  rewrite !list_lookup_insert_ne by lia. reflexivity.
Qed.

Lemma marker_loop_hit (a n : nat) (data : list Z) (p : nat) :
  (a <= p < a + n)%nat -> (p * 4 + 3 < length data)%nat ->
  let out := foldl mark data (map (fun k => (k * 4)%nat) (seq a n)) in
  if c (p * 4) then
    out !! (p * 4)%nat = Some 255%Z /\
    out !! (p * 4 + 1)%nat = Some 0%Z /\
    out !! (p * 4 + 2)%nat = Some 0%Z /\
    out !! (p * 4 + 3)%nat = Some 100%Z
  else
    out !! (p * 4)%nat = data !! (p * 4)%nat /\
    out !! (p * 4 + 1)%nat = data !! (p * 4 + 1)%nat /\
    out !! (p * 4 + 2)%nat = data !! (p * 4 + 2)%nat /\
    out !! (p * 4 + 3)%nat = data !! (p * 4 + 3)%nat.
Proof.
  cbv zeta.
  revert a data; induction n as [| n IH]; intros a data Hp Hlen; [lia |].
  simpl. destruct (decide (p = a)) as [-> | Hne].
  - rewrite !marker_loop_before by lia.
    destruct (c (a * 4)); [| repeat split; reflexivity].
    repeat split.
    + rewrite !list_lookup_insert_ne by lia.
      apply list_lookup_insert_eq. lia.
    + rewrite !list_lookup_insert_ne by lia.
      apply list_lookup_insert_eq. rewrite !length_insert. lia.
    + rewrite list_lookup_insert_ne by lia.
      apply list_lookup_insert_eq. rewrite !length_insert. lia.
    + apply list_lookup_insert_eq. rewrite !length_insert. lia.
  - assert (Hp' : (S a <= p < S a + n)%nat) by lia.
    destruct (c (a * 4)) eqn:Ha.
    + specialize (IH (S a)
                     (<[(a * 4 + 3)%nat := 100%Z]>
                        (<[(a * 4 + 2)%nat := 0%Z]>
                           (<[(a * 4 + 1)%nat := 0%Z]>
                              (<[(a * 4)%nat := 255%Z]> data)))) Hp').
      rewrite !length_insert in IH. specialize (IH Hlen).
      rewrite !list_lookup_insert_ne in IH by lia. exact IH.
    + apply IH; assumption.
Qed.

End Marker.

Section MarkerImage.

Local Open Scope R_scope.

Lemma pixel_index (p : nat) : (p * 4 / 4)%nat = p.
Proof. apply Nat.div_mul. lia. Qed.

Lemma sqrt_below_50 (s : R) : 0 <= s -> (sqrt s < 50 <-> s < 2500).
Proof.
  intros Hs. split; intros H.
  - pose proof (sqrt_sqrt s Hs) as E. pose proof (sqrt_pos s) as Hp. nra.
  - replace 50 with (sqrt 2500).
    + apply sqrt_lt_1_alt. lra.
    + replace 2500 with (50 * 50) by lra. apply sqrt_square. lra.
Qed.

Lemma markerDistance_inside (y x : nat) :
  (x < 224)%nat ->
  ltb (RestructuredPipeline.markerDistance ((y * 224 + x) * 4)) (Fin 50)
  = insideMarker y x.
Proof.
  intros Hx. unfold RestructuredPipeline.markerDistance. cbv zeta.
  rewrite pixel_index, cell_div, cell_mod by exact Hx.
  rewrite distance_Fin. cbn [ltb]. unfold insideMarker, Spec.distance.
  set (s := (INR x - 112) * (INR x - 112) + (INR y - 112) * (INR y - 112)).
  assert (Hs : 0 <= s)
    by (unfold s; apply Rplus_le_le_0_compat; apply Rle_0_sqr).
  assert (Es : s = IZR ((Z.of_nat x - 112) * (Z.of_nat x - 112)
                        + (Z.of_nat y - 112) * (Z.of_nat y - 112))).
  { unfold s. rewrite plus_IZR, !mult_IZR, !minus_IZR, <- !INR_IZR_INZ.
    reflexivity. }
  destruct (Rlt_dec (sqrt s) 50) as [Hlt | Hge].
  - apply sqrt_below_50 in Hlt; [| exact Hs]. rewrite Es in Hlt.
    apply lt_IZR in Hlt. symmetry. apply Z.ltb_lt. exact Hlt.
  - symmetry. apply Z.ltb_ge. apply Z.nlt_ge. intros Hlt.
    apply Hge. apply sqrt_below_50; [exact Hs |]. rewrite Es.
    apply IZR_lt. exact Hlt.
Qed.

Lemma fallbackImageData_length :
  length RestructuredPipeline.fallbackImageData = (224 * 224 * 4)%nat.
Proof.
  unfold RestructuredPipeline.fallbackImageData.
  rewrite (marker_loop_length
             (fun i => ltb (RestructuredPipeline.markerDistance i) (Fin 50))).
  apply length_replicate.
Qed.

(** X21: the marker image returned after an exception is a red disc on
    a transparent ground: the pixel of row [y] and column [x] is
    (255, 0, 0, 100) when [(x - 112)² + (y - 112)² < 2500], and
    (0, 0, 0, 0) otherwise. *)
Theorem marker_image_pixels (y x : nat) :
  (y < 224)%nat -> (x < 224)%nat ->
  let i := ((y * 224 + x) * 4)%nat in
  let data := RestructuredPipeline.fallbackImageData in
  (data !! i, data !! (i + 1)%nat, data !! (i + 2)%nat, data !! (i + 3)%nat)
  = if insideMarker y x
    then (Some 255%Z, Some 0%Z, Some 0%Z, Some 100%Z)
    else (Some 0%Z, Some 0%Z, Some 0%Z, Some 0%Z).
Proof.
  intros Hy Hx. cbv zeta.
  pose proof (marker_loop_hit
                (fun i => ltb (RestructuredPipeline.markerDistance i) (Fin 50))
                0 (224 * 224) (replicate (224 * 224 * 4) 0%Z)
                (y * 224 + x)%nat) as H.
  cbv beta zeta in H. unfold RestructuredPipeline.fallbackImageData.
  rewrite markerDistance_inside in H by exact Hx.
  rewrite length_replicate in H.
  assert (H1 : (0 <= y * 224 + x < 0 + 224 * 224)%nat) by lia.
  assert (H2 : ((y * 224 + x) * 4 + 3 < 224 * 224 * 4)%nat) by lia.
  specialize (H H1 H2).
  destruct (insideMarker y x).
  - destruct H as (-> & -> & -> & ->). reflexivity.
  - destruct H as (-> & -> & -> & ->).
    rewrite !lookup_replicate_2 by lia. reflexivity.
Qed.

Lemma marker_image_pixels_witness :
  let i := ((112 * 224 + 112) * 4)%nat in
  let data := RestructuredPipeline.fallbackImageData in
  (data !! i, data !! (i + 1)%nat, data !! (i + 2)%nat, data !! (i + 3)%nat)
  = if insideMarker 112 112
    then (Some 255%Z, Some 0%Z, Some 0%Z, Some 100%Z)
    else (Some 0%Z, Some 0%Z, Some 0%Z, Some 0%Z).
Proof. apply (marker_image_pixels 112 112); lia. Defined.

End MarkerImage.

Section CopyPipeline.

Local Open Scope R_scope.

Lemma copy_generateGradCAM_saliencyMap (t : Tensor) (preds : list num) :
  RestructuredPipeline.generateGradCAM t preds
  = Some (if Restructured.validInput preds then
            match RestructuredPipeline.saliencyMap t preds with
            | Some m =>
                RestructuredPipeline.imageData
                  (RestructuredPipeline.colorArray (values m))
            | None => RestructuredPipeline.fallbackImageData
            end
          else RestructuredPipeline.fallbackImageData).
Proof.
  unfold RestructuredPipeline.generateGradCAM,
    RestructuredPipeline.saliencyMap.
  destruct (Restructured.validInput preds); [| reflexivity].
  destruct (RestructuredPipeline.heatmap t preds) as [hm |];
    cbn [mbind option_bind]; [| reflexivity].
  destruct (normalizedHeatmap hm); cbn [mbind option_bind]; reflexivity.
Qed.

(** X22: with a canvas at hand, [generateGradCAM] of the restructured
    copy never returns [null]: it always yields a buffer of 224 x 224 RGBA
    pixels, and this buffer is the marker image when the scores are empty
    or the batch dimension of the tensor exceeds 1. *)
Theorem copy_generateGradCAM_never_null (t : Tensor) (ps : list num) :
  (exists data,
     RestructuredPipeline.generateGradCAM t ps = Some data /\
     length data = (224 * 224 * 4)%nat) /\
  RestructuredPipeline.generateGradCAM t []
  = Some RestructuredPipeline.fallbackImageData /\
  (forall n s vs,
     RestructuredPipeline.generateGradCAM (mkTensor (S (S n) :: s) vs) ps
     = Some RestructuredPipeline.fallbackImageData).
Proof.
  split; [| split].
  - rewrite copy_generateGradCAM_saliencyMap. eexists. split; [reflexivity |].
    destruct (Restructured.validInput ps);
      [| apply fallbackImageData_length].
    destruct (RestructuredPipeline.saliencyMap t ps);
      [apply copy_imageData_length | apply fallbackImageData_length].
  - unfold RestructuredPipeline.generateGradCAM.
    cbn [Restructured.validInput length Nat.eqb negb]. reflexivity.
  - intros n s vs. unfold RestructuredPipeline.generateGradCAM.
    destruct (Restructured.validInput ps); [| reflexivity].
    unfold RestructuredPipeline.heatmap, squeeze0.
    cbn [shape mbind option_bind]. reflexivity.
Qed.

Lemma copy_heatmap_uniform (h w : nat) (r g b : R) (preds : list num) :
  RestructuredPipeline.heatmap (uniformInput h w r g b) preds
  = Some (mkTensor [h; w]
            (zip_with mul
               (replicate (h * w)
                  (div (Fin (luminance r g b))
                       (Math_max (replicate (h * w)
                                    (Fin (luminance r g b))))))
               (RestructuredPipeline.centerMask h w
                  (Restructured.confidenceBoost preds)))).
Proof.
  unfold RestructuredPipeline.heatmap, uniformInput, squeeze0, tf_mean_axis2,
    tf_max.
  cbn [mbind option_bind shape values].
  unfold tf_mul, tf_div; cbn [shape values].
  rewrite chunkMeans_rgb, map_fmap, fmap_replicate. reflexivity.
Qed.

Lemma copy_heatmap_black (h w : nat) (preds : list num) :
  (0 < h)%nat -> (0 < w)%nat ->
  RestructuredPipeline.heatmap (uniformInput h w 0 0 0) preds
  = Some (mkTensor [h; w] (replicate (h * w) NaN)).
Proof.
  intros Hh Hw. rewrite copy_heatmap_uniform. do 2 f_equal.
  replace (luminance 0 0 0) with 0 by (unfold luminance; lra).
  destruct (h * w)%nat as [| n] eqn:Hn; [nia |].
  rewrite normalized_black. rewrite <- Hn.
  apply list_eq; intros i. rewrite lookup_zip_with.
  destruct (decide (i < h * w)%nat) as [Hi | Hi].
  - rewrite !lookup_replicate_2 by exact Hi.
    destruct (lookup_lt_is_Some_2
                (RestructuredPipeline.centerMask h w
                   (Restructured.confidenceBoost preds)) i)
      as [v ->]; [rewrite copy_centerMask_length; exact Hi | reflexivity].
  - rewrite !(proj2 (lookup_ge_None (replicate (h * w) _) i))
      by (rewrite length_replicate; lia).
    reflexivity.
Qed.

Lemma normalizedHeatmap_all_NaN :
  normalizedHeatmap (mkTensor [224; 224]%nat (replicate (224 * 224) NaN))
  = Some (mkTensor [224; 224]%nat (replicate (224 * 224) NaN)).
Proof.
  rewrite normalizedHeatmap_rescaled.
  - rewrite Math_min_all_NaN, Math_max_all_NaN by lia.
    rewrite !map_fmap, !fmap_replicate. reflexivity.
  - apply length_replicate.
  - apply Forall_replicate, NaN_no_inf.
  - rewrite Math_min_all_NaN, Math_max_all_NaN by lia. reflexivity.
Qed.

(** X23: for the all-black image and a vector of at least one score,
    the restructured copy returns an overlay all of whose pixels are
    (0, 0, 0) with alpha 0: the saliency is NaN there, and the alpha is
    computed from the colour bytes. *)
Theorem copy_black_image_transparent (p : num) (ps : list num) (i : nat) :
  (i < 224 * 224)%nat ->
  exists data,
    RestructuredPipeline.generateGradCAM (uniformInput 224 224 0 0 0)
                                         (p :: ps) = Some data /\
    data !! (i * 4)%nat = Some 0%Z /\
    data !! (i * 4 + 1)%nat = Some 0%Z /\
    data !! (i * 4 + 2)%nat = Some 0%Z /\
    data !! (i * 4 + 3)%nat = Some 0%Z.
Proof.
  intros Hi.
  exists (RestructuredPipeline.imageData
            (RestructuredPipeline.colorArray (replicate (224 * 224) NaN))).
  split.
  - rewrite copy_generateGradCAM_saliencyMap.
    unfold RestructuredPipeline.saliencyMap.
    rewrite copy_heatmap_black by lia. cbn [mbind option_bind].
    rewrite normalizedHeatmap_all_NaN. reflexivity.
  - apply (copy_imageData_lookup (replicate (224 * 224) NaN) i NaN Hi).
    apply lookup_replicate_2. exact Hi.
Qed.

Lemma copy_black_image_transparent_witness :
  exists data,
    RestructuredPipeline.generateGradCAM (uniformInput 224 224 0 0 0)
                                         [Fin 1] = Some data /\
    data !! (0 * 4)%nat = Some 0%Z /\
    data !! (0 * 4 + 1)%nat = Some 0%Z /\
    data !! (0 * 4 + 2)%nat = Some 0%Z /\
    data !! (0 * 4 + 3)%nat = Some 0%Z.
Proof. apply (copy_black_image_transparent (Fin 1) [] 0). lia. Defined.

End CopyPipeline.

Section CopyUniform.

Local Open Scope R_scope.

Lemma maskWeight_gauss (h w y x : nat) (b : R) :
  Spec.maskWeight h w y x b = gauss h w y x * b.
Proof. unfold gauss, Spec.maskWeight. ring. Qed.

Lemma gauss_range (h w y x : nat) :
  (0 < h)%nat -> (0 < w)%nat -> 0 < gauss h w y x <= 1.
Proof. intros Hh Hw. apply gauss_bounds; (assumption || lra). Qed.

Lemma distance_sqr (cy cx y x : R) :
  Spec.distance cy cx y x * Spec.distance cy cx y x
  = (y - cy) * (y - cy) + (x - cx) * (x - cx).
Proof.
  unfold Spec.distance. apply sqrt_sqrt.
  apply Rplus_le_le_0_compat; apply Rle_0_sqr.
Qed.

(** The cell of row 0 and column 0 is a farthest one from the centre. *)
Lemma gauss_corner_least (y x : nat) :
  (y < 224)%nat -> (x < 224)%nat -> gauss 224 224 0 0 <= gauss 224 224 y x.
Proof.
  intros Hy Hx. unfold gauss, Spec.maskWeight.
  apply Rmult_le_compat_r; [lra |].
  rewrite !distance_sqr. change (224 / 2)%nat with 112%nat.
  rewrite INR_112, Nat.min_id, INR_224. simpl (INR 0).
  assert (Hy0 : 0 <= INR y <= 223).
  { split; [apply pos_INR |].
    replace 223 with (INR 223) by (rewrite INR_IZR_INZ; reflexivity).
    apply le_INR. lia. }
  assert (Hx0 : 0 <= INR x <= 223).
  { split; [apply pos_INR |].
    replace 223 with (INR 223) by (rewrite INR_IZR_INZ; reflexivity).
    apply le_INR. lia. }
  assert (Hd : (INR y - 112) * (INR y - 112) + (INR x - 112) * (INR x - 112)
               <= (0 - 112) * (0 - 112) + (0 - 112) * (0 - 112)) by nra.
  set (k := 2 * (224 / 3 / 2 * (224 / 3 / 2))).
  assert (Hk : 0 < k) by (unfold k; lra).
  assert (Hle : - ((0 - 112) * (0 - 112) + (0 - 112) * (0 - 112)) / k
                <= - ((INR y - 112) * (INR y - 112)
                      + (INR x - 112) * (INR x - 112)) / k).
  { unfold Rdiv. apply Rmult_le_compat_r;
      [apply Rlt_le, Rinv_0_lt_compat, Hk | lra]. }
  destruct Hle as [Hlt | Heq].
  - left. apply exp_increasing, Hlt.
  - rewrite Heq. right. reflexivity.
Qed.

Lemma gauss_corner_below_1 : gauss 224 224 0 0 < 1.
Proof.
  pose proof (gauss_range 224 224 0 0 ltac:(lia) ltac:(lia)) as [_ Hle].
  destruct Hle as [Hlt | Heq]; [exact Hlt |].
  exfalso. unfold gauss in Heq.
  apply (gauss_peak 224 224 0 0 1) in Heq; [| lia | lia | lra].
  destruct Heq as [Heq _]. change (224 / 2)%nat with 112%nat in Heq.
  discriminate Heq.
Qed.

(** The raw map of a lit uniform image in the copy. *)
Lemma copy_heatmap_lit (h w : nat) (r g b : R) (ps : list R) (B : R) :
  luminance r g b <> 0 -> (0 < h)%nat -> (0 < w)%nat ->
  Restructured.confidenceBoost (Fin <$> ps) = Fin B ->
  RestructuredPipeline.heatmap (uniformInput h w r g b) (Fin <$> ps)
  = Some (mkTensor [h; w]
            (Fin <$> ((fun i => gauss h w (i / w) (i mod w) * B)
                        <$> seq 0 (h * w)))).
Proof.
  intros HL Hh Hw HB. rewrite copy_heatmap_uniform, HB. do 2 f_equal.
  destruct (h * w)%nat as [| n] eqn:Hn; [nia |].
  rewrite normalized_lit by exact HL. rewrite <- Hn.
  apply list_eq; intros i. rewrite lookup_zip_with, !list_lookup_fmap.
  destruct (decide (i < h * w)%nat) as [Hi | Hi].
  - rewrite lookup_replicate_2 by exact Hi.
    rewrite lookup_seq_lt by exact Hi.
    destruct (grid_index w i Hw) as [Ei Hm].
    assert (Hd : (i / w < h)%nat)
      by (apply Nat.Div0.div_lt_upper_bound; lia).
    pose proof (copy_centerMask_lookup h w (Fin B) (i / w) (i mod w) Hd Hm)
      as Hcell.
    rewrite <- Ei in Hcell. rewrite Hcell.
    rewrite restructured_mask_gaussian by assumption.
    cbn. rewrite maskWeight_gauss. do 2 f_equal. ring.
  - rewrite (proj2 (lookup_ge_None (replicate (h * w) _) i))
      by (rewrite length_replicate; lia).
    rewrite (proj2 (lookup_ge_None (seq 0 (h * w)) i))
      by (rewrite length_seq; lia).
    reflexivity.
Qed.

Lemma copy_raw_extremes (B : R) :
  0 < B ->
  let rs := (fun i => gauss 224 224 (i / 224) (i mod 224) * B)
              <$> seq 0 (224 * 224) in
  is_min (gauss 224 224 0 0 * B) rs /\ is_max B rs.
Proof.
  intros HB rs. split; split.
  - apply list_elem_of_fmap. exists 0%nat. split; [reflexivity |].
    apply elem_of_seq. lia.
  - apply Forall_fmap, Forall_forall. intros i Hi.
    apply elem_of_seq in Hi.
    change (gauss 224 224 0 0 * B
            <= gauss 224 224 (i / 224) (i mod 224) * B).
    apply Rmult_le_compat_r; [lra |]. apply gauss_corner_least.
    + apply Nat.Div0.div_lt_upper_bound. lia.
    + apply Nat.mod_upper_bound. lia.
  - apply list_elem_of_fmap. exists (112 * 224 + 112)%nat. split.
    + rewrite cell_div, cell_mod by lia. unfold gauss.
      pose proof (proj2 (gauss_peak 224 224 112 112 1 ltac:(lia) ltac:(lia)
                           ltac:(lra))) as H.
      rewrite H by (split; reflexivity). ring.
    + apply elem_of_seq. lia.
  - apply Forall_fmap, Forall_forall. intros i Hi.
    change (gauss 224 224 (i / 224) (i mod 224) * B <= B).
    pose proof (gauss_range 224 224 (i / 224) (i mod 224)
                  ltac:(lia) ltac:(lia)) as [_ Hle].
    nra.
Qed.

Lemma gauss_corner_only (y x : nat) :
  (y < 224)%nat -> (x < 224)%nat ->
  (gauss 224 224 y x = gauss 224 224 0 0 <-> y = 0%nat /\ x = 0%nat).
Proof.
  intros Hy Hx. split; [| intros [-> ->]; reflexivity].
  unfold gauss, Spec.maskWeight. rewrite !Rmult_1_r. intros He.
  apply exp_inv in He. rewrite !distance_sqr in He.
  change (224 / 2)%nat with 112%nat in He.
  rewrite INR_112, Nat.min_id, INR_224 in He. simpl (INR 0) in He.
  assert (Hy0 : 0 <= INR y <= 223).
  { split; [apply pos_INR |].
    replace 223 with (INR 223) by (rewrite INR_IZR_INZ; reflexivity).
    apply le_INR. lia. }
  assert (Hx0 : 0 <= INR x <= 223).
  { split; [apply pos_INR |].
    replace 223 with (INR 223) by (rewrite INR_IZR_INZ; reflexivity).
    apply le_INR. lia. }
  set (k := 2 * (224 / 3 / 2 * (224 / 3 / 2))) in He.
  assert (Hk : 0 < k) by (unfold k; lra).
  assert (Hd : (INR y - 112) * (INR y - 112) + (INR x - 112) * (INR x - 112)
               = (0 - 112) * (0 - 112) + (0 - 112) * (0 - 112)).
  { unfold Rdiv in He. apply Rmult_eq_reg_r in He;
      [lra | apply Rgt_not_eq, Rinv_0_lt_compat, Hk]. }
  assert (Ey : INR y = 0) by nra.
  assert (Ex : INR x = 0) by nra.
  split; apply INR_eq; simpl; assumption.
Qed.

(** X24: in the restructured copy the saliency map of a uniform
    224 x 224 image whose colour, given by its three bytes, is not black
    comes from the regular branch, for every vector of finite scores: it
    lies in [0, 1], is 1 at the centre cell (112, 112) and nowhere else,
    and is 0 at the corner cell (0, 0) and nowhere else. *)
Theorem copy_uniform_image_saliency (red green blue : Z) (ps : list R)
  (y x : nat) :
  (0 <= red <= 255)%Z -> (0 <= green <= 255)%Z -> (0 <= blue <= 255)%Z ->
  (0 < red + green + blue)%Z ->
  (y < 224)%nat -> (x < 224)%nat ->
  exists ms v,
    RestructuredPipeline.saliencyMap
      (uniformInput 224 224 (IZR red / 255) (IZR green / 255)
                    (IZR blue / 255))
      (Fin <$> ps)
    = Some (mkTensor [224; 224]%nat ms) /\
    ms !! (y * 224 + x)%nat = Some (Fin v) /\
    0 <= v <= 1 /\
    (v = 1 <-> y = 112%nat /\ x = 112%nat) /\
    (v = 0 <-> y = 0%nat /\ x = 0%nat).
Proof.
  intros [Hr _] [Hg _] [Hb _] Hlit Hy Hx.
  pose proof (luminance_bytes red green blue Hr Hg Hb Hlit) as HL.
  destruct (copy_boost_range ps) as (B & HB & HB1 & HB2).
  assert (HBpos : 0 < B) by lra.
  destruct (copy_raw_extremes B HBpos) as [Hmin Hmax]. cbv zeta in Hmin, Hmax.
  pose proof gauss_corner_below_1 as Hc.
  pose proof (gauss_range 224 224 0 0 ltac:(lia) ltac:(lia)) as [Hc0 _].
  pose proof (gauss_range 224 224 y x ltac:(lia) ltac:(lia)) as [_ Hg1].
  pose proof (gauss_corner_least y x Hy Hx) as Hg0.
  eexists. exists ((gauss 224 224 y x - gauss 224 224 0 0)
                   / (1 - gauss 224 224 0 0)).
  split; [| split; [| split; [| split]]].
  - unfold RestructuredPipeline.saliencyMap.
    rewrite (copy_heatmap_lit 224 224 _ _ _ ps B HL ltac:(lia) ltac:(lia) HB).
    cbn [mbind option_bind].
    apply (normalizedHeatmap_finite _ (gauss 224 224 0 0 * B) B).
    + rewrite length_fmap, length_seq. reflexivity.
    + exact Hmin.
    + exact Hmax.
    + nra.
  - rewrite !list_lookup_fmap, lookup_seq_lt by lia.
    cbn [fmap option_fmap option_map]. rewrite Nat.add_0_l.
    rewrite cell_div, cell_mod by exact Hx. do 2 f_equal.
    field. repeat split; try lra; intros Hz; nra.
  - split.
    + apply Rmult_le_pos; [lra |]. left. apply Rinv_0_lt_compat. lra.
    + apply (Rmult_le_reg_r (1 - gauss 224 224 0 0)); [lra |].
      unfold Rdiv. rewrite Rmult_assoc, Rinv_l by lra. lra.
  - pose proof (gauss_peak 224 224 y x 1 ltac:(lia) ltac:(lia) ltac:(lra))
      as Hpk.
    change (224 / 2)%nat with 112%nat in Hpk. rewrite <- Hpk.
    unfold gauss in *.
    set (gyx := Spec.maskWeight 224 224 y x 1) in *.
    set (g00 := Spec.maskWeight 224 224 0 0 1) in *.
    split.
    + intros He.
      apply (f_equal (fun t => t * (1 - g00))) in He.
      unfold Rdiv in He. rewrite Rmult_assoc, Rinv_l in He by lra.
      lra.
    + intros ->. field. lra.
  - rewrite <- (gauss_corner_only y x Hy Hx).
    set (gyx := gauss 224 224 y x) in *.
    set (g00 := gauss 224 224 0 0) in *.
    split.
    + intros He.
      apply (f_equal (fun t => t * (1 - g00))) in He.
      unfold Rdiv in He. rewrite Rmult_assoc, Rinv_l in He by lra.
      lra.
    + intros ->. unfold Rdiv. ring.
Qed.

Lemma copy_uniform_image_saliency_witness :
  exists ms v,
    RestructuredPipeline.saliencyMap
      (uniformInput 224 224 (IZR 128 / 255) (IZR 128 / 255) (IZR 128 / 255))
      (Fin <$> [1])
    = Some (mkTensor [224; 224]%nat ms) /\
    ms !! (112 * 224 + 112)%nat = Some (Fin v) /\
    0 <= v <= 1 /\
    (v = 1 <-> 112%nat = 112%nat /\ 112%nat = 112%nat) /\
    (v = 0 <-> 112%nat = 0%nat /\ 112%nat = 0%nat).
Proof.
  apply (copy_uniform_image_saliency 128 128 128 [1] 112 112); lia.
Defined.

End CopyUniform.

Section CopyResults.

Local Open Scope R_scope.

Lemma unit_clamp_range (c : R) : 0 <= unit_clamp c <= 1.
Proof.
  unfold unit_clamp. split; [apply Rmax_l |].
  apply Rmax_lub; [lra | apply Rmin_l].
Qed.

Lemma unit_clamp_below_half (c : R) : unit_clamp c < 1 / 2 <-> c < 1 / 2.
Proof. unfold unit_clamp, Rmax, Rmin. case_R; lra. Qed.

Lemma copy_results_finite (ps : list R) :
  Forall (fun q => exists y, confidence q = Fin y)
         (imap (fun index c =>
                  mkPrediction
                    (default ("Unknown-" +:+ pretty index)
                             (JANKEN_LABELS !! index))
                    (max2 (Fin 0) (min2 (Fin 1) c)))
               (take (length JANKEN_LABELS) (Fin <$> ps))).
Proof.
  apply Forall_lookup. intros i p. rewrite list_lookup_imap.
  destruct (take (length JANKEN_LABELS) (Fin <$> ps) !! i) as [c |] eqn:Hc;
    [| discriminate].
  apply lookup_take_Some in Hc as [Hc _]. rewrite list_lookup_fmap in Hc.
  destruct (ps !! i) as [s |]; [| discriminate].
  injection Hc as <-. intros [= <-]. cbn [confidence].
  rewrite min2_Fin, max2_Fin. eexists; reflexivity.
Qed.

Lemma copy_results_sorted (ps : list R) :
  StronglySorted noLess (Restructured.results (Fin <$> ps)).
Proof. apply Array_sort_sorted, copy_results_finite. Qed.

Lemma copy_results_confidence (ps : list R) :
  confidence <$> Restructured.results (Fin <$> ps)
  ≡ₚ Fin <$> (unit_clamp <$> take 3 ps).
Proof.
  unfold Restructured.results.
  rewrite (Array_sort_perm byConfidenceDesc).
  change (length JANKEN_LABELS) with 3%nat. rewrite <- fmap_take.
  generalize (take 3 ps). intros l.
  assert (E : forall (k : nat),
             confidence <$>
               imap (fun index c =>
                       mkPrediction
                         (default ("Unknown-" +:+ pretty (k + index)%nat)
                                  (JANKEN_LABELS !! (k + index)%nat))
                         (max2 (Fin 0) (min2 (Fin 1) c)))
                    (Fin <$> l)
             = Fin <$> (unit_clamp <$> l)).
  { induction l as [| c l IH]; intros k; [reflexivity |].
    cbn [fmap list_fmap imap confidence]. rewrite min2_Fin, max2_Fin.
    fold (unit_clamp c). f_equal.
    rewrite <- (IH (S k)). f_equal. apply imap_ext. intros i x _.
    cbn. replace (k + S i)%nat with (S (k + i)) by lia. reflexivity. }
  rewrite <- (E 0%nat). reflexivity.
Qed.

(** X25: in the restructured copy the reported list has one entry for
    each of the first three scores, in non-increasing order of
    confidence, and its confidences are those scores clamped to
    [0, 1]. *)
Theorem copy_results_sorted_clamped (ps : list R) :
  length (Restructured.results (Fin <$> ps)) = Nat.min 3 (length ps) /\
  StronglySorted noLess (Restructured.results (Fin <$> ps)) /\
  confidence <$> Restructured.results (Fin <$> ps)
  ≡ₚ Fin <$> (unit_clamp <$> take 3 ps) /\
  Forall (fun c => 0 <= c <= 1) (unit_clamp <$> take 3 ps).
Proof.
  split; [| split; [| split]].
  - rewrite <- (length_fmap confidence).
    rewrite (Permutation_length (copy_results_confidence ps)).
    rewrite !length_fmap, length_take. reflexivity.
  - apply copy_results_sorted.
  - apply copy_results_confidence.
  - apply Forall_fmap, Forall_forall. intros c _. apply unit_clamp_range.
Qed.

Lemma or_else_Fin (t : R) : or_else (Some (Fin t)) (Fin 0) = Fin t.
Proof.
  unfold or_else, truthy. destruct (Req_dec_T t 0) as [-> | _]; reflexivity.
Qed.

(** X26: the restructured copy issues its low confidence warning
    exactly when each of the first three scores is below 0.5 (so also
    when there is no score at all). *)
Theorem copy_low_confidence_iff (ps : list R) :
  RestructuredPipeline.lowConfidence (Fin <$> ps) = true
  <-> Forall (fun p => p < 1 / 2) (take 3 ps).
Proof.
  unfold RestructuredPipeline.lowConfidence,
    RestructuredPipeline.topConfidence.
  pose proof (copy_results_sorted ps) as Hs.
  pose proof (copy_results_confidence ps) as Hc.
  destruct (Restructured.results (Fin <$> ps)) as [| top rest].
  - cbn [head fmap option_fmap option_map or_else ltb].
    symmetry in Hc. apply Permutation_nil_r in Hc.
    apply fmap_nil_inv, fmap_nil_inv in Hc. rewrite Hc.
    destruct (Rlt_dec 0 (1 / 2)); [| lra].
    split; [constructor | reflexivity].
  - cbn [head fmap option_fmap option_map].
    inversion Hs as [| ? ? _ Hrest]; subst.
    assert (Htop : confidence top ∈ Fin <$> (unit_clamp <$> take 3 ps))
      by (rewrite <- Hc; left).
    apply list_elem_of_fmap in Htop as (t & Ht & Htin).
    apply list_elem_of_fmap in Htin as (p0 & Hp0 & Hp0in).
    rewrite Ht, or_else_Fin. cbn [ltb].
    destruct (Rlt_dec t (1 / 2)) as [Hlt | Hge].
    + split; [intros _ | reflexivity].
      apply Forall_forall. intros p Hp.
      apply unit_clamp_below_half.
      assert (Hin : Fin (unit_clamp p) ∈ confidence <$> (top :: rest)).
      { rewrite Hc. apply list_elem_of_fmap. eexists; split; [reflexivity |].
        apply list_elem_of_fmap. eexists; split; [reflexivity | exact Hp]. }
      cbn [fmap list_fmap] in Hin. apply elem_of_cons in Hin as [Hin | Hin].
      * rewrite Ht in Hin. injection Hin as ->. exact Hlt.
      * apply list_elem_of_fmap in Hin as (q & Hq & Hqin).
        rewrite Forall_forall in Hrest.
        destruct (Hrest q Hqin) as (x & y & Hx & Hy & Hle).
        rewrite Ht in Hx. injection Hx as <-.
        rewrite <- Hq in Hy. injection Hy as <-. lra.
    + split; [discriminate | intros Hall]. exfalso. apply Hge.
      rewrite Forall_forall in Hall. specialize (Hall p0 Hp0in).
      rewrite Hp0. apply unit_clamp_below_half. exact Hall.
Qed.

End CopyResults.
